(** * idb-kv: a batching key-value layer over IndexedDB

    A shallow embedding of [src/index.js].  The class keeps a queue of pending
    actions, swaps it out on every commit and applies it in one IndexedDB
    transaction.  The JavaScript run time is made explicit: promises live in a
    heap, [await] registers a continuation on a promise, settled promises
    schedule jobs, and a turn of the event loop runs one handler followed by
    the jobs it caused.  IndexedDB and the timers are the environment: they
    deliver the events of [Event]. *)

From Stdlib Require Import ZArith.
From stdpp Require Import base option list strings gmap.

Set Default Proof Using "Type".

(** ** Values *)

(** Keys are the addressing unit of the store. *)
Definition Key := string.

Inductive Value : Type :=
| VUndefined
| VNull
| VNum (n : Z)
| VStr (s : string)
| VError (message : string)          (* new Error(message) *)
| VTypeError (message : string)      (* raised by the run time *)
| VDOMException (name : string)      (* request.error, transaction.error *)
| VEvent (type : string)             (* the argument of an event handler *)
| VDatabase (name : string)          (* request.result of indexedDB.open *)
| VTimer (id : nat).                 (* the value of setInterval *)

#[global] Instance Value_eq_dec : EqDecision Value.
Proof. solve_decision. Defined.

(** ToBoolean, for [transaction.error || error]. *)
Definition truthy (v : Value) : bool :=
  match v with
  | VUndefined | VNull => false
  | VNum n => negb (n =? 0)%Z
  | VStr s => negb (bool_decide (s = ""%string))
  | _ => true
  end.

Definition js_or (a b : Value) : Value := if truthy a then a else b.

Definition ClosedError : Value := VError "This Idbkv instance is closed".

(** ** Promises, continuations and jobs *)

Inductive Outcome : Type :=
| Fulfilled (v : Value)
| Rejected (e : Value).

(** The places where an async method of the class is suspended.  [self] is
    the promise of the suspended call. *)
Inductive Cont : Type :=
| KStartBatchTimer (self : nat)          (* await this.db, line 100 *)
| KCloseTimer (self : nat)               (* await this._batchTimer, line 80 *)
| KCloseCommit (self : nat)              (* await this._commit(), line 83 *)
| KCloseDb (self : nat)                  (* await this.db, line 85 *)
| KDestroyClose (self : nat)             (* await this.close(), line 89 *)
| KDestroyDb (self : nat)                (* await this.db, line 92 *)
| KCommitDb (self : nat) (commitedActions : nat)
            (resolveBatch rejectBatch : nat).   (* await this.db, line 120 *)

(** A reaction registered on a promise: the resolving functions of another
    promise (which then takes the same outcome), or a suspended call. *)
Inductive Reaction : Type :=
| RAdopt (p : nat)
| RResume (k : Cont).

Record Promise : Type := mkPromise {
  pstate : option Outcome;          (* None: pending *)
  reactions : list Reaction
}.

Inductive Job : Type :=
| JReact (r : Reaction) (o : Outcome)   (* PromiseReactionJob *)
| JThen (p q : nat).                    (* NewPromiseResolveThenableJob: q.then(resolve p, reject p) *)

(** ** Actions *)

(** An entry of [this._actions].  The resolving functions of a promise are
    named by the promise they settle. *)
Inductive Action : Type :=
| AGet (key : Key) (resolve reject : nat)
| ASet (key : Key) (value : Value)
| ADelete (key : Key).

(** ** IndexedDB *)

Inductive Request : Type :=
| RqGet (key : Key) (onsuccess onerror : nat)   (* the promise each handler settles *)
| RqPut (key : Key) (value : Value)
| RqDelete (key : Key).

Inductive TxStatus : Type := TxActive | TxErred | TxFinished.

#[global] Instance TxStatus_eq_dec : EqDecision TxStatus.
Proof. solve_decision. Defined.

(** The handlers [_commit] installs on a transaction: [oncomplete] calls
    [resolveBatch] and [resolve]; [onerror] and [onabort] call [rejectBatch]
    and [resolve]. *)
Record TxHandlers : Type := mkHandlers {
  h_resolveBatch : nat;
  h_rejectBatch : nat;
  h_resolve : nat
}.

Record Txn : Type := mkTxn {
  tx_requests : list Request;                 (* issued and not yet served *)
  tx_status : TxStatus;
  tx_backup : option (gmap Key Value);        (* contents when it started *)
  tx_handlers : option TxHandlers
}.

Inductive ConnState : Type := Connecting | Open | Failed | ConnClosed.

#[global] Instance ConnState_eq_dec : EqDecision ConnState.
Proof. solve_decision. Defined.

(** What the class does to its collaborators, in program order.  [TCommit]
    marks each entry into [_commit]. *)
Inductive Effect : Type :=
| TOpen (name : string)
| TCommit
| TTransaction (tid : nat)
| TSetInterval (id : nat) (delay : Z)
| TClearInterval (handle : Value)
| TDbClose
| TDeleteDatabase (name : string).

#[global] Instance Effect_eq_dec : EqDecision Effect.
Proof. solve_decision. Defined.

(** ** The instance and the world around it *)

Record Idbkv : Type := mkIdbkv {
  storeName : string;
  batchInterval : Z;
  db : nat;                       (* promise for the database *)
  _actions : option nat;          (* reference to the array; None is null *)
  closed : bool;
  _batchPromise : nat;
  _resolveBatch : nat;
  _rejectBatch : nat;
  _batchTimer : nat
}.

Record World : Type := mkWorld {
  this : Idbkv;
  promises : list Promise;               (* the promise heap *)
  arrays : list (list Action);           (* the array heap *)
  jobs : list Job;                       (* the job queue *)
  intervals : list (Z * bool);           (* setInterval timers: delay, active *)
  dbName : string;
  conn : ConnState;
  database : option (gmap Key Value);    (* None: no such database *)
  txns : list Txn;
  deletions : list (nat * bool);         (* deleteDatabase requests: promise of the handlers, pending *)
  trace : list Effect
}.

(** *** Field updates *)

Definition with_actions (a : option nat) (t : Idbkv) : Idbkv :=
  let 'mkIdbkv sn bi d _ c bp res rej bt := t in mkIdbkv sn bi d a c bp res rej bt.
Definition with_closed (c : bool) (t : Idbkv) : Idbkv :=
  let 'mkIdbkv sn bi d a _ bp res rej bt := t in mkIdbkv sn bi d a c bp res rej bt.
Definition with_batch (p res rej : nat) (t : Idbkv) : Idbkv :=
  let 'mkIdbkv sn bi d a c _ _ _ bt := t in mkIdbkv sn bi d a c p res rej bt.
Definition with_db (p : nat) (t : Idbkv) : Idbkv :=
  let 'mkIdbkv sn bi _ a c bp res rej bt := t in mkIdbkv sn bi p a c bp res rej bt.
Definition with_batchTimer (p : nat) (t : Idbkv) : Idbkv :=
  let 'mkIdbkv sn bi d a c bp res rej _ := t in mkIdbkv sn bi d a c bp res rej p.

Definition set_this (f : Idbkv -> Idbkv) (w : World) : World :=
  let 'mkWorld t ps arrs js ivs nm cn dat txs dels tr := w in
  mkWorld (f t) ps arrs js ivs nm cn dat txs dels tr.
Definition set_promises (ps : list Promise) (w : World) : World :=
  let 'mkWorld t _ arrs js ivs nm cn dat txs dels tr := w in
  mkWorld t ps arrs js ivs nm cn dat txs dels tr.
Definition set_arrays (arrs : list (list Action)) (w : World) : World :=
  let 'mkWorld t ps _ js ivs nm cn dat txs dels tr := w in
  mkWorld t ps arrs js ivs nm cn dat txs dels tr.
Definition set_jobs (js : list Job) (w : World) : World :=
  let 'mkWorld t ps arrs _ ivs nm cn dat txs dels tr := w in
  mkWorld t ps arrs js ivs nm cn dat txs dels tr.
Definition set_intervals (ivs : list (Z * bool)) (w : World) : World :=
  let 'mkWorld t ps arrs js _ nm cn dat txs dels tr := w in
  mkWorld t ps arrs js ivs nm cn dat txs dels tr.
Definition set_conn (cn : ConnState) (w : World) : World :=
  let 'mkWorld t ps arrs js ivs nm _ dat txs dels tr := w in
  mkWorld t ps arrs js ivs nm cn dat txs dels tr.
Definition set_database (dat : option (gmap Key Value)) (w : World) : World :=
  let 'mkWorld t ps arrs js ivs nm cn _ txs dels tr := w in
  mkWorld t ps arrs js ivs nm cn dat txs dels tr.
Definition set_txns (txs : list Txn) (w : World) : World :=
  let 'mkWorld t ps arrs js ivs nm cn dat _ dels tr := w in
  mkWorld t ps arrs js ivs nm cn dat txs dels tr.
Definition set_deletions (dels : list (nat * bool)) (w : World) : World :=
  let 'mkWorld t ps arrs js ivs nm cn dat txs _ tr := w in
  mkWorld t ps arrs js ivs nm cn dat txs dels tr.
Definition emit (e : Effect) (w : World) : World :=
  let 'mkWorld t ps arrs js ivs nm cn dat txs dels tr := w in
  mkWorld t ps arrs js ivs nm cn dat txs dels (tr ++ [e]).

(** ** The promise machinery *)

(** [new Promise(...)]: a fresh pending promise. *)
Definition new_promise (w : World) : nat * World :=
  (length (promises w), set_promises (promises w ++ [mkPromise None []]) w).

(** Settling: the first outcome wins, and the reactions registered so far
    become jobs, in the order they were registered. *)
Definition settle (p : nat) (o : Outcome) (w : World) : World :=
  match promises w !! p with
  | Some (mkPromise None rs) =>
      set_jobs (jobs w ++ map (fun r => JReact r o) rs)
        (set_promises (<[p := mkPromise (Some o) []]> (promises w)) w)
  | _ => w
  end.

(** Resolving [p] with the promise [q]: [p] takes up the outcome of [q],
    through a job that calls [q.then]. *)
Definition resolve_with_promise (p q : nat) (w : World) : World :=
  match promises w !! p with
  | Some (mkPromise None _) => set_jobs (jobs w ++ [JThen p q]) w
  | _ => w
  end.

Definition add_reactions (rs : list Reaction) (p : Promise) : Promise :=
  mkPromise (pstate p) (reactions p ++ rs).

(** [q.then(...)] and [await q]: register on a pending promise, or schedule
    the reaction at once on a settled one. *)
Definition then_ (q : nat) (r : Reaction) (w : World) : World :=
  match promises w !! q with
  | Some (mkPromise None _) =>
      set_promises (alter (add_reactions [r]) q (promises w)) w
  | Some (mkPromise (Some o) _) => set_jobs (jobs w ++ [JReact r o]) w
  | None => w
  end.

Definition await (q : nat) (k : Cont) (w : World) : World := then_ q (RResume k) w.

(** ** Timers *)

Definition setInterval (delay : Z) (w : World) : Value * World :=
  let id := length (intervals w) in
  (VTimer id, emit (TSetInterval id delay) (set_intervals (intervals w ++ [(delay, true)]) w)).

Definition clearInterval (h : Value) (w : World) : World :=
  let w := emit (TClearInterval h) w in
  match h with
  | VTimer id =>
      match intervals w !! id with
      | Some (d, _) => set_intervals (<[id := (d, false)]> (intervals w)) w
      | None => w
      end
  | _ => w
  end.

(** ** The class *)

(** [this._actions.push(a)]; on null the property access throws. *)
Definition push (a : Action) (w : World) : option World :=
  match _actions (this w) with
  | Some r =>
      match arrays w !! r with
      | Some _ => Some (set_arrays (alter (λ q, q ++ [a]) r (arrays w)) w)
      | None => None
      end
  | None => None
  end.

Definition null_error : Value := VTypeError "Cannot read properties of null".

(** [get], lines 49-59.  The call's own promise [self] is resolved with the
    promise whose resolving functions go into the queue. *)
Definition get (key : Key) (w : World) : nat * World :=
  let '(self, w) := new_promise w in
  if closed (this w) then (self, settle self (Rejected ClosedError) w)
  else
    let '(p, w) := new_promise w in
    let w := match push (AGet key p p) w with
             | Some w' => w'
             | None => settle p (Rejected null_error) w
             end in
    (self, resolve_with_promise self p w).

(** [set], lines 60-68. *)
Definition set (key : Key) (value : Value) (w : World) : nat * World :=
  let '(self, w) := new_promise w in
  if closed (this w) then (self, settle self (Rejected ClosedError) w)
  else
    match push (ASet key value) w with
    | Some w => (self, resolve_with_promise self (_batchPromise (this w)) w)
    | None => (self, settle self (Rejected null_error) w)
    end.

(** [delete], lines 69-76. *)
Definition delete (key : Key) (w : World) : nat * World :=
  let '(self, w) := new_promise w in
  if closed (this w) then (self, settle self (Rejected ClosedError) w)
  else
    match push (ADelete key) w with
    | Some w => (self, resolve_with_promise self (_batchPromise (this w)) w)
    | None => (self, settle self (Rejected null_error) w)
    end.

(** [_commit], lines 107-120: everything up to the first [await]. *)
Definition _commit (w : World) : nat * World :=
  let '(self, w) := new_promise w in
  let w := emit TCommit w in
  match _actions (this w) with
  | None => (self, settle self (Rejected null_error) w)
  | Some r =>
      match arrays w !! r with
      | None => (self, settle self (Rejected null_error) w)
      | Some [] => (self, settle self (Fulfilled VUndefined) w)
      | Some (_ :: _) =>
          let commitedActions := r in
          let fresh := length (arrays w) in
          let w := set_this (with_actions (Some fresh)) (set_arrays (arrays w ++ [[]]) w) in
          let resolveBatch := _resolveBatch (this w) in
          let rejectBatch := _rejectBatch (this w) in
          let '(b, w) := new_promise w in
          let w := set_this (with_batch b b b) w in
          (self, await (db (this w)) (KCommitDb self commitedActions resolveBatch rejectBatch) w)
      end
  end.

(** The loop of lines 123-137: one request per action, in queue order. *)
Definition request_of (a : Action) : Request :=
  match a with
  | AGet k res rej => RqGet k res rej
  | ASet k v => RqPut k v
  | ADelete k => RqDelete k
  end.

(** [_commit], lines 120-151, once [this.db] has settled. *)
Definition commit_resume (self commitedActions resolveBatch rejectBatch : nat)
    (o : Outcome) (w : World) : World :=
  match o with
  | Rejected e => settle self (Rejected e) w
  | Fulfilled _ =>
      match conn w with
      | Open =>
          let tid := length (txns w) in
          let reqs := map request_of (default [] (arrays w !! commitedActions)) in
          let '(p, w) := new_promise (emit (TTransaction tid) w) in
          let w := set_txns (txns w ++ [mkTxn reqs TxActive None
                                          (Some (mkHandlers resolveBatch rejectBatch p))]) w in
          resolve_with_promise self p w
      | _ => settle self (Rejected (VDOMException "InvalidStateError")) w
      end
  end.

(** [_startBatchTimer], lines 98-105. *)
Definition _startBatchTimer (w : World) : nat * World :=
  let '(self, w) := new_promise w in
  (self, await (db (this w)) (KStartBatchTimer self) w).

Definition startBatchTimer_resume (self : nat) (o : Outcome) (w : World) : World :=
  match o with
  | Rejected e => settle self (Rejected e) w
  | Fulfilled _ =>
      let '(_, w) := _commit w in
      let '(t, w) := setInterval (batchInterval (this w)) w in
      settle self (Fulfilled t) w
  end.

(** [close], lines 77-87. *)
Definition close (w : World) : nat * World :=
  let '(self, w) := new_promise w in
  let w := set_this (with_closed true) w in
  (self, await (_batchTimer (this w)) (KCloseTimer self) w).

Definition close_resume_timer (self : nat) (o : Outcome) (w : World) : World :=
  match o with
  | Rejected e => settle self (Rejected e) w
  | Fulfilled t =>
      let w := clearInterval t w in
      let '(c, w) := _commit w in
      await c (KCloseCommit self) w
  end.

Definition close_resume_commit (self : nat) (o : Outcome) (w : World) : World :=
  match o with
  | Rejected e => settle self (Rejected e) w
  | Fulfilled _ => await (db (this w)) (KCloseDb self) w
  end.

Definition close_resume_db (self : nat) (o : Outcome) (w : World) : World :=
  match o with
  | Rejected e => settle self (Rejected e) w
  | Fulfilled _ =>
      let w := emit TDbClose (set_conn ConnClosed w) in
      settle self (Fulfilled VUndefined) w
  end.

(** [destroy], lines 88-97. *)
Definition destroy (w : World) : nat * World :=
  let '(self, w) := new_promise w in
  let '(c, w) := close w in
  (self, await c (KDestroyClose self) w).

Definition destroy_resume_close (self : nat) (o : Outcome) (w : World) : World :=
  match o with
  | Rejected e => settle self (Rejected e) w
  | Fulfilled _ => await (db (this w)) (KDestroyDb self) w
  end.

Definition destroy_resume_db (self : nat) (o : Outcome) (w : World) : World :=
  match o with
  | Rejected e => settle self (Rejected e) w
  | Fulfilled d =>
      let name := match d with VDatabase n => n | _ => ""%string end in
      let w := emit (TDeleteDatabase name) w in
      let '(p, w) := new_promise w in
      let w := set_deletions (deletions w ++ [(p, true)]) w in
      resolve_with_promise self p w
  end.

Definition resume (k : Cont) (o : Outcome) (w : World) : World :=
  match k with
  | KStartBatchTimer self => startBatchTimer_resume self o w
  | KCloseTimer self => close_resume_timer self o w
  | KCloseCommit self => close_resume_commit self o w
  | KCloseDb self => close_resume_db self o w
  | KDestroyClose self => destroy_resume_close self o w
  | KDestroyDb self => destroy_resume_db self o w
  | KCommitDb self ca res rej => commit_resume self ca res rej o w
  end.

(** [constructor], lines 2-48.  [interval] is [None] when the option
    [batchInterval] is left out; [data] is what the environment holds under
    [name]. *)
Definition constructor (name : string) (interval : option Z)
    (data : option (gmap Key Value)) : World :=
  let w := mkWorld (mkIdbkv "idb-kv" (default 10%Z interval) 0 None false 0 0 0 0)
             [] [] [] [] name Connecting data [] [] [] in
  let '(d, w) := new_promise (emit (TOpen name) w) in
  let w := set_this (with_db d) w in
  let w := set_this (with_actions (Some (length (arrays w)))) (set_arrays (arrays w ++ [[]]) w) in
  let w := set_this (with_closed false) w in
  let '(b, w) := new_promise w in
  let w := set_this (with_batch b b b) w in
  let '(t, w) := _startBatchTimer w in
  set_this (with_batchTimer t) w.

(** ** The environment *)

(** [request.onerror] of the open request, lines 11-21. *)
Definition reject_action (e : Value) (w : World) (a : Action) : World :=
  match a with
  | AGet _ _ rej => settle rej (Rejected e) w
  | _ => w
  end.

Definition open_onerror (e : Value) (w : World) : World :=
  let w := set_this (with_closed true) w in
  match _actions (this w) with
  | None => w
  | Some r =>
      let w := foldl (reject_action e) w (default [] (arrays w !! r)) in
      let w := settle (_rejectBatch (this w)) (Rejected e) w in
      let w := set_this (with_actions None) w in
      settle (db (this w)) (Rejected e) w
  end.

(** [request.onsuccess] and [request.onupgradeneeded], lines 10 and 24. *)
Definition open_onsuccess (w : World) : World :=
  let w := set_database (Some (default ∅ (database w))) (set_conn Open w) in
  settle (db (this w)) (Fulfilled (VDatabase (dbName w))) w.

(** The handlers of a transaction, lines 140-150. *)
Definition txn_oncomplete (h : TxHandlers) (w : World) : World :=
  let w := settle (h_resolveBatch h) (Fulfilled VUndefined) w in
  settle (h_resolve h) (Fulfilled VUndefined) w.

Definition txn_onfail (h : TxHandlers) (txerror arg : Value) (w : World) : World :=
  let w := settle (h_rejectBatch h) (Rejected (js_or txerror arg)) w in
  settle (h_resolve h) (Fulfilled VUndefined) w.

Definition run_handlers (h : option TxHandlers) (f : TxHandlers -> World -> World)
    (w : World) : World :=
  match h with
  | Some h => f h w
  | None => w
  end.

(** What the application calls. *)
Inductive Call : Type :=
| CGet (key : Key)
| CSet (key : Key) (value : Value)
| CDelete (key : Key)
| CClose
| CDestroy
| CCommit.

Definition call (c : Call) (w : World) : nat * World :=
  match c with
  | CGet k => get k w
  | CSet k v => set k v w
  | CDelete k => delete k w
  | CClose => close w
  | CDestroy => destroy w
  | CCommit => _commit w
  end.

(** What IndexedDB and the timers deliver. *)
Inductive Event : Type :=
| OpenSuccess
| OpenError (error : Value)
| Tick (id : nat)
| RequestSuccess (tid : nat)
| RequestError (tid : nat) (error : Value)
| TxnComplete (tid : nat)
| TxnError (tid : nat) (txerror arg : Value)
| TxnAbort (tid : nat) (txerror arg : Value)
| DeleteSuccess (rid : nat)
| DeleteError (rid : nat) (error : Value).

(** Read-write transactions on one store run one at a time, in the order
    they were created. *)
Definition earlier_finished (tid : nat) (w : World) : bool :=
  forallb (fun t => bool_decide (tx_status t = TxFinished)) (take tid (txns w)).

#[global] Arguments earlier_finished : simpl never.

(** The handler of an event; [None] when the environment cannot deliver it
    in this state.  The environment is more liberal than IndexedDB in one
    respect: [TxnError] and [TxnAbort] may be delivered while requests of the
    transaction are unanswered, and nothing is delivered to those requests by
    itself.  IndexedDB aborts a transaction by firing an [error] event at
    each unanswered request (a [RequestError]; the first one that reaches the
    handler of the transaction is a [TxnError]) and the [abort] event after
    them.  A statement therefore names the sequence of events it is about,
    and what it concludes from a [TxnError] or a [TxnAbort] alone concerns
    the handlers of the transaction (lines 143-150) only. *)
Definition handle (ev : Event) (w : World) : option World :=
  match ev with
  | OpenSuccess =>
      match conn w with
      | Connecting => Some (open_onsuccess w)
      | _ => None
      end
  | OpenError e =>
      match conn w with
      | Connecting => Some (open_onerror e (set_conn Failed w))
      | _ => None
      end
  | Tick id =>
      match intervals w !! id with
      | Some (_, true) => Some (snd (_commit w))
      | _ => None
      end
  | RequestSuccess tid =>
      match txns w !! tid, database w with
      | Some (mkTxn (rq :: rest) TxActive bk h), Some d =>
          if earlier_finished tid w then
            let w := set_txns (<[tid := mkTxn rest TxActive (Some (default d bk)) h]> (txns w)) w in
            Some match rq with
                 | RqGet k onsuccess _ =>
                     settle onsuccess (Fulfilled (default VUndefined (d !! k))) w
                 | RqPut k v => set_database (Some (<[k := v]> d)) w
                 | RqDelete k => set_database (Some (base.delete k d)) w
                 end
          else None
      | _, _ => None
      end
  | RequestError tid e =>
      match txns w !! tid with
      | Some (mkTxn (rq :: rest) st bk h) =>
          if bool_decide (st = TxFinished) then None
          else
            let w := set_txns (<[tid := mkTxn rest st bk h]> (txns w)) w in
            Some match rq with
                 | RqGet _ _ onerror => settle onerror (Rejected e) w
                 | _ => w
                 end
      | _ => None
      end
  | TxnComplete tid =>
      match txns w !! tid with
      | Some (mkTxn [] TxActive bk h) =>
          let w := set_txns (<[tid := mkTxn [] TxFinished bk h]> (txns w)) w in
          Some (run_handlers h txn_oncomplete w)
      | _ => None
      end
  | TxnError tid txerror arg =>
      match txns w !! tid with
      | Some (mkTxn rqs TxActive bk h) =>
          let w := set_txns (<[tid := mkTxn rqs TxErred bk h]> (txns w)) w in
          Some (run_handlers h (fun h => txn_onfail h txerror arg) w)
      | _ => None
      end
  | TxnAbort tid txerror arg =>
      match txns w !! tid with
      | Some (mkTxn rqs st bk h) =>
          if bool_decide (st = TxFinished) then None
          else
            let w := set_txns (<[tid := mkTxn rqs TxFinished bk h]> (txns w)) w in
            let w := match bk with
                     | Some d => set_database (Some d) w
                     | None => w
                     end in
            Some (run_handlers h (fun h => txn_onfail h txerror arg) w)
      | None => None
      end
  | DeleteSuccess rid =>
      match deletions w !! rid, conn w with
      | Some _, Open => None
      | Some (p, true), _ =>
          let w := set_deletions (<[rid := (p, false)]> (deletions w)) w in
          Some (settle p (Fulfilled VUndefined) (set_database None w))
      | _, _ => None
      end
  | DeleteError rid e =>
      match deletions w !! rid with
      | Some (p, true) =>
          let w := set_deletions (<[rid := (p, false)]> (deletions w)) w in
          Some (settle p (Rejected e) w)
      | _ => None
      end
  end.

(** ** The event loop *)

Definition run_job (j : Job) (w : World) : World :=
  match j with
  | JThen p q => then_ q (RAdopt p) w
  | JReact (RAdopt p) o => settle p o w
  | JReact (RResume k) o => resume k o w
  end.

(** Run jobs until the queue is empty, at most [fuel] of them. *)
Fixpoint drain (fuel : nat) (w : World) : World :=
  match fuel with
  | 0 => w
  | S n =>
      match jobs w with
      | [] => w
      | j :: js => drain n (run_job j (set_jobs js w))
      end
  end.

Definition quiesce (fuel : nat) (w : World) : option World :=
  let w' := drain fuel w in
  match jobs w' with
  | [] => Some w'
  | _ => None
  end.

(** One turn: a call of the application, or an event, then the jobs. *)
Definition invoke (fuel : nat) (c : Call) (w : World) : option (nat * World) :=
  let '(p, w) := call c w in
  w' ← quiesce fuel w; Some (p, w').

Definition deliver (fuel : nat) (ev : Event) (w : World) : option World :=
  handle ev w ≫= quiesce fuel.

Fixpoint invoke_all (fuel : nat) (cs : list Call) (w : World) : option (list nat * World) :=
  match cs with
  | [] => Some ([], w)
  | c :: cs =>
      '(p, w) ← invoke fuel c w;
      '(ps, w) ← invoke_all fuel cs w;
      Some (p :: ps, w)
  end.

Fixpoint deliver_all (fuel : nat) (evs : list Event) (w : World) : option World :=
  match evs with
  | [] => Some w
  | ev :: evs => deliver fuel ev w ≫= deliver_all fuel evs
  end.

(** ** Reading the heaps *)

Definition state_of (w : World) (p : nat) : option (option Outcome) :=
  pstate <$> promises w !! p.

Definition pending (w : World) (p : nat) : Prop := state_of w p = Some None.
Definition fulfilled (w : World) (p : nat) (v : Value) : Prop :=
  state_of w p = Some (Some (Fulfilled v)).
Definition rejected (w : World) (p : nat) (e : Value) : Prop :=
  state_of w p = Some (Some (Rejected e)).

(** The pending queue; [None] once it is null. *)
Definition queue (w : World) : option (list Action) :=
  _actions (this w) ≫= fun r => arrays w !! r.

(** ** Batches of calls *)

(** The calls that add an action to the queue. *)
Inductive Op : Type :=
| OGet (key : Key)
| OSet (key : Key) (value : Value)
| ODelete (key : Key).

Definition op_call (o : Op) : Call :=
  match o with
  | OGet k => CGet k
  | OSet k v => CSet k v
  | ODelete k => CDelete k
  end.

Definition is_get (o : Op) : bool :=
  match o with OGet _ => true | _ => false end.

(** The number of promises a call allocates: [get] makes its own and the one
    whose resolving functions go into the queue. *)
Definition width (o : Op) : nat :=
  match o with OGet _ => 2 | _ => 1 end.

Fixpoint span (os : list Op) : nat :=
  match os with
  | [] => 0
  | o :: os => width o + span os
  end.

(** The promise each call returns, when the first one is allocated at [n]. *)
Fixpoint ids (os : list Op) (n : nat) : list nat :=
  match os with
  | [] => []
  | o :: os => n :: ids os (n + width o)
  end.

Definition action_of (o : Op) (n : nat) : Action :=
  match o with
  | OGet k => AGet k (S n) (S n)
  | OSet k v => ASet k v
  | ODelete k => ADelete k
  end.

(** The actions the calls push. *)
Fixpoint acts (os : list Op) (n : nat) : list Action :=
  match os with
  | [] => []
  | o :: os => action_of o n :: acts os (n + width o)
  end.

(** The reactions the writes leave on the batch outcome promise. *)
Definition adopter (o : Op) (n : nat) : list Reaction :=
  match o with
  | OGet _ => []
  | _ => [RAdopt n]
  end.

Fixpoint adopters (os : list Op) (n : nat) : list Reaction :=
  match os with
  | [] => []
  | o :: os => adopter o n ++ adopters os (n + width o)
  end.

(** The store after one write, and after a run of calls. *)
Definition apply_op (o : Op) (d : gmap Key Value) : gmap Key Value :=
  match o with
  | OGet _ => d
  | OSet k v => <[k := v]> d
  | ODelete k => base.delete k d
  end.

Definition apply_ops (os : list Op) (d : gmap Key Value) : gmap Key Value :=
  foldl (λ d o, apply_op o d) d os.

Definition read (d : gmap Key Value) (k : Key) : Value := default VUndefined (d !! k).

(** How far the reads of a batch have come: not served, served from the
    store [d], or refused with [e] (first the promise in the queue, then the
    promise of the call). *)
Inductive Reads : Type :=
| Unserved
| Served (d : gmap Key Value)
| HalfRefused (e : Value)
| Refused (e : Value).

Definition step_reads (o : Op) (g : Reads) : Reads :=
  match g with
  | Served d => Served (apply_op o d)
  | _ => g
  end.

Definition steps_reads (os : list Op) (g : Reads) : Reads :=
  match g with
  | Served d => Served (apply_ops os d)
  | _ => g
  end.

(** The promises of a run of calls, as a piece of the heap.  [g] says how far
    the reads have come, [b] is the outcome of the batch ([None]: not settled
    yet). *)
Definition cells (g : Reads) (b : option Outcome) (o : Op) (n : nat) : list Promise :=
  match o with
  | OGet k =>
      match g with
      | Unserved => [mkPromise None []; mkPromise None [RAdopt n]]
      | Served d => [mkPromise (Some (Fulfilled (read d k))) [];
                     mkPromise (Some (Fulfilled (read d k))) []]
      | HalfRefused e => [mkPromise None []; mkPromise (Some (Rejected e)) []]
      | Refused e => [mkPromise (Some (Rejected e)) []; mkPromise (Some (Rejected e)) []]
      end
  | _ => [mkPromise b []]
  end.

Fixpoint segment (g : Reads) (b : option Outcome) (os : list Op) (n : nat) : list Promise :=
  match os with
  | [] => []
  | o :: os => cells g b o n ++ segment (step_reads o g) b os (n + width o)
  end.

(** The world once the calls [os] have been made and their jobs have run. *)
Definition enqueued (os : list Op) (w : World) : World :=
  let n := length (promises w) in
  set_promises
    (alter (add_reactions (adopters os n)) (_batchPromise (this w)) (promises w)
     ++ segment Unserved None os n)
    (set_arrays (alter (λ q, q ++ acts os n) (default 0 (_actions (this w))) (arrays w)) w).

(** The world once [_commit] has swapped a non-empty queue out and, the
    database being there, has issued its requests. *)
Definition committed (w : World) : World :=
  let n := length (promises w) in
  mkWorld (with_batch (S n) (S n) (S n) (with_actions (Some (length (arrays w))) (this w)))
    (promises w ++ [mkPromise None []; mkPromise None []; mkPromise None [RAdopt n]])
    (arrays w ++ [[]]) [] (intervals w) (dbName w) (conn w) (database w)
    (txns w ++ [mkTxn (request_of <$> default [] (queue w)) TxActive None
                  (Some (mkHandlers (_resolveBatch (this w)) (_rejectBatch (this w)) (S (S n))))])
    (deletions w) (trace w ++ [TCommit; TTransaction (length (txns w))]).

(** ** States *)

(** The instance takes calls: it is open, nothing is left to run, and the
    batch outcome promise is pending. *)
Record accepting (w : World) : Prop := {
  acc_jobs : jobs w = [];
  acc_closed : closed (this w) = false;
  acc_queue : is_Some (queue w);
  acc_batch : pending w (_batchPromise (this w))
}.

(** The database is there and the instance is between two batches. *)
Record ready (w : World) : Prop := {
  rd_jobs : jobs w = [];
  rd_closed : closed (this w) = false;
  rd_queue : queue w = Some [];
  rd_batch : promises w !! _batchPromise (this w) = Some (mkPromise None []);
  rd_resolve : _resolveBatch (this w) = _batchPromise (this w);
  rd_reject : _rejectBatch (this w) = _batchPromise (this w);
  rd_conn : conn w = Open;
  rd_db : ∃ d, state_of w (db (this w)) = Some (Some (Fulfilled d));
  rd_data : is_Some (database w);
  rd_txns : Forall (λ t, tx_status t = TxFinished) (txns w)
}.

(** What a refused call looks like: the promise the call returns is already
    rejected with [ClosedError] when the call returns, and the call has left
    the instance, the arrays, the job queue and the environment as they were. *)
Definition refused (c : Call) (w : World) : Prop :=
  ∃ w', call c w = (length (promises w), w') ∧
        rejected w' (length (promises w)) ClosedError ∧
        this w' = this w ∧ arrays w' = arrays w ∧ queue w' = queue w ∧
        jobs w' = jobs w ∧ txns w' = txns w ∧ trace w' = trace w.

(** The backup a transaction holds once the requests of [os] are served. *)
Definition backup_after (os : list Op) (d : gmap Key Value) (bk : option (gmap Key Value))
    : option (gmap Key Value) :=
  match os with
  | [] => bk
  | _ => Some (default d bk)
  end.

(** The world once the batch [os], collected from [w], has been committed
    and its transaction [tx] has settled with outcome [o] for the batch: [g]
    is the store the reads were served from ([None]: they were not served) and
    [dat] is what the database then holds. *)
Definition settled_batch (os : list Op) (g : Reads) (o : Outcome)
    (dat : option (gmap Key Value)) (tx : Txn) (w : World) : World :=
  let n := length (promises w) in
  let c := n + span os in
  mkWorld (with_batch (S c) (S c) (S c) (with_actions (Some (length (arrays w))) (this w)))
    (<[_batchPromise (this w) := mkPromise (Some o) []]> (promises w)
     ++ segment g (Some o) os n
     ++ [mkPromise (Some (Fulfilled VUndefined)) []; mkPromise None [];
         mkPromise (Some (Fulfilled VUndefined)) []])
    (alter (λ q, q ++ acts os n) (default 0 (_actions (this w))) (arrays w) ++ [[]])
    [] (intervals w) (dbName w) (conn w) dat (txns w ++ [tx]) (deletions w)
    (trace w ++ [TCommit; TTransaction (length (txns w))]).

(** The handlers [_commit] installs for the batch [os] collected from [w]. *)
Definition batch_handlers (os : list Op) (w : World) : option TxHandlers :=
  Some (mkHandlers (_batchPromise (this w)) (_batchPromise (this w))
          (S (S (length (promises w) + span os)))).

(** The instance right after the database has opened: the constructor, then
    the success of the open request. *)
Definition opened (name : string) (interval : option Z) (data : option (gmap Key Value))
    : World :=
  drain 4 (open_onsuccess (constructor name interval data)).

(** A batch in words: the writes among the calls [os], with the promise each
    call returned. *)
Definition write_of (os : list Op) (ps : list nat) (p : nat) : Prop :=
  ∃ i o, os !! i = Some o ∧ is_get o = false ∧ ps !! i = Some p.

(** Whether a call writes the key [k]. *)
Definition writes_key (k : Key) (o : Op) : bool :=
  match o with
  | OGet _ => false
  | OSet k' _ | ODelete k' => bool_decide (k' = k)
  end.

(** A run of calls with no job in between, as when they are made in one
    piece of synchronous code. *)
Fixpoint calls (cs : list Call) (w : World) : list nat * World :=
  match cs with
  | [] => ([], w)
  | c :: cs =>
      let '(p, w) := call c w in
      let '(ps, w) := calls cs w in
      (p :: ps, w)
  end.

(** The jobs such calls leave: each call's promise is to take up the outcome of
    another one, its own for a [get] and the batch outcome promise [b] for a
    write. *)
Definition then_job (b : nat) (o : Op) (n : nat) : Job :=
  match o with
  | OGet _ => JThen n (S n)
  | _ => JThen n b
  end.

Fixpoint then_jobs (b : nat) (os : list Op) (n : nat) : list Job :=
  match os with
  | [] => []
  | o :: os => then_job b o n :: then_jobs b os (n + width o)
  end.

(** The world after the calls [os], before their jobs run. *)
Definition called (os : list Op) (w : World) : World :=
  let n := length (promises w) in
  set_jobs (jobs w ++ then_jobs (_batchPromise (this w)) os n)
    (set_promises (promises w ++ replicate (span os) (mkPromise None []))
       (set_arrays (alter (λ q, q ++ acts os n) (default 0 (_actions (this w))) (arrays w)) w)).

(** The jobs left when the promises the reads put into the queue are settled
    with [o]: the promise of each [get] call takes the outcome. *)
Definition get_job (o : Outcome) (op : Op) (n : nat) : list Job :=
  match op with
  | OGet _ => [JReact (RAdopt n) o]
  | _ => []
  end.

Fixpoint get_jobs (o : Outcome) (os : list Op) (n : nat) : list Job :=
  match os with
  | [] => []
  | op :: os => get_job o op n ++ get_jobs o os (n + width op)
  end.

(** The instance whose open request failed with [e] after the calls [os]:
    every promise made so far is rejected with [e], the queue is null and the
    instance is closed. *)
Definition failed (e : Value) (os : list Op) (name : string) (interval : option Z)
    (data : option (gmap Key Value)) : World :=
  mkWorld (mkIdbkv "idb-kv" (default 10%Z interval) 0 None true 1 1 1 2)
    ([mkPromise (Some (Rejected e)) []; mkPromise (Some (Rejected e)) [];
      mkPromise (Some (Rejected e)) []]
     ++ segment (Refused e) (Some (Rejected e)) os 3)
    [acts os 3] [] [] name Failed data [] [] [TOpen name].

(** The instance is ready and its scheduler runs: the promise for the timer
    holds the timer [t], which ticks every [delay]. *)
Record running (w : World) (t : nat) (delay : Z) : Prop := {
  run_ready : ready w;
  run_timer : state_of w (_batchTimer (this w)) = Some (Some (Fulfilled (VTimer t)));
  run_interval : intervals w !! t = Some (delay, true)
}.

(** The handlers of the final commit of a [close] made after the calls [os];
    [mid] are the promises made between those calls and the [close]. *)
Definition close_handlers (os : list Op) (mid : list Promise) (w : World) : option TxHandlers :=
  Some (mkHandlers (_batchPromise (this w)) (_batchPromise (this w))
          (length (promises w) + span os + length mid + 3)).

(** The world while the final commit of a [close] is under way: the batch
    [os] collected from [w] has been swapped out, the timer [t] is cleared and
    the [close] call (its promise has the reactions [rpc]) waits for the
    commit.  [g] and [b] say how far the reads and the batch outcome have come,
    [dat] is what the database holds and [tx] is the transaction. *)
Definition closing (os : list Op) (g : Reads) (mid : list Promise) (rpc : list Reaction)
    (t : nat) (delay : Z) (dat : option (gmap Key Value)) (tx : Txn) (w : World) : World :=
  let n := length (promises w) in
  let pc := n + span os + length mid in
  mkWorld (with_batch (pc + 2) (pc + 2) (pc + 2)
             (with_actions (Some (length (arrays w))) (with_closed true (this w))))
    (alter (add_reactions (adopters os n)) (_batchPromise (this w)) (promises w)
     ++ segment g None os n ++ mid
     ++ [mkPromise None rpc; mkPromise None [RResume (KCloseCommit pc)];
         mkPromise None []; mkPromise None [RAdopt (pc + 1)]])
    (alter (λ q, q ++ acts os n) (default 0 (_actions (this w))) (arrays w) ++ [[]])
    [] (<[t := (delay, false)]> (intervals w)) (dbName w) (conn w) dat (txns w ++ [tx])
    (deletions w) (trace w ++ [TClearInterval (VTimer t); TCommit; TTransaction (length (txns w))]).

(** The world once that transaction has settled with [o] for the batch and
    the connection is closed; the reactions of the [close] call are left as
    the jobs [js]. *)
Definition closed_down (os : list Op) (g : Reads) (o : Outcome) (mid : list Promise)
    (js : list Job) (t : nat) (delay : Z) (dat : option (gmap Key Value)) (tx : Txn)
    (w : World) : World :=
  let n := length (promises w) in
  let pc := n + span os + length mid in
  mkWorld (with_batch (pc + 2) (pc + 2) (pc + 2)
             (with_actions (Some (length (arrays w))) (with_closed true (this w))))
    (<[_batchPromise (this w) := mkPromise (Some o) []]> (promises w)
     ++ segment g (Some o) os n ++ mid
     ++ [mkPromise (Some (Fulfilled VUndefined)) []; mkPromise (Some (Fulfilled VUndefined)) [];
         mkPromise None []; mkPromise (Some (Fulfilled VUndefined)) []])
    (alter (λ q, q ++ acts os n) (default 0 (_actions (this w))) (arrays w) ++ [[]])
    js (<[t := (delay, false)]> (intervals w)) (dbName w) ConnClosed dat (txns w ++ [tx])
    (deletions w)
    (trace w ++ [TClearInterval (VTimer t); TCommit; TTransaction (length (txns w)); TDbClose]).

(** The world once [close] has run on an empty queue: the timer is cleared,
    the final commit was a no-op and the connection is closed.  [mid] are the
    promises made before the one of the [close] call, and [js] the reactions
    of the [close] call, left as jobs. *)
Definition shut (mid : list Promise) (js : list Job) (t : nat) (delay : Z) (w : World) : World :=
  mkWorld (with_closed true (this w))
    (promises w ++ mid ++ [mkPromise (Some (Fulfilled VUndefined)) [];
                           mkPromise (Some (Fulfilled VUndefined)) []])
    (arrays w) js (<[t := (delay, false)]> (intervals w)) (dbName w) ConnClosed (database w)
    (txns w) (deletions w) (trace w ++ [TClearInterval (VTimer t); TCommit; TDbClose]).

(** The world once [destroy], its [close] done in [W], has asked for the
    database [name] to be deleted: the request is pending, and [pd], the
    promise of the [destroy] call, will take up its outcome. *)
Definition erasing (name : string) (pd : nat) (W : World) : World :=
  set_jobs []
    (set_deletions (deletions W ++ [(length (promises W), true)])
       (set_promises (promises W ++ [mkPromise None [RAdopt pd]])
          (emit (TDeleteDatabase name) W))).

(** The world once the database has opened on an instance that had collected
    the calls [os] while connecting: the start-up [_commit] has run (a no-op
    on an empty queue, a transaction otherwise) and the timer is set. *)
Definition started (os : list Op) (name : string) (interval : option Z)
    (data : option (gmap Key Value)) : World :=
  let delay := default 10%Z interval in
  let n := 3 + span os in
  match os with
  | [] =>
      mkWorld (mkIdbkv "idb-kv" delay 0 (Some 0) false 1 1 1 2)
        [mkPromise (Some (Fulfilled (VDatabase name))) []; mkPromise None [];
         mkPromise (Some (Fulfilled (VTimer 0))) [];
         mkPromise (Some (Fulfilled VUndefined)) []]
        [[]] [] [(delay, true)] name Open (Some (default ∅ data)) [] []
        [TOpen name; TCommit; TSetInterval 0 delay]
  | _ :: _ =>
      mkWorld (mkIdbkv "idb-kv" delay 0 (Some 1) false (n + 1) (n + 1) (n + 1) 2)
        ([mkPromise (Some (Fulfilled (VDatabase name))) []; mkPromise None (adopters os 3);
          mkPromise (Some (Fulfilled (VTimer 0))) []]
         ++ segment Unserved None os 3
         ++ [mkPromise None []; mkPromise None []; mkPromise None [RAdopt n]])
        [acts os 3; []] [] [(delay, true)] name Open (Some (default ∅ data))
        [mkTxn (request_of <$> acts os 3) TxActive None (Some (mkHandlers 1 1 (n + 2)))] []
        [TOpen name; TCommit; TSetInterval 0 delay; TTransaction 0]
  end.

(** What an action in the queue asks for. *)
Definition asks (a : Action) : Op :=
  match a with
  | AGet k _ _ => OGet k
  | ASet k v => OSet k v
  | ADelete k => ODelete k
  end.

(** What a request asks of the object store. *)
Definition wanted (r : Request) : Op :=
  match r with
  | RqGet k _ _ => OGet k
  | RqPut k v => OSet k v
  | RqDelete k => ODelete k
  end.

(** The world after [close] has been called on an instance that is still
    connecting and has collected the calls [os]: [close] waits for the timer. *)
Definition waiting_close (os : list Op) (name : string) (interval : option Z)
    (data : option (gmap Key Value)) : World :=
  mkWorld (mkIdbkv "idb-kv" (default 10%Z interval) 0 (Some 0) true 1 1 1 2)
    ([mkPromise None [RResume (KStartBatchTimer 2)]; mkPromise None (adopters os 3);
      mkPromise None [RResume (KCloseTimer (3 + span os))]]
     ++ segment Unserved None os 3 ++ [mkPromise None []])
    [acts os 3] [] [] name Connecting data [] [] [TOpen name].

(** The world once the database has opened on it: the start-up [_commit]
    has taken the calls into a transaction (if there were any), the timer was
    set and cleared again, and the connection is closed. *)
Definition closed_at_open (os : list Op) (name : string) (interval : option Z)
    (data : option (gmap Key Value)) : World :=
  let delay := default 10%Z interval in
  let n := 3 + span os in
  match os with
  | [] =>
      mkWorld (mkIdbkv "idb-kv" delay 0 (Some 0) true 1 1 1 2)
        [mkPromise (Some (Fulfilled (VDatabase name))) []; mkPromise None [];
         mkPromise (Some (Fulfilled (VTimer 0))) [];
         mkPromise (Some (Fulfilled VUndefined)) [];
         mkPromise (Some (Fulfilled VUndefined)) [];
         mkPromise (Some (Fulfilled VUndefined)) []]
        [[]] [] [(delay, false)] name ConnClosed (Some (default ∅ data)) [] []
        [TOpen name; TCommit; TSetInterval 0 delay; TClearInterval (VTimer 0); TCommit;
         TDbClose]
  | _ :: _ =>
      mkWorld (mkIdbkv "idb-kv" delay 0 (Some 1) true (n + 2) (n + 2) (n + 2) 2)
        ([mkPromise (Some (Fulfilled (VDatabase name))) []; mkPromise None (adopters os 3);
          mkPromise (Some (Fulfilled (VTimer 0))) []]
         ++ segment Unserved None os 3
         ++ [mkPromise (Some (Fulfilled VUndefined)) []; mkPromise None [];
             mkPromise None []; mkPromise None [RAdopt (n + 1)];
             mkPromise (Some (Fulfilled VUndefined)) []])
        [acts os 3; []] [] [(delay, false)] name ConnClosed (Some (default ∅ data))
        [mkTxn (request_of <$> acts os 3) TxActive None (Some (mkHandlers 1 1 (n + 3)))] []
        [TOpen name; TCommit; TSetInterval 0 delay; TTransaction 0;
         TClearInterval (VTimer 0); TCommit; TDbClose]
  end.

(** * Properties *)

(** ** Basic facts about the heaps *)

Ltac destruct_world w :=
  destruct w as [[w_sn w_bi w_db w_acts w_cl w_bp w_res w_rej w_bt]
                 w_ps w_arrs w_js w_ivs w_nm w_cn w_dat w_txs w_dels w_tr];
  simpl in *.

Lemma lookup_fresh {A} (l : list A) (x : A) : (l ++ [x]) !! length l = Some x.
Proof. by apply list_lookup_middle. Qed.

Lemma insert_fresh {A} (l : list A) (x y : A) : <[length l := y]> (l ++ [x]) = l ++ [y].
Proof.
  rewrite insert_app_r_alt by lia. by replace (length l - length l) with 0 by lia.
Qed.

Lemma state_of_pending w p rs :
  promises w !! p = Some (mkPromise None rs) → pending w p.
Proof. unfold pending, state_of. by intros ->. Qed.

(** A promise settled as soon as it is made. *)
Lemma settle_new w o :
  settle (length (promises w)) o (new_promise w).2
  = set_promises (promises w ++ [mkPromise (Some o) []]) w.
Proof.
  destruct_world w. unfold settle; simpl.
  rewrite lookup_fresh, insert_fresh, app_nil_r. done.
Qed.

Lemma refused_intro c w :
  call c w = (length (promises w),
              set_promises (promises w ++ [mkPromise (Some (Rejected ClosedError)) []]) w) →
  refused c w.
Proof.
  intros Hc. eexists; split; [exact Hc|].
  destruct_world w. unfold rejected, state_of, queue; simpl. rewrite lookup_fresh. done.
Qed.

Lemma refused_when_closed o w : closed (this w) = true → refused (op_call o) w.
Proof.
  intros Hc. apply refused_intro; rewrite <- settle_new.
  destruct o; destruct_world w; subst; done.
Qed.

(** C3: on a closed instance [get], [set] and [delete] each fail with
    ClosedError and append nothing to the queue; the failure is decided inside
    the call, before any job runs (for [set] in particular). *)
Theorem closed_refuses_enqueue w k v :
  closed (this w) = true →
  refused (CGet k) w ∧ refused (CSet k v) w ∧ refused (CDelete k) w.
Proof.
  intros Hc. split; [|split].
  - by apply (refused_when_closed (OGet k)).
  - by apply (refused_when_closed (OSet k v)).
  - by apply (refused_when_closed (ODelete k)).
Qed.

Lemma closed_refuses_enqueue_witness :
  refused (CGet "a") (close (opened "kv" None None)).2 ∧
  refused (CSet "a" (VNum 1)) (close (opened "kv" None None)).2 ∧
  refused (CDelete "a") (close (opened "kv" None None)).2.
Proof.
  apply (closed_refuses_enqueue (close (opened "kv" None None)).2 "a" (VNum 1)).
  reflexivity.
Defined.

(** C7: with an empty queue [_commit] returns at once: its promise is already
    fulfilled, no transaction is opened, and the queue, the batch outcome
    promise and the closed flag are as before, so the same holds again for the
    next call. *)
Theorem commit_empty_is_noop w :
  queue w = Some [] →
  ∃ w', _commit w = (length (promises w), w') ∧
        fulfilled w' (length (promises w)) VUndefined ∧
        promises w' = promises w ++ [mkPromise (Some (Fulfilled VUndefined)) []] ∧
        this w' = this w ∧ arrays w' = arrays w ∧ queue w' = Some [] ∧
        txns w' = txns w ∧ jobs w' = jobs w ∧ conn w' = conn w ∧
        database w' = database w ∧ trace w' = trace w ++ [TCommit].
Proof.
  unfold queue. intros Hq.
  destruct (_actions (this w)) as [r|] eqn:Ha; [simpl in Hq|done].
  exists (emit TCommit (set_promises (promises w ++ [mkPromise (Some (Fulfilled VUndefined)) []]) w)).
  destruct_world w. subst. split.
  - unfold _commit; simpl. rewrite Hq.
    f_equal. unfold settle; simpl. by rewrite lookup_fresh, insert_fresh, app_nil_r.
  - unfold fulfilled, state_of, queue; simpl. rewrite lookup_fresh. done.
Qed.

Lemma commit_empty_is_noop_witness :
  ∃ w', _commit (opened "kv" None None) = (length (promises (opened "kv" None None)), w') ∧
        fulfilled w' (length (promises (opened "kv" None None))) VUndefined ∧
        txns w' = txns (opened "kv" None None) ∧ queue w' = Some [].
Proof.
  destruct (commit_empty_is_noop (opened "kv" None None))
    as (w' & H1 & H2 & _ & _ & _ & H3 & H4 & _); [reflexivity|].
  exists w'. exact (conj H1 (conj H2 (conj H4 H3))).
Defined.

(** ** Collecting a batch *)

Lemma pending_lookup w p : pending w p → ∃ rs, promises w !! p = Some (mkPromise None rs).
Proof.
  unfold pending, state_of. destruct (promises w !! p) as [[[o|] rs]|]; simpl; try done.
  eauto.
Qed.

Lemma alter_fresh {A} (f : A → A) (l : list A) (x : A) :
  alter f (length l) (l ++ [x]) = l ++ [f x].
Proof.
  rewrite alter_app_r_alt by lia. by replace (length l - length l) with 0 by lia.
Qed.

Lemma add_reactions_nil p : add_reactions [] p = p.
Proof. destruct p; unfold add_reactions; simpl. by rewrite app_nil_r. Qed.

Lemma add_reactions_app rs1 rs2 p :
  add_reactions rs2 (add_reactions rs1 p) = add_reactions (rs1 ++ rs2) p.
Proof. unfold add_reactions; simpl. by rewrite app_assoc. Qed.

Lemma alter_add_nil (ps : list Promise) i : alter (add_reactions []) i ps = ps.
Proof. apply list_alter_id, add_reactions_nil. Qed.

Lemma invoke_enqueue o w fuel :
  accepting w → 0 < fuel →
  invoke fuel (op_call o) w = Some (length (promises w), enqueued [o] w).
Proof.
  intros [Hj Hc [q Hq] Hb] Hf. destruct fuel as [|fuel]; [lia|].
  apply pending_lookup in Hb as [rs Hb].
  unfold queue in Hq. destruct (_actions (this w)) as [r|] eqn:Ha; [simpl in Hq|done].
  pose proof (lookup_lt_Some _ _ _ Hb) as Hlt.
  unfold invoke, enqueued, quiesce.
  destruct_world w. subst.
  destruct o as [k|k v|k]; simpl.
  - unfold get, new_promise, push; simpl. rewrite Hq.
    unfold resolve_with_promise; simpl.
    rewrite lookup_app_l by (rewrite length_app; simpl; lia). rewrite lookup_fresh.
    simpl. unfold then_; simpl. rewrite lookup_fresh. simpl.
    destruct fuel; simpl; unfold set_promises, set_arrays, set_jobs; simpl; do 3 f_equal.
    all: try by rewrite length_app, Nat.add_1_r.
    all: rewrite alter_fresh, alter_add_nil, <- app_assoc; simpl.
    all: done.
  - unfold set, new_promise, push; simpl. rewrite Hq.
    unfold resolve_with_promise; simpl. rewrite lookup_fresh.
    simpl. unfold then_; simpl. rewrite lookup_app_l, Hb by done.
    destruct fuel; simpl; unfold set_promises, set_arrays, set_jobs; simpl; do 3 f_equal.
    all: by rewrite alter_app_l.
  - unfold delete, new_promise, push; simpl. rewrite Hq.
    unfold resolve_with_promise; simpl. rewrite lookup_fresh.
    simpl. unfold then_; simpl. rewrite lookup_app_l, Hb by done.
    destruct fuel; simpl; unfold set_promises, set_arrays, set_jobs; simpl; do 3 f_equal.
    all: by rewrite alter_app_l.
Qed.

Lemma span_app os1 os2 : span (os1 ++ os2) = span os1 + span os2.
Proof. induction os1 as [|o os1 IH]; simpl; [done|]. rewrite IH. lia. Qed.

Lemma apply_ops_app os1 os2 d : apply_ops (os1 ++ os2) d = apply_ops os2 (apply_ops os1 d).
Proof. apply foldl_app. Qed.

Lemma segment_app g b os1 os2 n :
  segment g b (os1 ++ os2) n
  = segment g b os1 n ++ segment (steps_reads os1 g) b os2 (n + span os1).
Proof.
  revert g n; induction os1 as [|o os1 IH]; intros g n; simpl.
  - rewrite Nat.add_0_r. by destruct g.
  - rewrite IH, <- app_assoc. do 3 f_equal; [by destruct g|lia].
Qed.

Lemma acts_app os1 os2 n : acts (os1 ++ os2) n = acts os1 n ++ acts os2 (n + span os1).
Proof.
  revert n; induction os1 as [|o os1 IH]; intros n; simpl.
  - by rewrite Nat.add_0_r.
  - rewrite IH. do 3 f_equal. lia.
Qed.

Lemma adopters_app os1 os2 n :
  adopters (os1 ++ os2) n = adopters os1 n ++ adopters os2 (n + span os1).
Proof.
  revert n; induction os1 as [|o os1 IH]; intros n; simpl.
  - by rewrite Nat.add_0_r.
  - rewrite IH, <- app_assoc. do 3 f_equal. lia.
Qed.

Lemma ids_app os1 os2 n : ids (os1 ++ os2) n = ids os1 n ++ ids os2 (n + span os1).
Proof.
  revert n; induction os1 as [|o os1 IH]; intros n; simpl.
  - by rewrite Nat.add_0_r.
  - rewrite IH. do 3 f_equal. lia.
Qed.

Lemma length_segment g b os n : length (segment g b os n) = span os.
Proof.
  revert g n; induction os as [|o os IH]; intros g n; simpl; [done|].
  rewrite length_app, IH. by destruct o, g.
Qed.

Lemma length_acts os n : length (acts os n) = length os.
Proof. revert n; induction os as [|o os IH]; intros n; simpl; [done|]. by rewrite IH. Qed.

Lemma length_ids os n : length (ids os n) = length os.
Proof. revert n; induction os as [|o os IH]; intros n; simpl; [done|]. by rewrite IH. Qed.

Lemma enqueued_nil w : enqueued [] w = w.
Proof.
  destruct_world w. unfold enqueued; simpl. rewrite alter_add_nil, app_nil_r.
  by rewrite list_alter_id by (intros; apply app_nil_r).
Qed.

Lemma enqueued_app os1 os2 w :
  _batchPromise (this w) < length (promises w) →
  enqueued (os1 ++ os2) w = enqueued os2 (enqueued os1 w).
Proof.
  intros Hlt. destruct_world w. unfold enqueued; simpl. f_equal.
  - rewrite length_app, length_alter, length_segment.
    rewrite alter_app_l by (by rewrite length_alter).
    rewrite list_alter_alter_eq, segment_app, adopters_app, app_assoc. do 2 f_equal.
    apply list_alter_ext; [|done]. intros p _; simpl. by rewrite add_reactions_app.
  - rewrite length_app, length_alter, length_segment.
    rewrite list_alter_alter_eq, acts_app.
    apply list_alter_ext; [|done]. intros q _; simpl. by rewrite app_assoc.
Qed.

Lemma accepting_enqueued os w : accepting w → accepting (enqueued os w).
Proof.
  intros [Hj Hc [q Hq] Hb]. apply pending_lookup in Hb as [rs Hb].
  pose proof (lookup_lt_Some _ _ _ Hb) as Hlt.
  unfold queue in Hq. destruct (_actions (this w)) as [r|] eqn:Ha; [simpl in Hq|done].
  destruct_world w. subst. split; simpl; try done.
  - unfold queue; simpl. rewrite list_lookup_alter_eq, Hq. by eexists.
  - unfold pending, state_of; simpl.
    rewrite lookup_app_l by (by rewrite length_alter).
    by rewrite list_lookup_alter_eq, Hb.
Qed.

Lemma batch_allocated w : accepting w → _batchPromise (this w) < length (promises w).
Proof.
  intros [_ _ _ Hb]. apply pending_lookup in Hb as [rs Hb]. by eapply lookup_lt_Some.
Qed.

(** A run of enqueueing calls, each in its own turn. *)
Lemma invoke_all_enqueue os w fuel :
  accepting w → 0 < fuel →
  invoke_all fuel (op_call <$> os) w = Some (ids os (length (promises w)), enqueued os w).
Proof.
  intros Hw Hf. revert w Hw. induction os as [|o os IH]; intros w Hw; simpl.
  - by rewrite enqueued_nil.
  - rewrite invoke_enqueue by done. simpl.
    rewrite IH by (by apply accepting_enqueued). simpl.
    change (o :: os) with ([o] ++ os). rewrite (enqueued_app [o] os) by (by apply batch_allocated).
    do 3 f_equal. destruct_world w. 
    rewrite length_app, length_alter. f_equal. destruct o; simpl; lia.
Qed.

(** ** Committing a batch *)

Lemma settled_lookup w p o :
  state_of w p = Some (Some o) → ∃ rs, promises w !! p = Some (mkPromise (Some o) rs).
Proof.
  unfold state_of. destruct (promises w !! p) as [[[o'|] rs]|]; simpl; try done.
  intros [= ->]. eauto.
Qed.

Lemma length_snoc {A} (l : list A) (x : A) : length (l ++ [x]) = S (length l).
Proof. rewrite length_app; simpl; lia. Qed.
Lemma commit_turn w a q d fuel :
  jobs w = [] → queue w = Some (a :: q) → conn w = Open →
  state_of w (db (this w)) = Some (Some (Fulfilled d)) → 1 < fuel →
  (_commit w).1 = length (promises w) ∧ quiesce fuel (_commit w).2 = Some (committed w).
Proof.
  intros Hj Hq Hc Hd Hf. destruct fuel as [|[|fuel]]; [lia..|].
  apply settled_lookup in Hd as [rs Hd]. pose proof (lookup_lt_Some _ _ _ Hd) as Hlt.
  unfold committed. rewrite Hq.
  unfold queue in Hq. destruct (_actions (this w)) as [r|] eqn:Ha; [simpl in Hq|done].
  pose proof (lookup_lt_Some _ _ _ Hq) as Hr.
  unfold _commit, quiesce. destruct_world w. subst.
  rewrite Hq. simpl.
  split; [done|]. unfold await, then_; simpl.
  rewrite !lookup_app_l, Hd by (rewrite ?length_app; simpl; lia). simpl.
  rewrite lookup_app_l, Hq by done. simpl.
  unfold resolve_with_promise; simpl.
  rewrite lookup_app_l by (rewrite !length_app; simpl; lia).
  rewrite lookup_app_l by (rewrite !length_app; simpl; lia).
  rewrite lookup_fresh. simpl.
  unfold then_; simpl. rewrite lookup_fresh. simpl.
  rewrite alter_fresh, !length_snoc, <- !app_assoc. simpl.
  by destruct fuel.
Qed.

Lemma lookup_at {A} (l k : list A) (x : A) : (l ++ x :: k) !! length l = Some x.
Proof. by apply list_lookup_middle. Qed.

Lemma lookup_after {A} (l k : list A) (x y : A) : (l ++ x :: y :: k) !! S (length l) = Some y.
Proof. rewrite lookup_app_r by lia. by replace (S (length l) - length l) with 1 by lia. Qed.

Lemma insert_at {A} (l k : list A) (x y : A) : <[length l := y]> (l ++ x :: k) = l ++ y :: k.
Proof. rewrite insert_app_r_alt by lia. by replace (length l - length l) with 0 by lia. Qed.

Lemma insert_after {A} (l k : list A) (x y z : A) :
  <[S (length l) := z]> (l ++ x :: y :: k) = l ++ x :: z :: k.
Proof. rewrite insert_app_r_alt by lia. by replace (S (length l) - length l) with 1 by lia. Qed.

Lemma serve_one o os b pre post w d bk h tid fuel :
  jobs w = [] →
  promises w = pre ++ segment Unserved b (o :: os) (length pre) ++ post →
  txns w !! tid = Some (mkTxn (request_of <$> acts (o :: os) (length pre)) TxActive bk h) →
  earlier_finished tid w = true → database w = Some d → 0 < fuel →
  deliver fuel (RequestSuccess tid) w
  = Some (set_promises ((pre ++ cells (Served d) b o (length pre))
                        ++ segment Unserved b os (length pre + width o) ++ post)
            (set_database (Some (apply_op o d))
               (set_txns (<[tid := mkTxn (request_of <$> acts os (length pre + width o))
                                     TxActive (Some (default d bk)) h]> (txns w)) w))).
Proof.
  intros Hj Hp Ht He Hd Hf. destruct fuel as [|fuel]; [lia|].
  unfold deliver, quiesce. destruct_world w. subst.
  rewrite Ht. cbn [acts fmap list_fmap]. rewrite He.
  destruct o as [k|k v|k]; cbn [request_of action_of mbind option_bind].
  - unfold settle. cbn [promises set_txns segment cells app fmap option_fmap option_map].
    rewrite <- !app_assoc. cbn [app].
    rewrite lookup_after, insert_after.
    cbn [set_promises set_jobs jobs map app drain run_job].
    unfold settle. cbn [promises]. rewrite lookup_at, insert_at.
    cbn [set_promises set_jobs jobs map app drain run_job set_database width].
    by destruct fuel.
  - cbn [set_txns set_database drain jobs segment cells app set_promises apply_op].
    rewrite <- !app_assoc. cbn [app]. by destruct fuel.
  - cbn [set_txns set_database drain jobs segment cells app set_promises apply_op].
    rewrite <- !app_assoc. cbn [app]. by destruct fuel.
Qed.

Lemma length_cells g b o n : length (cells g b o n) = width o.
Proof. by destruct o, g. Qed.

Lemma serve_all os : ∀ b pre post w d bk h tid fuel,
  jobs w = [] →
  promises w = pre ++ segment Unserved b os (length pre) ++ post →
  txns w !! tid = Some (mkTxn (request_of <$> acts os (length pre)) TxActive bk h) →
  earlier_finished tid w = true → database w = Some d → 0 < fuel →
  deliver_all fuel (replicate (length os) (RequestSuccess tid)) w
  = Some (set_promises (pre ++ segment (Served d) b os (length pre) ++ post)
            (set_database (Some (apply_ops os d))
               (set_txns (<[tid := mkTxn [] TxActive (backup_after os d bk) h]> (txns w)) w))).
Proof.
  induction os as [|o os IH]; intros b pre post w d bk h tid fuel Hj Hp Ht He Hd Hf.
  - destruct_world w. subst. by rewrite list_insert_id.
  - cbn [length replicate deliver_all]. erewrite serve_one by done. cbn [mbind option_bind].
    pose proof (lookup_lt_Some _ _ _ Ht) as Hlt.
    erewrite (IH b (pre ++ cells (Served d) b o (length pre)) post _ (apply_op o d)
                 (Some (default d bk)) h tid fuel).
    + destruct_world w. subst. rewrite list_insert_insert_eq.
      rewrite length_app, length_cells, <- !app_assoc.
      do 5 f_equal. by destruct os.
    + by destruct_world w.
    + destruct_world w. by rewrite length_app, length_cells.
    + destruct_world w. by rewrite list_lookup_insert_eq, length_app, length_cells.
    + destruct_world w. unfold earlier_finished in *; simpl in *.
      by rewrite take_insert_ge.
    + by destruct_world w.
    + done.
Qed.

(** ** Running jobs *)

Lemma drain_quiet fuel w : jobs w = [] → drain fuel w = w.
Proof. intros Hj. destruct fuel; simpl; [done|]. by rewrite Hj. Qed.

Lemma drain_add a b w : drain (a + b) w = drain b (drain a w).
Proof.
  revert w; induction a as [|a IH]; intros w; simpl; [done|].
  destruct (jobs w) as [|j js] eqn:Hj; [|apply IH].
  by rewrite drain_quiet.
Qed.

Lemma quiesce_exact k fuel w w' :
  drain k w = w' → jobs w' = [] → k ≤ fuel → quiesce fuel w = Some w'.
Proof.
  intros Hd Hj Hk. unfold quiesce.
  replace fuel with (k + (fuel - k)) by lia.
  rewrite drain_add, Hd, drain_quiet by done. by rewrite Hj.
Qed.

Lemma length_adopters_le os n : length (adopters os n) ≤ length os.
Proof.
  revert n; induction os as [|o os IH]; intros n; simpl; [done|].
  rewrite length_app. specialize (IH (n + width o)). destruct o; simpl in *; lia.
Qed.

(** The jobs a settled batch outcome promise leaves: each write's promise
    takes the outcome. *)
Lemma drain_adopters os : ∀ g o pre post js w,
  promises w = pre ++ segment g None os (length pre) ++ post →
  jobs w = ((λ r, JReact r o) <$> adopters os (length pre)) ++ js →
  drain (length (adopters os (length pre))) w
  = set_jobs js (set_promises (pre ++ segment g (Some o) os (length pre) ++ post) w).
Proof.
  induction os as [|o' os IH]; intros g o pre post js w Hp Hj.
  - destruct_world w. by subst.
  - destruct o' as [k|k v|k]; cbn [adopters adopter app length].
    + specialize (IH (step_reads (OGet k) g) o (pre ++ cells g None (OGet k) (length pre)) post js w).
      rewrite length_app, length_cells in IH. rewrite IH.
      * cbn [segment]. by rewrite <- !app_assoc.
      * rewrite Hp. cbn [segment]. by rewrite <- !app_assoc.
      * done.
    + destruct_world w. subst. cbn [adopters adopter app fmap list_fmap drain jobs set_jobs run_job].
      unfold settle. cbn [promises segment cells app]. rewrite <- ?app_assoc. cbn [app].
      rewrite lookup_at, insert_at. cbn [map app set_promises set_jobs jobs].
      rewrite app_nil_r, !(cons_middle _ pre), !app_assoc.
      replace (length pre + 1) with (length (pre ++ [mkPromise (Some o) []]))
        by (rewrite length_app; simpl; lia).
      erewrite IH; [|cbn [promises]; by rewrite <- app_assoc|reflexivity].
      cbn [set_promises set_jobs]. by rewrite <- !app_assoc.
    + destruct_world w. subst. cbn [adopters adopter app fmap list_fmap drain jobs set_jobs run_job].
      unfold settle. cbn [promises segment cells app]. rewrite <- ?app_assoc. cbn [app].
      rewrite lookup_at, insert_at. cbn [map app set_promises set_jobs jobs].
      rewrite app_nil_r, !(cons_middle _ pre), !app_assoc.
      replace (length pre + 1) with (length (pre ++ [mkPromise (Some o) []]))
        by (rewrite length_app; simpl; lia).
      erewrite IH; [|cbn [promises]; by rewrite <- app_assoc|reflexivity].
      cbn [set_promises set_jobs]. by rewrite <- !app_assoc.
Qed.

(** ** The outcome of a transaction *)

Lemma settle_pending w p o rs :
  promises w !! p = Some (mkPromise None rs) →
  settle p o w = set_jobs (jobs w ++ map (λ r, JReact r o) rs)
                   (set_promises (<[p := mkPromise (Some o) []]> (promises w)) w).
Proof. intros Hp. unfold settle. by rewrite Hp. Qed.

(** What the handlers of lines 140-150 cause: the batch outcome promise
    [pb] takes the outcome [o], the promise made at line 139 is fulfilled,
    every write of the batch takes [o] and the promise of the [_commit] call
    is fulfilled; what waits on that call is left to run. *)
Lemma settle_batch_drain w pre g os rc cb pb o :
  promises w = pre ++ segment g None os (length pre)
                   ++ [mkPromise None rc; cb; mkPromise None [RAdopt (length pre + span os)]] →
  pre !! pb = Some (mkPromise None (adopters os (length pre))) →
  jobs w = [] →
  drain (length (adopters os (length pre)) + 1)
    (settle (S (S (length pre + span os))) (Fulfilled VUndefined) (settle pb o w))
  = set_jobs ((λ r, JReact r (Fulfilled VUndefined)) <$> rc)
      (set_promises (<[pb := mkPromise (Some o) []]> pre ++ segment g (Some o) os (length pre)
                     ++ [mkPromise (Some (Fulfilled VUndefined)) []; cb;
                         mkPromise (Some (Fulfilled VUndefined)) []]) w).
Proof.
  intros Hp Hb Hj. pose proof (lookup_lt_Some _ _ _ Hb) as Hlt.
  rewrite drain_add.
  destruct_world w. subst.
  erewrite (settle_pending _ pb); [|cbn [promises]; by rewrite lookup_app_l].
  cbn [set_promises set_jobs jobs promises app].
  rewrite insert_app_l by done.
  set (pre' := <[pb := mkPromise (Some o) []]> pre).
  assert (length pre' = length pre) as Hlen by apply length_insert.
  rewrite <- Hlen.
  set (sg := segment g None os (length pre')).
  assert (length sg = span os) as Hsg by apply length_segment.
  replace (S (S (length pre' + span os))) with (S (length ((pre' ++ sg) ++ [mkPromise None rc])))
    by (rewrite !length_app; simpl; lia).
  replace (pre' ++ sg ++ [mkPromise None rc; cb; mkPromise None [RAdopt (length pre' + span os)]])
    with (((pre' ++ sg) ++ [mkPromise None rc]) ++ [cb; mkPromise None [RAdopt (length pre' + span os)]])
    by (by rewrite <- !app_assoc).
  erewrite settle_pending; [|cbn [promises]; apply lookup_after].
  cbn [set_promises set_jobs jobs promises app map]. rewrite insert_after.
  rewrite <- !app_assoc. subst sg.
  erewrite drain_adopters; [|reflexivity|reflexivity].
  cbn [set_promises set_jobs drain jobs run_job].
  assert (length pre' + span os = length (pre' ++ segment g (Some o) os (length pre'))) as Hix
    by (rewrite length_app, length_segment; lia).
  erewrite settle_pending; [|cbn [promises app]; rewrite Hix, app_assoc; apply lookup_at].
  cbn [set_promises set_jobs jobs promises app map].
  rewrite Hix at 1. rewrite (app_assoc pre'), insert_at, <- app_assoc.
  done.
Qed.

Lemma deliver_all_app fuel evs1 evs2 w :
  deliver_all fuel (evs1 ++ evs2) w = deliver_all fuel evs1 w ≫= deliver_all fuel evs2.
Proof.
  revert w; induction evs1 as [|ev evs1 IH]; intros w; simpl; [done|].
  destruct (deliver fuel ev w) as [w'|]; simpl; [apply IH|done].
Qed.

Lemma earlier_finished_snoc w t :
  Forall (λ t, tx_status t = TxFinished) (txns w) →
  earlier_finished (length (txns w)) (set_txns (txns w ++ [t]) w) = true.
Proof.
  intros Hf. destruct_world w. unfold earlier_finished; simpl.
  rewrite take_app_length. induction Hf as [|t' ts Ht _ IH]; simpl; [done|].
  by rewrite bool_decide_true.
Qed.

(** The world in which the transaction of the batch [os] is under way. *)
Lemma committed_enqueued_shape os w :
  ready w → os ≠ [] →
  let w2 := committed (enqueued os w) in
  let pre := alter (add_reactions (adopters os (length (promises w))))
               (_batchPromise (this w)) (promises w) in
  jobs w2 = [] ∧
  promises w2 = pre ++ segment Unserved None os (length pre)
                    ++ [mkPromise None []; mkPromise None [];
                        mkPromise None [RAdopt (length pre + span os)]] ∧
  pre !! _batchPromise (this w) = Some (mkPromise None (adopters os (length pre))) ∧
  txns w2 = txns w ++ [mkTxn (request_of <$> acts os (length pre)) TxActive None
                         (batch_handlers os w)] ∧
  database w2 = database w.
Proof.
  intros [Hj Hc Hq Hb Hres Hrej Hcn Hd Hdat Htx] Hos.
  unfold queue in Hq. destruct (_actions (this w)) as [r|] eqn:Ha; [simpl in Hq|done].
  destruct_world w. subst. unfold committed, enqueued, batch_handlers, queue; simpl.
  rewrite length_alter, !length_app, !length_alter, length_segment.
  rewrite !list_lookup_alter_eq, Hb, Hq. simpl.
  rewrite <- !app_assoc. done.
Qed.

Lemma ready_accepting w : ready w → accepting w.
Proof.
  intros [Hj Hc Hq Hb _ _ _ _ _ _].
  split; [done|done|by rewrite Hq|by eapply state_of_pending].
Qed.

Lemma queue_enqueued os w q :
  queue w = Some q → queue (enqueued os w) = Some (q ++ acts os (length (promises w))).
Proof.
  unfold queue. destruct (_actions (this w)) as [r|] eqn:Ha; [simpl|done].
  intros Hq. destruct_world w. subst. simpl. by rewrite list_lookup_alter_eq, Hq.
Qed.

(** The commit of a collected batch, by a call or by a tick of the timer. *)
Lemma commit_enqueued os w fuel :
  ready w → os ≠ [] → 1 < fuel →
  (_commit (enqueued os w)).1 = length (promises w) + span os ∧
  quiesce fuel (_commit (enqueued os w)).2 = Some (committed (enqueued os w)).
Proof.
  intros Hw Hos Hf. pose proof (ready_accepting _ Hw) as Ha.
  destruct Hw as [Hj Hc Hq Hb Hres Hrej Hcn [d Hd] Hdat Htx].
  pose proof (queue_enqueued os w _ Hq) as Hq2. simpl in Hq2.
  destruct (acts os (length (promises w))) as [|a q] eqn:Hacts.
  { apply (f_equal length) in Hacts. rewrite length_acts in Hacts. by destruct os. }
  apply settled_lookup in Hd as [rs Hd].
  edestruct (commit_turn (enqueued os w) a q d fuel) as [H1 H2]; try done.
  - by destruct_world w.
  - by destruct_world w.
  - destruct_world w. unfold state_of; simpl.
    pose proof (lookup_lt_Some _ _ _ Hd).
    rewrite lookup_app_l by (by rewrite length_alter).
    rewrite list_lookup_alter_ne, Hd; [done|]. intros ->. by rewrite Hb in Hd.
  - split; [|done]. rewrite H1. destruct_world w.
    by rewrite length_app, length_alter, length_segment.
Qed.

Lemma insert_alter_eq {A} (f : A → A) (l : list A) i x : <[i:=x]> (alter f i l) = <[i:=x]> l.
Proof.
  rewrite !list_insert_alter, list_alter_alter_eq. by apply list_alter_ext.
Qed.

(** All requests served and the transaction complete. *)
Lemma batch_completes os w d fuel :
  ready w → database w = Some d → os ≠ [] → length os < fuel →
  deliver_all fuel (replicate (length os) (RequestSuccess (length (txns w)))
                    ++ [TxnComplete (length (txns w))]) (committed (enqueued os w))
  = Some (settled_batch os (Served d) (Fulfilled VUndefined) (Some (apply_ops os d))
            (mkTxn [] TxFinished (Some d) (batch_handlers os w)) w).
Proof.
  intros Hw Hd Hos Hf.
  destruct (committed_enqueued_shape os w Hw Hos) as (Hj2 & Hp2 & Hb2 & Ht2 & Hd2).
  set (pre := alter (add_reactions (adopters os (length (promises w))))
               (_batchPromise (this w)) (promises w)) in *.
  assert (length pre = length (promises w)) as Hlen by apply length_alter.
  rewrite deliver_all_app.
  erewrite (serve_all os None pre _ _ d None (batch_handlers os w) (length (txns w)) fuel);
    [|done|exact Hp2| |  |by rewrite Hd2|lia].
  2: { rewrite Ht2. by rewrite lookup_fresh. }
  2: { pose proof (earlier_finished_snoc w
         (mkTxn (request_of <$> acts os (length pre)) TxActive None (batch_handlers os w))
         (rd_txns _ Hw)) as He.
       unfold earlier_finished in *. rewrite Ht2. by destruct_world w. }
  cbn [mbind option_bind deliver_all].
  match goal with |- deliver _ _ ?x ≫= _ = _ => set (w3 := x) end.
  assert (txns w3 !! length (txns w)
          = Some (mkTxn [] TxActive (backup_after os d None) (batch_handlers os w))) as Ht3.
  { subst w3. rewrite Ht2. destruct_world w. by rewrite list_lookup_insert_eq by (rewrite length_app; simpl; lia). }
  assert (promises w3 = pre ++ segment (Served d) None os (length pre)
                          ++ [mkPromise None []; mkPromise None [];
                              mkPromise None [RAdopt (length pre + span os)]]) as Hp3.
  { subst w3. by destruct_world w. }
  assert (jobs w3 = []) as Hj3 by (subst w3; by destruct_world w).
  unfold deliver, handle. rewrite Ht3. cbn [mbind option_bind].
  match goal with |- context [set_txns ?ts w3] => set (w4 := set_txns ts w3) end.
  assert (promises w4 = promises w3) as Hp4 by (subst w4; by destruct w3).
  assert (jobs w4 = []) as Hj4 by (subst w4; by destruct w3).
  unfold batch_handlers, run_handlers, txn_oncomplete. cbn [h_resolveBatch h_resolve].
  rewrite <- Hlen.
  erewrite (quiesce_exact (length (adopters os (length pre)) + 1));
    [|eapply (settle_batch_drain w4 pre (Served d) os [] _ _ (Fulfilled VUndefined));
      [by rewrite Hp4, Hp3|exact Hb2|done]
     |by destruct w4
     |pose proof (length_adopters_le os (length pre)); lia].
  cbn [mbind option_bind]. f_equal.
  subst w4 w3 pre. destruct Hw as [Hj Hc Hq Hb Hres Hrej Hcn Hdb Hdat Htx].
  unfold queue in Hq. destruct (_actions (this w)) as [r|] eqn:Ha; [simpl in Hq|done].
  destruct_world w. subst. unfold settled_batch, batch_handlers, queue. simpl.
  rewrite ?length_app, ?length_alter, ?length_segment, ?list_insert_insert_eq, ?insert_fresh.
  rewrite insert_alter_eq. by destruct os.
Qed.

(** The transaction fails, by an error or by an abort, before a request is
    served. *)
Lemma batch_fails os w txerror arg fuel (abort : bool) :
  ready w → os ≠ [] → length os < fuel →
  deliver fuel (if abort then TxnAbort (length (txns w)) txerror arg
                else TxnError (length (txns w)) txerror arg)
    (committed (enqueued os w))
  = Some (settled_batch os Unserved (Rejected (js_or txerror arg)) (database w)
            (mkTxn (request_of <$> acts os (length (promises w)))
                   (if abort then TxFinished else TxErred) None (batch_handlers os w)) w).
Proof.
  intros Hw Hos Hf.
  destruct (committed_enqueued_shape os w Hw Hos) as (Hj2 & Hp2 & Hb2 & Ht2 & Hd2).
  set (pre := alter (add_reactions (adopters os (length (promises w))))
               (_batchPromise (this w)) (promises w)) in *.
  assert (length pre = length (promises w)) as Hlen by apply length_alter.
  set (w2 := committed (enqueued os w)) in *.
  assert (txns w2 !! length (txns w)
          = Some (mkTxn (request_of <$> acts os (length pre)) TxActive None
                    (batch_handlers os w))) as Ht3
    by (by rewrite Ht2, lookup_fresh).
  set (tx := mkTxn (request_of <$> acts os (length pre))
               (if abort then TxFinished else TxErred) None (batch_handlers os w)).
  set (w4 := set_txns (<[length (txns w) := tx]> (txns w2)) w2).
  assert (promises w4 = promises w2) as Hp4 by (subst w4; by destruct w2).
  assert (jobs w4 = []) as Hj4 by (subst w4; by destruct w2).
  assert (quiesce fuel (txn_onfail (mkHandlers (_batchPromise (this w)) (_batchPromise (this w))
                                      (S (S (length pre + span os)))) txerror arg w4)
          = Some (set_jobs []
                    (set_promises
                       (<[_batchPromise (this w) := mkPromise (Some (Rejected (js_or txerror arg))) []]> pre
                        ++ segment Unserved (Some (Rejected (js_or txerror arg))) os (length pre)
                        ++ [mkPromise (Some (Fulfilled VUndefined)) []; mkPromise None [];
                            mkPromise (Some (Fulfilled VUndefined)) []]) w4))) as Hq.
  { unfold txn_onfail. cbn [h_rejectBatch h_resolve].
    apply (quiesce_exact (length (adopters os (length pre)) + 1)).
    - apply (settle_batch_drain w4 pre Unserved os [] _ _ (Rejected (js_or txerror arg)));
        [by rewrite Hp4, Hp2|exact Hb2|done].
    - by destruct w4.
    - pose proof (length_adopters_le os (length pre)). lia. }
  rewrite Hlen in Hq.
  assert (∀ t, set_jobs [] (set_promises
             (<[_batchPromise (this w) := mkPromise (Some (Rejected (js_or txerror arg))) []]> pre
              ++ segment Unserved (Some (Rejected (js_or txerror arg))) os (length (promises w))
              ++ [mkPromise (Some (Fulfilled VUndefined)) []; mkPromise None [];
                  mkPromise (Some (Fulfilled VUndefined)) []])
             (set_txns (<[length (txns w) := mkTxn (request_of <$> acts os (length pre)) t None
                                               (batch_handlers os w)]> (txns w2)) w2))
          = settled_batch os Unserved (Rejected (js_or txerror arg)) (database w)
              (mkTxn (request_of <$> acts os (length (promises w))) t None
                 (batch_handlers os w)) w) as Hfin.
  { intros t. subst w4 w2 pre tx. clear Hq Ht3 Hp4 Hj4 Hp2 Hb2 Ht2 Hd2 Hj2.
    destruct Hw as [Hj Hc Hq Hb Hres Hrej Hcn Hdb Hdat Htx].
    unfold queue in Hq. destruct (_actions (this w)) as [r|] eqn:Ha; [simpl in Hq|done].
    destruct_world w. subst. unfold settled_batch, batch_handlers, queue. simpl.
    rewrite ?length_app, ?length_alter, ?length_segment, ?list_insert_insert_eq, ?insert_fresh.
    by rewrite insert_alter_eq. }
  unfold deliver, handle. destruct abort; rewrite Ht3; cbn [bool_decide decide_rel mbind option_bind].
  - rewrite bool_decide_false by done. cbn [mbind option_bind].
    etrans; [exact Hq|]. f_equal. apply Hfin.
  - etrans; [exact Hq|]. f_equal. apply Hfin.
Qed.

(** ** Where the promises of a batch are *)

Lemma ids_lookup os i o n :
  os !! i = Some o → ids os n !! i = Some (n + span (take i os)).
Proof.
  intros Ho. pose proof (lookup_lt_Some _ _ _ Ho) as Hlt.
  assert (length (ids (take i os) n) = i) as Hlen
    by (rewrite length_ids, length_take_le; lia).
  rewrite <- (take_drop_middle os i o Ho) at 1.
  rewrite ids_app, lookup_app_r by lia.
  by rewrite Hlen, Nat.sub_diag.
Qed.

Lemma segment_lookup_split g b os1 o os2 pre post :
  (pre ++ segment g b (os1 ++ o :: os2) (length pre) ++ post) !! (length pre + span os1)
  = cells (steps_reads os1 g) b o (length pre + span os1) !! 0.
Proof.
  rewrite segment_app. cbn [segment].
  rewrite lookup_app_r by lia.
  rewrite <- app_assoc, lookup_app_r by (rewrite length_segment; lia).
  rewrite length_segment.
  replace (length pre + span os1 - length pre - span os1) with 0 by lia.
  rewrite <- !app_assoc. by destruct o, g.
Qed.

Lemma segment_lookup g b os i o pre post :
  os !! i = Some o →
  (pre ++ segment g b os (length pre) ++ post) !! (length pre + span (take i os))
  = cells (steps_reads (take i os) g) b o (length pre + span (take i os)) !! 0.
Proof.
  intros Ho. rewrite <- (segment_lookup_split g b (take i os) o (drop (S i) os) pre post).
  by rewrite take_drop_middle.
Qed.

Lemma state_of_settled_batch_id os g o dat tx w i op :
  _batchPromise (this w) < length (promises w) →
  os !! i = Some op →
  state_of (settled_batch os g o dat tx w) (length (promises w) + span (take i os))
  = match op, g with
    | OGet k, Served d => Some (Some (Fulfilled (read (apply_ops (take i os) d) k)))
    | OGet k, Refused e => Some (Some (Rejected e))
    | OGet k, _ => Some None
    | _, _ => Some (Some o)
    end.
Proof.
  intros Hlt Ho. unfold state_of, settled_batch. cbn [promises].
  rewrite <- (length_insert (promises w) (_batchPromise (this w)) (mkPromise (Some o) [])).
  rewrite (segment_lookup g (Some o) os i op _ _ Ho).
  by destruct op, g.
Qed.

Lemma state_of_settled_batch_commit os g o dat tx w :
  state_of (settled_batch os g o dat tx w) (length (promises w) + span os)
  = Some (Some (Fulfilled VUndefined)).
Proof.
  unfold state_of, settled_batch. cbn [promises].
  rewrite app_assoc.
  rewrite lookup_app_r by (rewrite length_app, length_insert, length_segment; lia).
  rewrite length_app, length_insert, length_segment.
  by rewrite Nat.sub_diag.
Qed.

Lemma state_of_settled_batch_outcome os g o dat tx w :
  _batchPromise (this w) < length (promises w) →
  state_of (settled_batch os g o dat tx w) (_batchPromise (this w)) = Some (Some o).
Proof.
  intros Hlt. unfold state_of, settled_batch. cbn [promises].
  rewrite lookup_app_l by (by rewrite length_insert).
  by rewrite list_lookup_insert_eq.
Qed.

Lemma accepting_settled_batch os g o dat tx w :
  ready w → accepting (settled_batch os g o dat tx w) ∧ queue (settled_batch os g o dat tx w) = Some [].
Proof.
  intros [Hj Hc Hq Hb Hres Hrej Hcn Hdb Hdat Htx].
  unfold queue in Hq. destruct (_actions (this w)) as [r|] eqn:Ha; [simpl in Hq|done].
  assert (queue (settled_batch os g o dat tx w) = Some []) as Hq2.
  { destruct_world w. unfold queue; simpl.
    rewrite lookup_app_r by (by rewrite length_alter).
    by rewrite length_alter, Nat.sub_diag. }
  split; [|done]. split.
  - by destruct_world w.
  - by destruct_world w; subst.
  - by rewrite Hq2.
  - destruct_world w. unfold pending, state_of; simpl.
    rewrite app_assoc.
    rewrite lookup_app_r by (rewrite length_app, length_insert, length_segment; lia).
    rewrite length_app, length_insert, length_segment.
    by replace (S (length w_ps + span os) - (length w_ps + span os)) with 1 by lia.
Qed.

(** After a settled transaction the instance is between two batches again. *)
Lemma ready_settled_batch os g o dat tx w :
  ready w → is_Some dat → tx_status tx = TxFinished →
  ready (settled_batch os g o dat tx w).
Proof.
  intros Hw Hdat2 Htx2.
  destruct (accepting_settled_batch os g o dat tx w Hw) as [_ Hq2].
  destruct Hw as [Hj Hc Hq Hb Hres Hrej Hcn [d Hdb] Hdat Htx].
  apply settled_lookup in Hdb as [rs Hdb].
  pose proof (lookup_lt_Some _ _ _ Hdb) as Hlt.
  split.
  - by destruct_world w.
  - by destruct_world w; subst.
  - done.
  - destruct_world w; simpl.
    rewrite app_assoc.
    rewrite lookup_app_r by (rewrite length_app, length_insert, length_segment; lia).
    rewrite length_app, length_insert, length_segment.
    by replace (S (length w_ps + span os) - (length w_ps + span os)) with 1 by lia.
  - by destruct_world w.
  - by destruct_world w.
  - by destruct_world w.
  - exists d. destruct_world w. unfold state_of; simpl.
    rewrite lookup_app_l by (by rewrite length_insert).
    rewrite list_lookup_insert_ne, Hdb; [done|]. intros ->. by rewrite Hb in Hdb.
  - by destruct_world w.
  - destruct_world w. apply Forall_app; split; [done|]. by constructor.
Qed.

Lemma ready_opened name interval data : ready (opened name interval data).
Proof.
  split; try done. by exists (VDatabase name).
Qed.

Lemma pending_commit os w :
  ready w → os ≠ [] → pending (committed (enqueued os w)) (length (promises w) + span os).
Proof.
  intros Hw Hos.
  destruct (committed_enqueued_shape os w Hw Hos) as (_ & Hp2 & _).
  unfold pending, state_of. rewrite Hp2, length_alter.
  rewrite app_assoc.
  rewrite lookup_app_r by (rewrite length_app, length_alter, length_segment; lia).
  rewrite length_app, length_alter, length_segment.
  by rewrite Nat.sub_diag.
Qed.

Lemma invoke_commit os w fuel :
  ready w → os ≠ [] → 1 < fuel →
  invoke fuel CCommit (enqueued os w)
  = Some (length (promises w) + span os, committed (enqueued os w)).
Proof.
  intros Hw Hos Hf. destruct (commit_enqueued os w fuel Hw Hos Hf) as [H1 H2].
  unfold invoke. cbn [call]. destruct (_commit (enqueued os w)) as [pc w2]; simpl in *.
  by rewrite H2, H1.
Qed.

Lemma tick_commit os w fuel id delay :
  ready w → os ≠ [] → 1 < fuel → intervals w !! id = Some (delay, true) →
  deliver fuel (Tick id) (enqueued os w) = Some (committed (enqueued os w)).
Proof.
  intros Hw Hos Hf Hi. destruct (commit_enqueued os w fuel Hw Hos Hf) as [H1 H2].
  unfold deliver, handle.
  assert (intervals (enqueued os w) = intervals w) as -> by (by destruct_world w).
  by rewrite Hi.
Qed.

Lemma write_lookup os i o n p :
  os !! i = Some o → ids os n !! i = Some p → p = n + span (take i os).
Proof. intros Ho Hp. rewrite (ids_lookup os i o n Ho) in Hp. by inversion Hp. Qed.

(** C1: a non-empty batch collected by a ready instance and committed.  The
    promise of the [_commit] call is pending while the transaction is under
    way and is fulfilled, never rejected, once the transaction has settled.
    If the transaction completes, the batch outcome promise and with it the
    promise of every [set] and [delete] of the batch is fulfilled; if it fails
    by an error or an abort, they are all rejected with the one value
    [transaction.error || error].  Either way the instance takes the next
    batch. *)
Theorem batch_outcome_reaches_writes w os fuel :
  ready w → os ≠ [] → length os < fuel →
  let tid := length (txns w) in
  ∃ ps w1 pc w2,
    invoke_all fuel (op_call <$> os) w = Some (ps, w1) ∧ length ps = length os ∧
    invoke fuel CCommit w1 = Some (pc, w2) ∧
    pending w2 pc ∧
    (∀ d, database w = Some d →
       ∃ w3, deliver_all fuel (replicate (length os) (RequestSuccess tid)
                                ++ [TxnComplete tid]) w2 = Some w3 ∧
             fulfilled w3 pc VUndefined ∧
             fulfilled w3 (_batchPromise (this w)) VUndefined ∧
             (∀ p, write_of os ps p → fulfilled w3 p VUndefined) ∧
             ready w3) ∧
    (∀ txerror arg (abort : bool),
       ∃ w3, deliver fuel (if abort then TxnAbort tid txerror arg
                           else TxnError tid txerror arg) w2 = Some w3 ∧
             fulfilled w3 pc VUndefined ∧
             rejected w3 (_batchPromise (this w)) (js_or txerror arg) ∧
             (∀ p, write_of os ps p → rejected w3 p (js_or txerror arg)) ∧
             accepting w3 ∧ queue w3 = Some [] ∧
             (abort = true → ready w3)).
Proof.
  intros Hw Hos Hf tid.
  assert (1 < fuel) as Hf2 by (destruct os; [done|simpl in Hf; lia]).
  pose proof (batch_allocated w (ready_accepting w Hw)) as Hlt.
  exists (ids os (length (promises w))), (enqueued os w),
         (length (promises w) + span os), (committed (enqueued os w)).
  split; [apply invoke_all_enqueue; [by apply ready_accepting|lia]|].
  split; [apply length_ids|].
  split; [by apply invoke_commit|].
  split; [by apply pending_commit|].
  split.
  - intros d Hd. eexists. split; [by apply batch_completes|].
    split; [apply state_of_settled_batch_commit|].
    split; [by apply state_of_settled_batch_outcome|].
    split.
    + intros p (i & o & Ho & Hg & Hp). rewrite (write_lookup _ _ _ _ _ Ho Hp).
      unfold fulfilled. rewrite (state_of_settled_batch_id _ _ _ _ _ _ i o) by done.
      by destruct o.
    + apply ready_settled_batch; [done|by eexists|done].
  - intros txerror arg abort. eexists. split; [by apply batch_fails|].
    split; [apply state_of_settled_batch_commit|].
    split; [by apply state_of_settled_batch_outcome|].
    split.
    + intros p (i & o & Ho & Hg & Hp). rewrite (write_lookup _ _ _ _ _ Ho Hp).
      unfold rejected. rewrite (state_of_settled_batch_id _ _ _ _ _ _ i o) by done.
      by destruct o.
    + split; [by apply accepting_settled_batch|].
      split; [by apply accepting_settled_batch|].
      intros ->. apply ready_settled_batch; [done|apply (rd_data _ Hw)|done].
Qed.

Lemma batch_outcome_reaches_writes_witness :
  ∃ ps w1 pc w2,
    invoke_all 5 (op_call <$> [OSet "a" (VNum 1); ODelete "b"]) (opened "kv" None None)
    = Some (ps, w1) ∧
    invoke 5 CCommit w1 = Some (pc, w2) ∧ pending w2 pc.
Proof.
  destruct (batch_outcome_reaches_writes (opened "kv" None None)
              [OSet "a" (VNum 1); ODelete "b"] 5)
    as (ps & w1 & pc & w2 & Ha & _ & Hb & Hc & _);
    [apply ready_opened|discriminate|cbn [length]; lia|].
  exists ps, w1, pc, w2. exact (conj Ha (conj Hb Hc)).
Defined.

(** ** Reads within a batch *)

Lemma read_untouched k mid d :
  Forall (λ o, writes_key k o = false) mid → read (apply_ops mid d) k = read d k.
Proof.
  intros Hm. revert d. induction Hm as [|o mid Ho _ IH]; intros d; [done|].
  unfold apply_ops in *; simpl. rewrite IH. unfold read.
  destruct o as [k'|k' v|k']; simpl in *; [done| |].
  - apply bool_decide_eq_false in Ho. by rewrite lookup_insert_ne.
  - apply bool_decide_eq_false in Ho. by rewrite lookup_delete_ne.
Qed.

Lemma read_after_set os0 k v mid d :
  Forall (λ o, writes_key k o = false) mid →
  read (apply_ops (os0 ++ OSet k v :: mid) d) k = v.
Proof.
  intros Hm. rewrite apply_ops_app. change (OSet k v :: mid) with ([OSet k v] ++ mid).
  rewrite apply_ops_app, read_untouched by done.
  unfold read, apply_ops; simpl. by rewrite lookup_insert_eq.
Qed.

(** C5: the actions of a batch are applied in the order of the calls, and a
    read sees exactly the writes made before it: a [get] of [k] is fulfilled
    with what the store holds for [k] after the earlier calls of the batch, so
    with [v] when [set k v] is the last earlier write of [k]. *)
Theorem batch_reads_see_earlier_writes w os d id delay fuel :
  ready w → database w = Some d → intervals w !! id = Some (delay, true) →
  os ≠ [] → length os < fuel →
  let tid := length (txns w) in
  ∃ ps w1 w2 w3,
    invoke_all fuel (op_call <$> os) w = Some (ps, w1) ∧ length ps = length os ∧
    deliver fuel (Tick id) w1 = Some w2 ∧
    deliver_all fuel (replicate (length os) (RequestSuccess tid) ++ [TxnComplete tid]) w2
    = Some w3 ∧
    database w3 = Some (apply_ops os d) ∧
    (∀ i k p, os !! i = Some (OGet k) → ps !! i = Some p →
              fulfilled w3 p (read (apply_ops (take i os) d) k)) ∧
    (∀ os0 k v mid os2 p,
       os = os0 ++ OSet k v :: mid ++ OGet k :: os2 →
       Forall (λ o, writes_key k o = false) mid →
       ps !! (length os0 + S (length mid)) = Some p →
       fulfilled w3 p v).
Proof.
  intros Hw Hd Hi Hos Hf tid.
  assert (1 < fuel) as Hf2 by (destruct os; [done|simpl in Hf; lia]).
  pose proof (batch_allocated w (ready_accepting w Hw)) as Hlt.
  assert (∀ i k p, os !! i = Some (OGet k) → ids os (length (promises w)) !! i = Some p →
            fulfilled (settled_batch os (Served d) (Fulfilled VUndefined) (Some (apply_ops os d))
                         (mkTxn [] TxFinished (Some d) (batch_handlers os w)) w) p
              (read (apply_ops (take i os) d) k)) as Hread.
  { intros i k p Ho Hp. rewrite (write_lookup _ _ _ _ _ Ho Hp).
    unfold fulfilled. by rewrite (state_of_settled_batch_id _ _ _ _ _ _ i (OGet k)). }
  exists (ids os (length (promises w))), (enqueued os w), (committed (enqueued os w)).
  eexists.
  split; [apply invoke_all_enqueue; [by apply ready_accepting|lia]|].
  split; [apply length_ids|].
  split; [by eapply tick_commit|].
  split; [by apply batch_completes|].
  split; [done|]. split; [done|].
  intros os0 k v mid os2 p -> Hm Hp.
  assert ((os0 ++ OSet k v :: mid ++ OGet k :: os2) !! (length os0 + S (length mid))
          = Some (OGet k)) as Ho.
  { rewrite lookup_app_r by lia. replace (length os0 + S (length mid) - length os0)
      with (S (length mid)) by lia. simpl. by rewrite list_lookup_middle. }
  specialize (Hread _ _ _ Ho Hp).
  replace (take (length os0 + S (length mid)) (os0 ++ OSet k v :: mid ++ OGet k :: os2))
    with (os0 ++ OSet k v :: mid) in Hread.
  - by rewrite read_after_set in Hread.
  - rewrite take_app_add'; [|done]. f_equal. simpl. f_equal.
    by rewrite take_app_length.
Qed.

Lemma batch_reads_see_earlier_writes_witness :
  ∃ ps w1 w2 w3 p,
    invoke_all 5 (op_call <$> [OSet "a" (VNum 1); OSet "a" (VNum 2); OGet "a"])
      (opened "kv" None None) = Some (ps, w1) ∧
    deliver 5 (Tick 0) w1 = Some w2 ∧
    deliver_all 5 [RequestSuccess 0; RequestSuccess 0; RequestSuccess 0; TxnComplete 0] w2
    = Some w3 ∧
    ps !! 2 = Some p ∧ fulfilled w3 p (VNum 2).
Proof.
  destruct (batch_reads_see_earlier_writes (opened "kv" None None)
              [OSet "a" (VNum 1); OSet "a" (VNum 2); OGet "a"] ∅ 0 10%Z 5)
    as (ps & w1 & w2 & w3 & H1 & Hl & H2 & H3 & _ & _ & H5);
    [apply ready_opened|reflexivity|reflexivity|discriminate|cbn [length]; lia|].
  destruct (lookup_lt_is_Some_2 ps 2) as [p Hp]; [rewrite Hl; cbn [length]; lia|].
  exists ps, w1, w2, w3, p.
  refine (conj H1 (conj H2 (conj H3 (conj Hp _)))).
  apply (H5 [OSet "a" (VNum 1)] "a" (VNum 2) [] [] p); [reflexivity|constructor|exact Hp].
Defined.

(** ** The swap *)

Lemma then_jobs_app b os1 os2 n :
  then_jobs b (os1 ++ os2) n = then_jobs b os1 n ++ then_jobs b os2 (n + span os1).
Proof.
  revert n; induction os1 as [|o os1 IH]; intros n; simpl.
  - by rewrite Nat.add_0_r.
  - rewrite IH. do 3 f_equal. lia.
Qed.

Lemma call_enqueue o w :
  closed (this w) = false → is_Some (queue w) →
  call (op_call o) w = (length (promises w), called [o] w).
Proof.
  intros Hc [q Hq].
  unfold queue in Hq. destruct (_actions (this w)) as [r|] eqn:Ha; [simpl in Hq|done].
  destruct_world w. subst. unfold called.
  destruct o as [k|k v|k]; simpl.
  - unfold get, push; simpl. rewrite Hq. unfold resolve_with_promise; simpl.
    rewrite lookup_app_l by (rewrite length_snoc; lia). rewrite lookup_fresh.
    by rewrite length_snoc, <- app_assoc.
  - unfold set, push; simpl. rewrite Hq. unfold resolve_with_promise; simpl.
    by rewrite lookup_fresh.
  - unfold delete, push; simpl. rewrite Hq. unfold resolve_with_promise; simpl.
    by rewrite lookup_fresh.
Qed.

Lemma called_app os1 os2 w : called (os1 ++ os2) w = called os2 (called os1 w).
Proof.
  destruct_world w. unfold called; simpl.
  rewrite length_app, length_replicate, span_app, replicate_add, then_jobs_app, acts_app.
  rewrite list_alter_alter_eq, !app_assoc. f_equal.
  apply list_alter_ext; [|done]. intros q _; simpl. by rewrite app_assoc.
Qed.

Lemma called_nil w : called [] w = w.
Proof.
  destruct_world w. unfold called; simpl. rewrite !app_nil_r.
  by rewrite list_alter_id by (intros; apply app_nil_r).
Qed.

Lemma calls_enqueue os w :
  closed (this w) = false → is_Some (queue w) →
  calls (op_call <$> os) w = (ids os (length (promises w)), called os w).
Proof.
  revert w; induction os as [|o os IH]; intros w Hc Hq; simpl.
  - by rewrite called_nil.
  - rewrite call_enqueue by done.
    rewrite IH.
    + change (o :: os) with ([o] ++ os). rewrite called_app. do 2 f_equal.
      destruct_world w. rewrite length_app, length_replicate. f_equal. destruct o; simpl; lia.
    + by destruct_world w.
    + destruct Hq as [q Hq]. unfold queue in *.
      destruct (_actions (this w)) as [r|] eqn:Ha; [simpl in Hq|done].
      destruct_world w. subst. simpl. rewrite list_lookup_alter_eq, Hq. by eexists.
Qed.

Lemma then_jobs_write b os ps p n :
  ps = ids os n → write_of os ps p → JThen p b ∈ then_jobs b os n.
Proof.
  intros -> (i & o & Ho & Hg & Hp). revert n i Ho Hp.
  induction os as [|o' os IH]; intros n i Ho Hp; [done|].
  destruct i as [|i]; simpl in *.
  - inversion Ho; inversion Hp; subst. destruct o; [done|left..].
  - right. by eapply IH.
Qed.

(** C2: a commit of a non-empty queue swaps, inside the call and before its
    first [await]: the array it found stays as it is and becomes the
    snapshot of the suspended call, together with the resolving functions of
    the batch outcome promise it found; the instance gets a fresh empty array
    and a fresh pending batch outcome promise.  Calls made after the swap push
    onto the fresh array and take up the fresh promise, and the transaction
    this commit opens when it resumes holds the snapshot, one request per
    action and nothing else. *)
Theorem commit_swaps_queue w r a q os :
  _actions (this w) = Some r → arrays w !! r = Some (a :: q) →
  closed (this w) = false → db (this w) < length (promises w) →
  let pc := length (promises w) in
  let b := S pc in
  let k := KCommitDb pc r (_resolveBatch (this w)) (_rejectBatch (this w)) in
  let w1 := (_commit w).2 in
  let w2 := (calls (op_call <$> os) w1).2 in
  let ps := (calls (op_call <$> os) w1).1 in
  (_commit w).1 = pc ∧
  arrays w1 !! r = Some (a :: q) ∧
  _actions (this w1) = Some (length (arrays w)) ∧ queue w1 = Some [] ∧
  _batchPromise (this w1) = b ∧ _resolveBatch (this w1) = b ∧ _rejectBatch (this w1) = b ∧
  promises w !! b = None ∧ promises w1 !! b = Some (mkPromise None []) ∧
  txns w1 = txns w ∧
  (∀ rs, promises w !! db (this w) = Some (mkPromise None rs) →
         promises w1 !! db (this w) = Some (mkPromise None (rs ++ [RResume k])) ∧
         jobs w1 = jobs w) ∧
  (∀ o rs, promises w !! db (this w) = Some (mkPromise (Some o) rs) →
           jobs w1 = jobs w ++ [JReact (RResume k) o]) ∧
  arrays w2 !! r = Some (a :: q) ∧
  queue w2 = Some (acts os (length (promises w1))) ∧
  _batchPromise (this w2) = b ∧
  (∀ p, write_of os ps p → JThen p b ∈ jobs w2) ∧
  (conn w2 = Open → ∀ d,
     txns (resume k (Fulfilled d) w2)
     = txns w2 ++ [mkTxn (request_of <$> (a :: q)) TxActive None
                     (Some (mkHandlers (_resolveBatch (this w)) (_rejectBatch (this w))
                              (length (promises w2))))]).
Proof.
  intros Ha Hq Hc Hdb pc b k w1 w2 ps.
  pose proof (lookup_lt_Some _ _ _ Hq) as Hr.
  destruct (lookup_lt_is_Some_2 _ _ Hdb) as [[st rs] Hd].
  assert (w1 = set_jobs (jobs w ++ match st with
                                   | Some o => [JReact (RResume k) o]
                                   | None => []
                                   end)
                 (set_this (with_batch b b b)
                    (set_promises (match st with
                                   | Some _ => promises w
                                   | None => alter (add_reactions [RResume k]) (db (this w))
                                               (promises w)
                                   end ++ [mkPromise None []; mkPromise None []])
                       (set_this (with_actions (Some (length (arrays w))))
                          (set_arrays (arrays w ++ [[]]) (emit TCommit w)))))) as Hw1.
  { subst w1 k b pc. destruct_world w. subst. unfold _commit; simpl. rewrite Hq; simpl.
    unfold await, then_; simpl.
    rewrite !lookup_app_l, Hd by (rewrite ?length_snoc; lia).
    destruct st; simpl.
    - by rewrite length_snoc, <- app_assoc.
    - rewrite !alter_app_l by (rewrite ?length_snoc; lia).
      by rewrite length_snoc, <- !app_assoc, app_nil_r. }
  assert (length (promises w1) = S (S pc)) as Hlen1.
  { rewrite Hw1. destruct_world w. destruct st; simpl; rewrite length_app; simpl;
      rewrite ?length_alter; subst pc; simpl; lia. }
  assert (closed (this w1) = false) as Hc1 by (rewrite Hw1; by destruct_world w).
  assert (queue w1 = Some []) as Hq1.
  { rewrite Hw1. destruct_world w. unfold queue; simpl. by rewrite lookup_fresh. }
  assert (w2 = called os w1 ∧ ps = ids os (length (promises w1))) as [Hw2 Hps].
  { subst w2 ps. by rewrite calls_enqueue by (by rewrite ?Hq1). }
  clearbody w1 w2 ps. subst w1 w2 ps.
  split. { destruct_world w. subst. unfold _commit; simpl. by rewrite Hq. }
  destruct_world w. subst. subst pc b. unfold called, queue in *; simpl in *.
  rewrite !length_app, ?length_alter in *. simpl in *.
  split. { by rewrite lookup_app_l. }
  split; [done|]. split; [by rewrite lookup_fresh|].
  split; [lia|]. split; [lia|]. split; [lia|].
  split. { apply lookup_ge_None. lia. }
  split. { destruct st; simpl.
           - by rewrite (lookup_after w_ps [] (mkPromise None [])).
           - rewrite <- (length_alter (add_reactions [RResume k]) w_ps w_db).
             by rewrite (lookup_after _ [] (mkPromise None [])). }
  split; [done|].
  split. { intros rs' Hrs. rewrite Hd in Hrs. inversion Hrs; subst. simpl.
           rewrite lookup_app_l by (by rewrite length_alter).
           by rewrite list_lookup_alter_eq, Hd, app_nil_r. }
  split. { intros o rs' Hrs. rewrite Hd in Hrs. by inversion Hrs; subst. }
  rewrite alter_fresh. simpl.
  split. { by rewrite lookup_app_l. }
  split. { by rewrite lookup_fresh. }
  split; [done|].
  split. { intros p Hp. apply elem_of_app; right. by eapply then_jobs_write. }
  intros -> d. unfold resolve_with_promise; simpl.
  destruct (_ !! length w_ps) as [[[?|] ?]|]; simpl.
  all: rewrite lookup_app_l, Hq by done; simpl.
  all: done.
Qed.

Lemma commit_swaps_queue_witness :
  queue (_commit (enqueued [OSet "a" (VNum 1)] (opened "kv" None None))).2 = Some [] ∧
  arrays (_commit (enqueued [OSet "a" (VNum 1)] (opened "kv" None None))).2 !! 0
  = Some [ASet "a" (VNum 1)].
Proof.
  destruct (commit_swaps_queue (enqueued [OSet "a" (VNum 1)] (opened "kv" None None))
              0 (ASet "a" (VNum 1)) [] [])
    as (_ & Hs & _ & Hq & _); [reflexivity|reflexivity|reflexivity|cbn; lia|].
  exact (conj Hq Hs).
Defined.

(** ** A failed open request *)

Lemma reject_queue e os : ∀ b pre post w,
  promises w = pre ++ segment Unserved b os (length pre) ++ post →
  foldl (reject_action e) w (acts os (length pre))
  = set_jobs (jobs w ++ get_jobs (Rejected e) os (length pre))
      (set_promises (pre ++ segment (HalfRefused e) b os (length pre) ++ post) w).
Proof.
  induction os as [|o os IH]; intros b pre post w Hp.
  - destruct_world w. subst. simpl. by rewrite app_nil_r.
  - assert (length (pre ++ cells (HalfRefused e) b o (length pre)) = length pre + width o)
      as Hlen by (by rewrite length_app, length_cells).
    cbn [acts foldl segment get_jobs]. rewrite <- Hlen.
    rewrite (IH b (pre ++ cells (HalfRefused e) b o (length pre)) post).
    + destruct_world w. subst. destruct o; simpl.
      * unfold settle; simpl. rewrite lookup_after. simpl.
        by rewrite <- !app_assoc.
      * by rewrite <- !app_assoc.
      * by rewrite <- !app_assoc.
    + rewrite Hlen. destruct_world w. subst. destruct o; simpl.
      * unfold settle; simpl. rewrite lookup_after. simpl.
        by rewrite insert_after, <- !app_assoc.
      * by rewrite <- !app_assoc.
      * by rewrite <- !app_assoc.
Qed.

Lemma drain_get_jobs e os : ∀ b pre post js w,
  promises w = pre ++ segment (HalfRefused e) b os (length pre) ++ post →
  jobs w = get_jobs (Rejected e) os (length pre) ++ js →
  drain (length (get_jobs (Rejected e) os (length pre))) w
  = set_jobs js (set_promises (pre ++ segment (Refused e) b os (length pre) ++ post) w).
Proof.
  induction os as [|o os IH]; intros b pre post js w Hp Hj.
  - destruct_world w. by subst.
  - assert (length (pre ++ cells (Refused e) b o (length pre)) = length pre + width o)
      as Hlen by (by rewrite length_app, length_cells).
    cbn [segment get_jobs] in *. rewrite <- Hlen in *.
    destruct o as [k|k v|k]; cbn [get_job app length drain] in *.
    + rewrite Hj. cbn [run_job].
      erewrite settle_pending;
        [|destruct_world w; subst; cbn [promises set_jobs cells app];
          rewrite <- ?app_assoc; cbn [app]; apply lookup_at].
      erewrite (IH b (pre ++ cells (Refused e) b (OGet k) (length pre)) post js).
      * destruct_world w. subst. by rewrite <- !app_assoc.
      * destruct_world w. subst. cbn [promises set_jobs set_promises cells app].
        rewrite <- !app_assoc. cbn [app]. by rewrite insert_at.
      * destruct_world w. subst. cbn [jobs set_jobs set_promises map]. by rewrite app_nil_r.
    + rewrite (IH b (pre ++ cells (Refused e) b (OSet k v) (length pre)) post js w).
      * by rewrite <- !app_assoc.
      * rewrite Hp. by rewrite <- !app_assoc.
      * done.
    + rewrite (IH b (pre ++ cells (Refused e) b (ODelete k) (length pre)) post js w).
      * by rewrite <- !app_assoc.
      * rewrite Hp. by rewrite <- !app_assoc.
      * done.
Qed.

Lemma length_get_jobs_adopters o os n :
  length (get_jobs o os n) + length (adopters os n) = length os.
Proof.
  revert n; induction os as [|op os IH]; intros n; simpl; [done|].
  rewrite !length_app. specialize (IH (n + width op)). destruct op; simpl in *; lia.
Qed.

Lemma open_failure_turn name interval data os e fuel :
  length os < fuel →
  deliver fuel (OpenError e) (enqueued os (constructor name interval data))
  = Some (failed e os name interval data).
Proof.
  intros Hf. unfold deliver, handle. cbn [conn enqueued constructor set_promises set_arrays
    _startBatchTimer new_promise emit set_this await then_ with_db with_actions with_closed
    with_batch with_batchTimer promises lookup list_lookup length app this db].
  cbn.
  erewrite (reject_queue e os None [_; _; _] []); [|cbn; by rewrite app_nil_r].
  cbn.
  apply (quiesce_exact (length (get_jobs (Rejected e) os 3) + (length (adopters os 3) + 1))).
  - rewrite drain_add.
    erewrite (drain_get_jobs e os None [_; _; _] []);
      [|cbn; reflexivity|cbn; rewrite <- app_assoc; reflexivity].
    cbn. rewrite drain_add.
    erewrite (drain_adopters os (Refused e) (Rejected e) [_; _; _] []);
      [|cbn; reflexivity|cbn; reflexivity].
    cbn. by rewrite !app_nil_r.
  - done.
  - pose proof (length_get_jobs_adopters (Rejected e) os 3). lia.
Qed.

Lemma constructor_accepting name interval data : accepting (constructor name interval data).
Proof. by split. Qed.

Lemma segment_refused e os n :
  segment (Refused e) (Some (Rejected e)) os n
  = replicate (span os) (mkPromise (Some (Rejected e)) []).
Proof.
  revert n; induction os as [|o os IH]; intros n; simpl; [done|].
  rewrite IH. by destruct o.
Qed.

Lemma ids_bound os n p : p ∈ ids os n → n ≤ p < n + span os.
Proof.
  revert n; induction os as [|o os IH]; intros n; simpl.
  - by intros ?%elem_of_nil.
  - intros [->|Hp%IH]%elem_of_cons; destruct o; simpl in *; lia.
Qed.

Lemma acts_get_bound os n k res rej :
  AGet k res rej ∈ acts os n → rej = res ∧ n < res < n + span os.
Proof.
  revert n; induction os as [|o os IH]; intros n; simpl.
  - by intros ?%elem_of_nil.
  - intros [Ha|Hp%IH]%elem_of_cons.
    + destruct o; simpl in *; inversion Ha; subst. lia.
    + destruct o; simpl in *; lia.
Qed.

Lemma failed_rejected e os name interval data p :
  p < 3 + span os → rejected (failed e os name interval data) p e.
Proof.
  intros Hp. unfold rejected, state_of, failed. cbn [promises].
  rewrite segment_refused.
  change ([mkPromise (Some (Rejected e)) []; mkPromise (Some (Rejected e)) [];
           mkPromise (Some (Rejected e)) []])
    with (replicate 3 (mkPromise (Some (Rejected e)) [])).
  rewrite <- replicate_add. by rewrite lookup_replicate_2.
Qed.

(** C6: the open request fails with [e] after the calls [os] (made while
    the database was opening).  The instance is then closed and its queue is
    null; the promise of every call so far is rejected with [e]: the
    completion of every [get] in the queue, and the batch outcome promise and
    with it every [set] and [delete]; every later [get], [set] and [delete] is
    refused. *)
Theorem open_failure_rejects_all name interval data os e fuel :
  length os < fuel →
  ∃ ps w1 w2,
    invoke_all fuel (op_call <$> os) (constructor name interval data) = Some (ps, w1) ∧
    length ps = length os ∧
    deliver fuel (OpenError e) w1 = Some w2 ∧
    closed (this w2) = true ∧ queue w2 = None ∧ conn w2 = Failed ∧
    rejected w2 (_batchPromise (this w1)) e ∧
    rejected w2 (db (this w1)) e ∧
    (∀ p, p ∈ ps → rejected w2 p e) ∧
    (∀ k res rej, AGet k res rej ∈ default [] (queue w1) → rej = res ∧ rejected w2 res e) ∧
    (∀ k v, refused (CGet k) w2 ∧ refused (CSet k v) w2 ∧ refused (CDelete k) w2).
Proof.
  intros Hf.
  exists (ids os 3), (enqueued os (constructor name interval data)),
         (failed e os name interval data).
  split; [apply (invoke_all_enqueue os (constructor name interval data));
          [apply constructor_accepting|lia]|].
  split; [apply length_ids|].
  split; [by apply open_failure_turn|].
  split; [done|]. split; [done|]. split; [done|].
  split; [apply failed_rejected; cbn; lia|].
  split; [apply failed_rejected; cbn; lia|].
  split. { intros p Hp%ids_bound. apply failed_rejected. lia. }
  split. { intros k res rej Ha.
           rewrite (queue_enqueued os (constructor name interval data) []) in Ha by done.
           apply acts_get_bound in Ha as [-> Hb]. split; [done|].
           apply failed_rejected. cbn in Hb. lia. }
  intros k v. split; [|split].
  - by apply (refused_when_closed (OGet k)).
  - by apply (refused_when_closed (OSet k v)).
  - by apply (refused_when_closed (ODelete k)).
Qed.

Lemma open_failure_rejects_all_witness :
  ∃ ps w1 w2,
    invoke_all 4 (op_call <$> [OGet "a"; OSet "b" (VNum 1)]) (constructor "kv" None None)
    = Some (ps, w1) ∧
    deliver 4 (OpenError (VDOMException "UnknownError")) w1 = Some w2 ∧
    closed (this w2) = true ∧
    (∀ p, p ∈ ps → rejected w2 p (VDOMException "UnknownError")).
Proof.
  destruct (open_failure_rejects_all "kv" None None [OGet "a"; OSet "b" (VNum 1)]
              (VDOMException "UnknownError") 4)
    as (ps & w1 & w2 & H1 & _ & H2 & H3 & _ & _ & _ & _ & H4 & _); [cbn [length]; lia|].
  exists ps, w1, w2. exact (conj H1 (conj H2 (conj H3 H4))).
Defined.

(** ** Closing after a failed open request *)

Lemma drain_S n w j js :
  jobs w = j :: js → drain (S n) w = drain n (run_job j (set_jobs js w)).
Proof. intros Hj. simpl. by rewrite Hj. Qed.

Ltac step_job := erewrite drain_S by (cbn [jobs]; reflexivity).

Lemma close_rejected_timer w e rs fuel :
  jobs w = [] →
  promises w !! _batchTimer (this w) = Some (mkPromise (Some (Rejected e)) rs) →
  0 < fuel →
  invoke fuel CClose w
  = Some (length (promises w),
          set_this (with_closed true)
            (set_promises (promises w ++ [mkPromise (Some (Rejected e)) []]) w)).
Proof.
  intros Hj Ht Hf.
  pose proof (lookup_lt_Some _ _ _ Ht) as Hlt.
  unfold invoke. destruct_world w. subst.
  cbn [call close new_promise set_promises set_this with_closed promises this
       _batchTimer].
  unfold await, then_. cbn [promises].
  rewrite lookup_app_l, Ht by done.
  cbn [set_jobs jobs app mbind option_bind].
  erewrite (quiesce_exact 1); [reflexivity| |reflexivity|lia].
  step_job. cbn [set_jobs run_job resume close_resume_timer].
  erewrite settle_pending; [|cbn [promises]; apply lookup_fresh].
  cbn [set_jobs set_promises jobs promises map app drain]. by rewrite insert_fresh.
Qed.

Lemma destroy_rejected_timer w e rs fuel :
  jobs w = [] →
  promises w !! _batchTimer (this w) = Some (mkPromise (Some (Rejected e)) rs) →
  1 < fuel →
  invoke fuel CDestroy w
  = Some (length (promises w),
          set_this (with_closed true)
            (set_promises (promises w ++ [mkPromise (Some (Rejected e)) [];
                                          mkPromise (Some (Rejected e)) []]) w)).
Proof.
  intros Hj Ht Hf.
  pose proof (lookup_lt_Some _ _ _ Ht) as Hlt.
  unfold invoke. destruct_world w. subst.
  cbn [call destroy close new_promise set_promises set_this with_closed promises this
       _batchTimer].
  unfold await. unfold then_ at 2. cbn [promises].
  rewrite !lookup_app_l, Ht by (rewrite ?length_snoc; lia).
  cbn [set_jobs jobs app promises]. unfold then_. cbn [promises]. rewrite lookup_fresh.
  cbn [set_promises]. rewrite alter_fresh.
  cbn [mbind option_bind add_reactions pstate reactions app].
  erewrite (quiesce_exact 2); [reflexivity| |reflexivity|lia].
  step_job. cbn [set_jobs run_job resume close_resume_timer].
  erewrite settle_pending; [|cbn [promises]; apply lookup_fresh].
  cbn [set_jobs set_promises jobs promises map app]. rewrite insert_fresh.
  step_job. cbn [set_jobs run_job resume destroy_resume_close].
  erewrite settle_pending; [|cbn [promises]; rewrite <- app_assoc; apply lookup_at].
  cbn [set_jobs set_promises jobs promises map app drain].
  rewrite <- app_assoc. cbn [app]. by rewrite insert_at.
Qed.

(** C10: the open request has failed with [e].  A [close] made afterwards is
    rejected with [e] at its first [await]: no timer is cleared, no commit is
    entered and the connection is not closed.  A [destroy] is rejected with
    [e] in the same way and never asks for the database to be deleted. *)
Theorem close_after_failed_open name interval data os e fuel :
  length os < fuel → 1 < fuel →
  ∃ ps w1 w2 pc w3 pd w4,
    invoke_all fuel (op_call <$> os) (constructor name interval data) = Some (ps, w1) ∧
    deliver fuel (OpenError e) w1 = Some w2 ∧
    rejected w2 (_batchTimer (this w2)) e ∧ rejected w2 (db (this w2)) e ∧
    invoke fuel CClose w2 = Some (pc, w3) ∧
    rejected w3 pc e ∧ trace w3 = [TOpen name] ∧ conn w3 = Failed ∧
    invoke fuel CDestroy w2 = Some (pd, w4) ∧
    rejected w4 pd e ∧ trace w4 = [TOpen name] ∧ deletions w4 = [] ∧
    database w4 = data.
Proof.
  intros Hf Hf2.
  set (w2 := failed e os name interval data).
  assert (promises w2 !! _batchTimer (this w2) = Some (mkPromise (Some (Rejected e)) [])) as Ht
    by done.
  exists (ids os 3), (enqueued os (constructor name interval data)), w2.
  eexists _, _, _, _.
  split; [apply (invoke_all_enqueue os (constructor name interval data));
          [apply constructor_accepting|lia]|].
  split; [by apply open_failure_turn|].
  split; [done|]. split; [done|].
  split; [by eapply close_rejected_timer; [|exact Ht|lia]|].
  split. { unfold rejected, state_of. cbn [promises set_this set_promises w2 failed]. 
           by rewrite lookup_fresh. }
  split; [done|]. split; [done|].
  split; [by eapply destroy_rejected_timer; [|exact Ht|lia]|].
  split. { unfold rejected, state_of. cbn [promises set_this set_promises w2 failed].
           by rewrite lookup_at. }
  done.
Qed.

Lemma close_after_failed_open_witness :
  ∃ ps w1 w2 pc w3 pd w4,
    invoke_all 3 (op_call <$> [OSet "a" (VNum 1)]) (constructor "kv" None None)
    = Some (ps, w1) ∧
    deliver 3 (OpenError (VDOMException "UnknownError")) w1 = Some w2 ∧
    invoke 3 CClose w2 = Some (pc, w3) ∧
    rejected w3 pc (VDOMException "UnknownError") ∧
    invoke 3 CDestroy w2 = Some (pd, w4) ∧
    rejected w4 pd (VDOMException "UnknownError") ∧ deletions w4 = [].
Proof.
  destruct (close_after_failed_open "kv" None None [OSet "a" (VNum 1)]
              (VDOMException "UnknownError") 3)
    as (ps & w1 & w2 & pc & w3 & pd & w4 & H1 & H2 & _ & _ & H3 & H4 & _ & _ & H5 & H6 & _ & H7 & _);
    [cbn [length]; lia|lia|].
  exists ps, w1, w2, pc, w3, pd, w4.
  exact (conj H1 (conj H2 (conj H3 (conj H4 (conj H5 (conj H6 H7)))))).
Defined.

(** ** The continuations of [close] and [destroy] *)

Ltac destruct_world_hyps w :=
  destruct w as [[w_sn w_bi w_db w_acts w_cl w_bp w_res w_rej w_bt]
                 w_ps w_arrs w_js w_ivs w_nm w_cn w_dat w_txs w_dels w_tr];
  simpl in * |-.

Lemma lookup_at2 {A} (l m k : list A) (x : A) :
  (l ++ m ++ x :: k) !! (length l + length m) = Some x.
Proof. rewrite app_assoc, <- length_app. apply lookup_at. Qed.

Lemma insert_at2 {A} (l m k : list A) (x y : A) :
  <[length l + length m := y]> (l ++ m ++ x :: k) = l ++ m ++ y :: k.
Proof. by rewrite app_assoc, <- length_app, insert_at, <- app_assoc. Qed.

(** [close] resumed after [await this._batchTimer], on an empty queue: the
    timer is cleared, the final commit returns at once and the connection is
    closed; what waits on the [close] call is left to run. *)
Lemma close_chain_empty W P mid rpc pc t delay active r d rs :
  jobs W = [JReact (RResume (KCloseTimer pc)) (Fulfilled (VTimer t))] →
  promises W = P ++ mid ++ [mkPromise None rpc] → pc = length P + length mid →
  intervals W !! t = Some (delay, active) →
  _actions (this W) = Some r → arrays W !! r = Some [] →
  P !! db (this W) = Some (mkPromise (Some (Fulfilled d)) rs) →
  drain 3 W
  = set_jobs ((λ r, JReact r (Fulfilled VUndefined)) <$> rpc)
      (set_promises (P ++ mid ++ [mkPromise (Some (Fulfilled VUndefined)) [];
                                  mkPromise (Some (Fulfilled VUndefined)) []])
         (set_conn ConnClosed
            (set_intervals (<[t := (delay, false)]> (intervals W))
               (emit TDbClose (emit TCommit (emit (TClearInterval (VTimer t)) W)))))).
Proof.
  intros Hj Hp -> Hi Ha Hq Hd.
  pose proof (lookup_lt_Some _ _ _ Hd) as Hlt.
  destruct_world_hyps W. subst.
  step_job. cbn [set_jobs run_job resume close_resume_timer clearInterval emit intervals].
  rewrite Hi. cbn [set_intervals].
  unfold _commit. cbn [new_promise promises set_promises emit this _actions arrays].
  rewrite Hq.
  erewrite settle_pending; [|cbn [promises]; apply lookup_fresh].
  cbn [set_jobs set_promises jobs promises map app]. rewrite insert_fresh.
  unfold await, then_. cbn [promises]. rewrite lookup_fresh. cbn [set_jobs jobs app].
  step_job. cbn [set_jobs run_job resume close_resume_commit this db].
  unfold await, then_. cbn [promises].
  rewrite !lookup_app_l, Hd by (rewrite ?length_app; lia). cbn [set_jobs jobs app].
  step_job. cbn [set_jobs run_job resume close_resume_db set_conn emit].
  erewrite settle_pending;
    [|cbn [promises]; rewrite <- !app_assoc; cbn [app]; apply lookup_at2].
  cbn [set_jobs set_promises jobs promises map app drain].
  rewrite <- !app_assoc. cbn [app]. by rewrite insert_at2.
Qed.

Lemma lookup_past {A} (l m k : list A) i :
  (l ++ m ++ k) !! (length l + length m + i) = k !! i.
Proof.
  rewrite app_assoc, <- length_app, lookup_app_r by lia.
  f_equal. lia.
Qed.

Lemma alter_past {A} (f : A → A) (l m k : list A) i :
  alter f (length l + length m + i) (l ++ m ++ k) = l ++ m ++ alter f i k.
Proof.
  rewrite app_assoc, <- length_app, alter_app_r_alt by lia.
  rewrite <- app_assoc. do 2 f_equal.
  by replace (length (l ++ m) + i - length (l ++ m)) with i by lia.
Qed.

Lemma insert_past {A} (l m k : list A) i x :
  <[length l + length m + i := x]> (l ++ m ++ k) = l ++ m ++ <[i := x]> k.
Proof. by rewrite !list_insert_alter, alter_past. Qed.

Lemma lookup_past_1 {A} (l m k : list A) x0 x1 :
  (l ++ m ++ x0 :: x1 :: k) !! (length l + length m + 1) = Some x1.
Proof. by rewrite lookup_past. Qed.

Lemma lookup_past_2 {A} (l m k : list A) x0 x1 x2 :
  (l ++ m ++ x0 :: x1 :: x2 :: k) !! (length l + length m + 2) = Some x2.
Proof. by rewrite lookup_past. Qed.

Lemma lookup_past_3 {A} (l m k : list A) x0 x1 x2 x3 :
  (l ++ m ++ x0 :: x1 :: x2 :: x3 :: k) !! (length l + length m + 3) = Some x3.
Proof. by rewrite lookup_past. Qed.

Lemma alter_past_1 {A} (f : A → A) (l m k : list A) x0 x1 :
  alter f (length l + length m + 1) (l ++ m ++ x0 :: x1 :: k) = l ++ m ++ x0 :: f x1 :: k.
Proof. by rewrite alter_past. Qed.

Lemma alter_past_3 {A} (f : A → A) (l m k : list A) x0 x1 x2 x3 :
  alter f (length l + length m + 3) (l ++ m ++ x0 :: x1 :: x2 :: x3 :: k)
  = l ++ m ++ x0 :: x1 :: x2 :: f x3 :: k.
Proof. by rewrite alter_past. Qed.

(** [close] resumed after [await this._batchTimer], on a queue that holds
    actions: the timer is cleared and the final commit opens its
    transaction; the [close] call waits for that commit. *)
Lemma close_chain_batch W P mid rpc pc t delay active r a q d rs :
  jobs W = [JReact (RResume (KCloseTimer pc)) (Fulfilled (VTimer t))] →
  promises W = P ++ mid ++ [mkPromise None rpc] → pc = length P + length mid →
  intervals W !! t = Some (delay, active) →
  _actions (this W) = Some r → arrays W !! r = Some (a :: q) →
  P !! db (this W) = Some (mkPromise (Some (Fulfilled d)) rs) →
  conn W = Open →
  drain 3 W
  = set_jobs []
      (set_txns (txns W ++ [mkTxn (request_of <$> (a :: q)) TxActive None
                              (Some (mkHandlers (_resolveBatch (this W)) (_rejectBatch (this W))
                                       (pc + 3)))])
         (set_promises (P ++ mid ++ [mkPromise None rpc;
                                     mkPromise None [RResume (KCloseCommit pc)];
                                     mkPromise None [];
                                     mkPromise None [RAdopt (pc + 1)]])
            (set_this (with_batch (pc + 2) (pc + 2) (pc + 2))
               (set_this (with_actions (Some (length (arrays W))))
                  (set_arrays (arrays W ++ [[]])
                     (set_intervals (<[t := (delay, false)]> (intervals W))
                        (emit (TTransaction (length (txns W)))
                           (emit TCommit (emit (TClearInterval (VTimer t)) W))))))))).
Proof.
  intros Hj Hp -> Hi Ha Hq Hd Hc.
  pose proof (lookup_lt_Some _ _ _ Hd) as Hlt.
  pose proof (lookup_lt_Some _ _ _ Hq) as Hr.
  destruct_world_hyps W. subst.
  step_job. cbn [set_jobs run_job resume close_resume_timer clearInterval emit intervals].
  rewrite Hi. cbn [set_intervals].
  unfold _commit. cbn [new_promise promises set_promises emit this _actions arrays].
  rewrite Hq.
  cbn [set_arrays set_this with_actions with_batch this _resolveBatch _rejectBatch arrays
       new_promise promises set_promises db].
  unfold await, then_. cbn [promises].
  rewrite !lookup_app_l, Hd by (rewrite ?length_app; simpl; lia).
  cbn [set_jobs jobs app promises].
  rewrite <- !app_assoc. cbn [app].
  assert (∀ k x, length (P ++ mid ++ x :: k) = length P + length mid + S (length k)) as Hlen
    by (intros; rewrite !length_app; simpl; lia).
  rewrite !Hlen. cbn [length].
  rewrite lookup_past_1, alter_past_1.
  unfold add_reactions. cbn [pstate reactions app set_promises].
  step_job. cbn [set_jobs run_job resume commit_resume conn emit txns new_promise promises
                 set_promises set_txns arrays].
  rewrite lookup_app_l, Hq by done. cbn [default].
  unfold resolve_with_promise. cbn [promises].
  rewrite <- !app_assoc. cbn [app]. rewrite lookup_past_1. cbn [set_jobs jobs app].
  rewrite !Hlen. cbn [length].
  step_job. cbn [set_jobs run_job]. unfold then_. cbn [promises].
  rewrite lookup_past_3, alter_past_3.
  unfold add_reactions.
  cbn [pstate reactions app set_promises drain
       set_jobs set_txns set_this with_batch with_actions set_arrays set_intervals emit
       txns this _resolveBatch _rejectBatch arrays intervals].
  reflexivity.
Qed.

Lemma insert_past_2 {A} (l m k : list A) x0 x1 x2 y :
  <[length l + length m + 2 := y]> (l ++ m ++ x0 :: x1 :: x2 :: k)
  = l ++ m ++ x0 :: x1 :: y :: k.
Proof. by rewrite insert_past. Qed.

(** The handlers of the transaction, with further promises [mid] made
    between the calls of the batch and the commit. *)
Lemma settle_batch_drain_mid w pre g os mid rc cb pb o c :
  promises w = pre ++ segment g None os (length pre) ++ mid
                   ++ [mkPromise None rc; cb; mkPromise None [RAdopt c]] →
  c = length pre + span os + length mid →
  pre !! pb = Some (mkPromise None (adopters os (length pre))) →
  jobs w = [] →
  drain (length (adopters os (length pre)) + 1)
    (settle (c + 2) (Fulfilled VUndefined) (settle pb o w))
  = set_jobs ((λ r, JReact r (Fulfilled VUndefined)) <$> rc)
      (set_promises (<[pb := mkPromise (Some o) []]> pre ++ segment g (Some o) os (length pre)
                     ++ mid ++ [mkPromise (Some (Fulfilled VUndefined)) []; cb;
                                mkPromise (Some (Fulfilled VUndefined)) []]) w).
Proof.
  intros Hp -> Hb Hj. pose proof (lookup_lt_Some _ _ _ Hb) as Hlt.
  rewrite drain_add.
  destruct_world_hyps w. subst.
  erewrite (settle_pending _ pb); [|cbn [promises]; by rewrite lookup_app_l].
  cbn [set_promises set_jobs jobs promises app].
  rewrite insert_app_l by done.
  set (pre' := <[pb := mkPromise (Some o) []]> pre).
  assert (length pre' = length pre) as Hlen by apply length_insert.
  rewrite <- Hlen.
  assert (∀ b, length pre' + span os = length (pre' ++ segment g b os (length pre'))) as Hix
    by (intros; rewrite length_app, length_segment; lia).
  rewrite (Hix None), (app_assoc pre').
  erewrite settle_pending; [|cbn [promises]; apply lookup_past_2].
  cbn [set_promises set_jobs jobs promises app map]. rewrite insert_past_2.
  rewrite <- (app_assoc pre').
  erewrite drain_adopters; [|reflexivity|reflexivity].
  cbn [set_promises set_jobs]. step_job. cbn [set_jobs run_job].
  rewrite length_app, length_segment, (Hix (Some o)), (app_assoc pre').
  erewrite settle_pending; [|cbn [promises]; apply lookup_at2].
  cbn [set_promises set_jobs jobs promises app map drain].
  by rewrite insert_at2, <- (app_assoc pre').
Qed.

(** ** Closing and destroying a running instance *)

Lemma running_lookups w t delay os :
  running w t delay →
  let pre := alter (add_reactions (adopters os (length (promises w))))
               (_batchPromise (this w)) (promises w) in
  length pre = length (promises w) ∧
  _batchPromise (this w) < length (promises w) ∧
  pre !! _batchPromise (this w)
  = Some (mkPromise None (adopters os (length (promises w)))) ∧
  (∃ rs, pre !! _batchTimer (this w) = Some (mkPromise (Some (Fulfilled (VTimer t))) rs)) ∧
  (∃ d rs, pre !! db (this w) = Some (mkPromise (Some (Fulfilled d)) rs)).
Proof.
  intros [[Hj Hc Hq Hb Hres Hrej Hcn [d Hdb] Hdat Htx] Ht Hi] pre.
  apply settled_lookup in Ht as [rt Ht]. apply settled_lookup in Hdb as [rd Hdb].
  pose proof (lookup_lt_Some _ _ _ Hb) as Hlt.
  split; [apply length_alter|]. split; [done|].
  split. { subst pre. by rewrite list_lookup_alter_eq, Hb. }
  split.
  - exists rt. subst pre. rewrite list_lookup_alter_ne; [done|].
    intros Heq. rewrite Heq in Hb. by rewrite Hb in Ht.
  - exists d, rd. subst pre. rewrite list_lookup_alter_ne; [done|].
    intros Heq. rewrite Heq in Hb. by rewrite Hb in Hdb.
Qed.

(** [close] after the calls [os]: the first turn. *)
Lemma call_close_batch w t delay os :
  running w t delay → os ≠ [] →
  (call CClose (enqueued os w)).1 = length (promises w) + span os ∧
  drain 3 (call CClose (enqueued os w)).2
  = closing os Unserved [] [] t delay (database w)
      (mkTxn (request_of <$> acts os (length (promises w))) TxActive None
         (close_handlers os [] w)) w.
Proof.
  intros Hr Hos.
  destruct (running_lookups w t delay os Hr) as (Hlen & Hlt & Hb & [rt Ht] & [d [rd Hd]]).
  destruct Hr as [[Hj Hc Hq _ Hres Hrej Hcn _ Hdat Htx] _ Hi].
  unfold queue in Hq. destruct (_actions (this w)) as [r|] eqn:Ha; [simpl in Hq|done].
  pose proof (lookup_lt_Some _ _ _ Hq) as Hr.
  pose proof (lookup_lt_Some _ _ _ Ht) as Hlt2.
  destruct (acts os (length (promises w))) as [|a q] eqn:Hacts.
  { apply (f_equal length) in Hacts. rewrite length_acts in Hacts. by destruct os. }
  destruct_world_hyps w. subst.
  cbn [call close enqueued new_promise set_promises set_arrays set_this with_closed promises
       this _batchTimer _batchPromise _actions arrays default].
  unfold await, then_. cbn [promises].
  rewrite !lookup_app_l, Ht by (rewrite ?length_app; lia).
  cbn [set_jobs jobs app mbind option_bind fst snd].
  split. { rewrite length_app, length_segment. lia. }
  erewrite (close_chain_batch _ (_ ++ _) [] [] _ t delay true r a q d rd);
    [|reflexivity|reflexivity|cbn [length]; lia|exact Hi|reflexivity
     |cbn [arrays]; unfold id; by rewrite list_lookup_alter_eq, Hq, Hacts
     |cbn [this db]; rewrite lookup_app_l by (eapply lookup_lt_Some, Hd); exact Hd|reflexivity].
  unfold closing, close_handlers.
  cbn [set_jobs set_txns set_promises set_this set_arrays set_intervals emit with_batch
       with_actions with_closed this txns arrays intervals promises _resolveBatch
       _rejectBatch _batchPromise _actions default length app database].
  rewrite !length_app, !length_alter, length_segment, Hacts, <- !app_assoc.
  cbn [length app]. rewrite !Nat.add_0_r. reflexivity.
Qed.

(** The end of [close]: the final commit is done. *)
Lemma close_finish W P mid rpc k pc d rs :
  jobs W = [JReact (RResume (KCloseCommit pc)) (Fulfilled VUndefined)] →
  promises W = P ++ mid ++ mkPromise None rpc :: k → pc = length P + length mid →
  P !! db (this W) = Some (mkPromise (Some (Fulfilled d)) rs) →
  drain 2 W
  = set_jobs ((λ r, JReact r (Fulfilled VUndefined)) <$> rpc)
      (set_promises (P ++ mid ++ mkPromise (Some (Fulfilled VUndefined)) [] :: k)
         (set_conn ConnClosed (emit TDbClose W))).
Proof.
  intros Hj Hp -> Hd.
  pose proof (lookup_lt_Some _ _ _ Hd) as Hlt.
  destruct_world_hyps W. subst.
  step_job. cbn [set_jobs run_job resume close_resume_commit this db].
  unfold await, then_. cbn [promises].
  rewrite lookup_app_l, Hd by done. cbn [set_jobs jobs app].
  step_job. cbn [set_jobs run_job resume close_resume_db set_conn emit].
  erewrite settle_pending; [|cbn [promises]; apply lookup_at2].
  cbn [set_jobs set_promises jobs promises map app drain].
  by rewrite insert_at2.
Qed.

(** [destroy] after its [close]: the request to delete the database. *)
Lemma destroy_chain W P mid k pd name rs :
  jobs W = [JReact (RResume (KDestroyClose pd)) (Fulfilled VUndefined)] →
  promises W = P ++ mid ++ mkPromise None [] :: k → pd = length P + length mid →
  P !! db (this W) = Some (mkPromise (Some (Fulfilled (VDatabase name))) rs) →
  drain 3 W = erasing name pd W.
Proof.
  intros Hj Hp -> Hd.
  pose proof (lookup_lt_Some _ _ _ Hd) as Hlt.
  destruct_world_hyps W. subst.
  step_job. cbn [set_jobs run_job resume destroy_resume_close this db].
  unfold await, then_. cbn [promises].
  rewrite lookup_app_l, Hd by done. cbn [set_jobs jobs app].
  step_job. cbn [set_jobs run_job resume destroy_resume_db emit new_promise promises
                 set_promises set_deletions deletions].
  unfold resolve_with_promise. cbn [promises].
  rewrite (lookup_app_l (P ++ mid ++ _)), lookup_at2
    by (rewrite !length_app; cbn [length]; lia).
  cbn [set_jobs jobs app].
  step_job. cbn [set_jobs run_job]. unfold then_. cbn [promises].
  rewrite lookup_fresh, alter_fresh. cbn [set_promises drain].
  reflexivity.
Qed.

(** [destroy] after the calls [os]: the first turn. *)
Lemma call_destroy_batch w t delay os :
  running w t delay → os ≠ [] →
  (call CDestroy (enqueued os w)).1 = length (promises w) + span os ∧
  drain 3 (call CDestroy (enqueued os w)).2
  = closing os Unserved [mkPromise None []]
      [RResume (KDestroyClose (length (promises w) + span os))] t delay (database w)
      (mkTxn (request_of <$> acts os (length (promises w))) TxActive None
         (close_handlers os [mkPromise None []] w)) w.
Proof.
  intros Hr Hos.
  destruct (running_lookups w t delay os Hr) as (Hlen & Hlt & Hb & [rt Ht] & [d [rd Hd]]).
  destruct Hr as [[Hj Hc Hq _ Hres Hrej Hcn _ Hdat Htx] _ Hi].
  unfold queue in Hq. destruct (_actions (this w)) as [r|] eqn:Ha; [simpl in Hq|done].
  pose proof (lookup_lt_Some _ _ _ Hq) as Hr.
  pose proof (lookup_lt_Some _ _ _ Ht) as Hlt2.
  destruct (acts os (length (promises w))) as [|a q] eqn:Hacts.
  { apply (f_equal length) in Hacts. rewrite length_acts in Hacts. by destruct os. }
  destruct_world_hyps w. subst.
  cbn [call destroy close enqueued new_promise set_promises set_arrays set_this with_closed
       promises this _batchTimer _batchPromise _actions arrays default].
  unfold await, then_. cbn [promises].
  do 3 rewrite (lookup_app_l _ _ w_bt) by (rewrite ?length_app; lia).
  rewrite Ht.
  cbn [set_jobs jobs app promises].
  rewrite lookup_fresh, alter_fresh.
  change (add_reactions [?x] (mkPromise None [])) with (mkPromise None [x]).
  cbn [set_promises pstate reactions app fst snd].
  split. { rewrite length_app, length_segment. lia. }
  erewrite (close_chain_batch _ (_ ++ _) [mkPromise None []] _ _ t delay true r a q d rd);
    [|reflexivity|cbn [promises]; by rewrite <- (app_assoc (_ ++ _))
     |by rewrite length_app|exact Hi|reflexivity
     |cbn [arrays]; unfold id; by rewrite list_lookup_alter_eq, Hq, Hacts
     |cbn [this db]; rewrite lookup_app_l by (eapply lookup_lt_Some, Hd); exact Hd|reflexivity].
  unfold closing, close_handlers.
  cbn [set_jobs set_txns set_promises set_this set_arrays set_intervals emit with_batch
       with_actions with_closed this txns arrays intervals promises _resolveBatch
       _rejectBatch _batchPromise _actions default length app database].
  rewrite !length_app, !length_alter, length_segment, Hacts, <- !app_assoc.
  cbn [length app]. reflexivity.
Qed.

(** The requests of the final commit are served. *)
Lemma closing_served os mid rpc t delay d h w fuel :
  ready w → 0 < fuel →
  deliver_all fuel (replicate (length os) (RequestSuccess (length (txns w))))
    (closing os Unserved mid rpc t delay (Some d)
       (mkTxn (request_of <$> acts os (length (promises w))) TxActive None h) w)
  = Some (closing os (Served d) mid rpc t delay (Some (apply_ops os d))
            (mkTxn [] TxActive (backup_after os d None) h) w).
Proof.
  intros Hw Hf.
  set (pre := alter (add_reactions (adopters os (length (promises w))))
               (_batchPromise (this w)) (promises w)).
  assert (length pre = length (promises w)) as Hlen by apply length_alter.
  erewrite (serve_all os None pre _ _ d None h (length (txns w)) fuel);
    [|reflexivity|unfold closing; cbn [promises]; rewrite Hlen; reflexivity
     |unfold closing; cbn [txns]; rewrite Hlen; apply lookup_fresh
     | |reflexivity|done].
  - f_equal. unfold closing. destruct_world w.
    cbn [set_promises set_database set_txns promises txns].
    by rewrite Hlen, insert_fresh.
  - pose proof (earlier_finished_snoc w
      (mkTxn (request_of <$> acts os (length (promises w))) TxActive None h)
      (rd_txns _ Hw)) as He.
    unfold earlier_finished in *. unfold closing. by destruct_world w.
Qed.

(** The transaction of the final commit has settled with [o] for the batch:
    the writes take up [o], the [_commit] call is fulfilled and [close] goes
    on to close the connection. *)
Lemma closing_settles os g mid rpc t delay dat tx w o d rs :
  promises w !! _batchPromise (this w) = Some (mkPromise None []) →
  promises w !! db (this w) = Some (mkPromise (Some (Fulfilled d)) rs) →
  drain (length (adopters os (length (promises w))) + 1 + 2)
    (settle (length (promises w) + span os + length mid + 3) (Fulfilled VUndefined)
       (settle (_batchPromise (this w)) o (closing os g mid rpc t delay dat tx w)))
  = closed_down os g o mid ((λ r, JReact r (Fulfilled VUndefined)) <$> rpc) t delay dat tx w.
Proof.
  intros Hb Hd. destruct_world_hyps w.
  pose proof (lookup_lt_Some _ _ _ Hb) as Hlt. pose proof (lookup_lt_Some _ _ _ Hd) as Hlt2.
  unfold closing, closed_down.
  cbn [promises this _batchPromise with_batch with_actions with_closed arrays intervals
       dbName conn txns deletions trace].
  set (n := length w_ps) in *.
  set (pre := alter (add_reactions (adopters os n)) w_bp w_ps).
  assert (length pre = n) as Hlen by apply length_alter.
  assert (pre !! w_bp = Some (mkPromise None (adopters os (length pre)))) as Hb2.
  { subst pre. by rewrite Hlen, list_lookup_alter_eq, Hb. }
  assert (w_db ≠ w_bp) as Hne.
  { intros Heq. rewrite Heq in Hd. by rewrite Hb in Hd. }
  rewrite drain_add.
  replace (n + span os + length mid + 3) with (n + span os + length mid + 1 + 2) by lia.
  replace (length (adopters os n)) with (length (adopters os (length pre)))
    by (by rewrite Hlen).
  erewrite (settle_batch_drain_mid _ pre g os (mid ++ [mkPromise None rpc])
              [RResume (KCloseCommit (n + span os + length mid))] (mkPromise None [])
              w_bp o (n + span os + length mid + 1));
    [|cbn [promises]; by rewrite Hlen, <- !app_assoc
     |rewrite length_app; cbn [length]; lia|exact Hb2|reflexivity].
  assert (length (<[w_bp := mkPromise (Some o) []]> pre
                  ++ segment g (Some o) os (length pre)) = n + span os) as Hlen2
    by (rewrite length_app, length_insert, length_segment; lia).
  rewrite (app_assoc _ (segment _ _ _ _)), <- (app_assoc mid). cbn [app].
  erewrite (close_finish _ _ mid rpc _ (n + span os + length mid) d rs);
    [|reflexivity|cbn [set_jobs set_promises promises]; reflexivity
     |by rewrite Hlen2
     |cbn [set_jobs set_promises this db];
      rewrite lookup_app_l by (rewrite length_insert; lia);
      rewrite list_lookup_insert_ne by done; subst pre;
      rewrite list_lookup_alter_ne by done; exact Hd].
  cbn [set_jobs set_promises set_conn emit promises trace this _batchPromise].
  subst pre. rewrite insert_alter_eq, length_alter, <- !app_assoc. reflexivity.
Qed.

(** The transaction of the final commit completes: its handler runs. *)
Lemma closing_complete os g mid rpc t delay dat bk w :
  handle (TxnComplete (length (txns w)))
    (closing os g mid rpc t delay dat (mkTxn [] TxActive bk (close_handlers os mid w)) w)
  = Some (settle (length (promises w) + span os + length mid + 3) (Fulfilled VUndefined)
            (settle (_batchPromise (this w)) (Fulfilled VUndefined)
               (closing os g mid rpc t delay dat
                  (mkTxn [] TxFinished bk (close_handlers os mid w)) w))).
Proof.
  unfold handle, closing, close_handlers. destruct_world w.
  cbn [txns promises this _batchPromise]. rewrite lookup_fresh.
  cbn [set_txns txns run_handlers txn_oncomplete h_resolveBatch h_resolve].
  by rewrite insert_fresh.
Qed.

(** The transaction of the final commit fails, with an [abort] or an [error]
    event. *)
Lemma closing_fails os g mid rpc t delay dat rqs w txerror arg (abort : bool) :
  handle (if abort then TxnAbort (length (txns w)) txerror arg
          else TxnError (length (txns w)) txerror arg)
    (closing os g mid rpc t delay dat (mkTxn rqs TxActive None (close_handlers os mid w)) w)
  = Some (settle (length (promises w) + span os + length mid + 3) (Fulfilled VUndefined)
            (settle (_batchPromise (this w)) (Rejected (js_or txerror arg))
               (closing os g mid rpc t delay dat
                  (mkTxn rqs (if abort then TxFinished else TxErred) None
                     (close_handlers os mid w)) w))).
Proof.
  unfold handle, closing, close_handlers. destruct_world w.
  destruct abort; cbn [txns promises this _batchPromise]; rewrite lookup_fresh.
  - rewrite bool_decide_false by done.
    cbn [set_txns txns run_handlers txn_onfail h_rejectBatch h_resolve].
    by rewrite insert_fresh.
  - cbn [set_txns txns run_handlers txn_onfail h_rejectBatch h_resolve].
    by rewrite insert_fresh.
Qed.

(** [close] on an empty queue: the first turn is the whole of it. *)
Lemma call_close_empty w t delay :
  running w t delay →
  (call CClose w).1 = length (promises w) ∧
  drain 3 (call CClose w).2 = shut [] [] t delay w.
Proof.
  intros [[Hj Hc Hq Hb Hres Hrej Hcn [d Hd] Hdat Htx] Ht Hi].
  apply settled_lookup in Ht as [rt Ht]. apply settled_lookup in Hd as [rd Hd].
  unfold queue in Hq. destruct (_actions (this w)) as [r|] eqn:Ha; [simpl in Hq|done].
  pose proof (lookup_lt_Some _ _ _ Ht) as Hlt2.
  destruct_world_hyps w. subst.
  cbn [call close new_promise set_promises set_this with_closed promises this _batchTimer].
  unfold await, then_. cbn [promises].
  rewrite lookup_app_l, Ht by done.
  cbn [set_jobs jobs app fst snd]. split; [reflexivity|].
  erewrite (close_chain_empty _ w_ps [] [] _ t delay true r d rd);
    [|reflexivity|reflexivity|cbn [length]; lia|exact Hi|reflexivity|exact Hq|exact Hd].
  unfold shut. simpl. by rewrite <- !app_assoc.
Qed.

(** [destroy] on an empty queue: the first turn runs [close] to its end and
    leaves [destroy] to go on. *)
Lemma call_destroy_empty w t delay :
  running w t delay →
  (call CDestroy w).1 = length (promises w) ∧
  drain 3 (call CDestroy w).2
  = shut [mkPromise None []]
      [JReact (RResume (KDestroyClose (length (promises w)))) (Fulfilled VUndefined)] t delay w.
Proof.
  intros [[Hj Hc Hq Hb Hres Hrej Hcn [d Hd] Hdat Htx] Ht Hi].
  apply settled_lookup in Ht as [rt Ht]. apply settled_lookup in Hd as [rd Hd].
  unfold queue in Hq. destruct (_actions (this w)) as [r|] eqn:Ha; [simpl in Hq|done].
  pose proof (lookup_lt_Some _ _ _ Ht) as Hlt2.
  destruct_world_hyps w. subst.
  cbn [call destroy close new_promise set_promises set_this with_closed promises this
       _batchTimer].
  unfold await, then_. cbn [promises].
  do 2 rewrite (lookup_app_l _ _ w_bt) by (rewrite ?length_app; lia).
  rewrite Ht. cbn [set_jobs jobs app promises].
  rewrite lookup_fresh, alter_fresh.
  change (add_reactions [?x] (mkPromise None [])) with (mkPromise None [x]).
  cbn [set_promises fst snd]. split; [reflexivity|].
  erewrite (close_chain_empty _ w_ps [mkPromise None []] _ _ t delay true r d rd);
    [|reflexivity|cbn [promises]; by rewrite <- app_assoc|by rewrite length_app
     |exact Hi|reflexivity|exact Hq|exact Hd].
  unfold shut. simpl. by rewrite <- !app_assoc.
Qed.

(** The answer to the request to delete the database reaches the promise of
    the [destroy] call. *)
Lemma settle_adopted W ps pd o :
  jobs W = [] → promises W = ps ++ [mkPromise None [RAdopt pd]] →
  ps !! pd = Some (mkPromise None []) →
  drain 1 (settle (length ps) o W)
  = set_promises (<[pd := mkPromise (Some o) []]> ps ++ [mkPromise (Some o) []]) W.
Proof.
  intros Hj Hp Hd. pose proof (lookup_lt_Some _ _ _ Hd) as Hlt.
  destruct_world_hyps W. subst.
  erewrite settle_pending; [|cbn [promises]; apply lookup_fresh].
  cbn [set_jobs set_promises jobs promises map app]. rewrite insert_fresh.
  step_job. cbn [set_jobs run_job].
  erewrite settle_pending; [|cbn [promises]; by rewrite lookup_app_l].
  cbn [set_jobs set_promises jobs promises map app drain].
  by rewrite insert_app_l.
Qed.

Lemma invoke_close_batch w t delay os fuel :
  running w t delay → os ≠ [] → 2 < fuel →
  invoke fuel CClose (enqueued os w)
  = Some (length (promises w) + span os,
          closing os Unserved [] [] t delay (database w)
            (mkTxn (request_of <$> acts os (length (promises w))) TxActive None
               (close_handlers os [] w)) w).
Proof.
  intros Hr Hos Hf. destruct (call_close_batch w t delay os Hr Hos) as [H1 H2].
  unfold invoke. destruct (call CClose (enqueued os w)) as [p W]. cbn [fst snd] in *.
  subst p. erewrite (quiesce_exact 3); [reflexivity|exact H2|reflexivity|lia].
Qed.

Lemma invoke_close_empty w t delay fuel :
  running w t delay → 2 < fuel →
  invoke fuel CClose w = Some (length (promises w), shut [] [] t delay w).
Proof.
  intros Hr Hf. destruct (call_close_empty w t delay Hr) as [H1 H2].
  unfold invoke. destruct (call CClose w) as [p W]. cbn [fst snd] in *.
  subst p. erewrite (quiesce_exact 3); [reflexivity|exact H2|reflexivity|lia].
Qed.

(** The final commit of [close] completes: the batch is settled and the
    connection closed. *)
Lemma close_batch_completes w t delay os g dat bk fuel :
  running w t delay → length os + 2 < fuel →
  deliver fuel (TxnComplete (length (txns w)))
    (closing os g [] [] t delay dat (mkTxn [] TxActive bk (close_handlers os [] w)) w)
  = Some (closed_down os g (Fulfilled VUndefined) [] [] t delay dat
            (mkTxn [] TxFinished bk (close_handlers os [] w)) w).
Proof.
  intros [Hw Ht Hi] Hf. destruct (rd_db _ Hw) as [d Hd].
  apply settled_lookup in Hd as [rd Hd].
  unfold deliver. rewrite closing_complete. cbn [mbind option_bind].
  apply (quiesce_exact (length (adopters os (length (promises w))) + 1 + 2)).
  - apply (closing_settles os g [] [] t delay dat _ w _ d rd (rd_batch _ Hw) Hd).
  - reflexivity.
  - pose proof (length_adopters_le os (length (promises w))). lia.
Qed.

Lemma close_batch_fails w t delay os g dat rqs txerror arg (abort : bool) fuel :
  running w t delay → length os + 2 < fuel →
  deliver fuel (if abort then TxnAbort (length (txns w)) txerror arg
                else TxnError (length (txns w)) txerror arg)
    (closing os g [] [] t delay dat (mkTxn rqs TxActive None (close_handlers os [] w)) w)
  = Some (closed_down os g (Rejected (js_or txerror arg)) [] [] t delay dat
            (mkTxn rqs (if abort then TxFinished else TxErred) None
               (close_handlers os [] w)) w).
Proof.
  intros [Hw Ht Hi] Hf. destruct (rd_db _ Hw) as [d Hd].
  apply settled_lookup in Hd as [rd Hd].
  unfold deliver. rewrite closing_fails. cbn [mbind option_bind].
  apply (quiesce_exact (length (adopters os (length (promises w))) + 1 + 2)).
  - apply (closing_settles os g [] [] t delay dat _ w _ d rd (rd_batch _ Hw) Hd).
  - reflexivity.
  - pose proof (length_adopters_le os (length (promises w))). lia.
Qed.

(** What the promises of the calls and of [close] hold at the end. *)
Lemma state_of_closed_down_id os g o mid js t delay dat tx w i op :
  os !! i = Some op →
  state_of (closed_down os g o mid js t delay dat tx w)
    (length (promises w) + span (take i os))
  = match op, g with
    | OGet k, Served d => Some (Some (Fulfilled (read (apply_ops (take i os) d) k)))
    | OGet k, Refused e => Some (Some (Rejected e))
    | OGet k, _ => Some None
    | _, _ => Some (Some o)
    end.
Proof.
  intros Ho. unfold state_of, closed_down. cbn [promises].
  rewrite <- (length_insert (promises w) (_batchPromise (this w)) (mkPromise (Some o) [])).
  rewrite (segment_lookup g (Some o) os i op _ _ Ho).
  by destruct op, g.
Qed.

Lemma state_of_closed_down_close os g o mid js t delay dat tx w :
  state_of (closed_down os g o mid js t delay dat tx w)
    (length (promises w) + span os + length mid)
  = Some (Some (Fulfilled VUndefined)).
Proof.
  unfold state_of, closed_down. cbn [promises].
  rewrite app_assoc.
  replace (length (promises w) + span os)
    with (length (<[_batchPromise (this w) := mkPromise (Some o) []]> (promises w)
                  ++ segment g (Some o) os (length (promises w))))
    by (by rewrite length_app, length_insert, length_segment).
  by rewrite lookup_at2.
Qed.

Lemma state_of_closing_close os g mid rpc t delay dat tx w :
  state_of (closing os g mid rpc t delay dat tx w)
    (length (promises w) + span os + length mid)
  = Some None.
Proof.
  unfold state_of, closing. cbn [promises].
  rewrite app_assoc.
  replace (length (promises w) + span os)
    with (length (alter (add_reactions (adopters os (length (promises w))))
                    (_batchPromise (this w)) (promises w)
                  ++ segment g None os (length (promises w))))
    by (by rewrite length_app, length_alter, length_segment).
  by rewrite lookup_at2.
Qed.

Lemma running_opened name interval data :
  running (opened name interval data) 0 (default 10%Z interval).
Proof. split; [apply ready_opened|reflexivity|reflexivity]. Qed.

Lemma close_sets_closed w : closed (this (call CClose w).2) = true.
Proof.
  destruct_world w. cbn [call close new_promise set_promises set_this with_closed this
                         promises _batchTimer].
  unfold await, then_. cbn [promises].
  destruct ((w_ps ++ [mkPromise None []]) !! w_bt) as [[[o|] rs]|]; reflexivity.
Qed.

Lemma match_cons {A B} (l : list A) (x y : B) :
  l ≠ [] → match l with [] => x | _ :: _ => y end = y.
Proof. by destruct l. Qed.

Lemma ids_fulfilled os n i o (W : World) (v : Value) :
  os !! i = Some o → state_of W (n + span (take i os)) = Some (Some (Fulfilled v)) →
  ∃ p, ids os n !! i = Some p ∧ fulfilled W p v.
Proof.
  intros Ho Hs. exists (n + span (take i os)). split; [by apply (ids_lookup os i o)|exact Hs].
Qed.

(** C4, as the code has it: [close] called on a running instance whose pending
    queue holds the calls [os].  The call itself sets [closed]; its first turn
    stops the timer and enters the final [_commit], which opens a transaction
    unless the queue is empty; the promise of [close] stays pending while that
    transaction is under way; once it has completed every call of [os] is
    settled, the connection is closed and only then is the promise of [close]
    fulfilled.  If the transaction fails instead, the writes are rejected and
    [close] is fulfilled all the same; of the [get]s nothing is said then: a
    [get] is settled by the handlers of its own request only. *)
Theorem close_settles_pending_queue w t delay os d fuel :
  running w t delay → database w = Some d → length os + 2 < fuel →
  let tid := length (txns w) in
  ∃ ps w1 pc w2 w3,
    invoke_all fuel (op_call <$> os) w = Some (ps, w1) ∧ length ps = length os ∧
    closed (this (call CClose w1).2) = true ∧
    invoke fuel CClose w1 = Some (pc, w2) ∧
    intervals w2 !! t = Some (delay, false) ∧
    trace w2 = trace w ++ [TClearInterval (VTimer t); TCommit]
                 ++ match os with [] => [TDbClose] | _ :: _ => [TTransaction tid] end ∧
    (os ≠ [] →
       pending w2 pc ∧ conn w2 = Open ∧
       ∃ w', deliver_all fuel (replicate (length os) (RequestSuccess tid)) w2 = Some w' ∧
             pending w' pc ∧ conn w' = Open) ∧
    deliver_all fuel match os with
                     | [] => []
                     | _ :: _ => replicate (length os) (RequestSuccess tid) ++ [TxnComplete tid]
                     end w2 = Some w3 ∧
    trace w3 = trace w ++ [TClearInterval (VTimer t); TCommit]
                 ++ match os with [] => [] | _ :: _ => [TTransaction tid] end ++ [TDbClose] ∧
    conn w3 = ConnClosed ∧ fulfilled w3 pc VUndefined ∧
    database w3 = Some (apply_ops os d) ∧
    (∀ i o, os !! i = Some o →
       ∃ p, ps !! i = Some p ∧
            fulfilled w3 p match o with
                           | OGet k => read (apply_ops (take i os) d) k
                           | _ => VUndefined
                           end) ∧
    (os ≠ [] → ∀ txerror arg (abort : bool),
       ∃ w4, deliver fuel (if abort then TxnAbort tid txerror arg
                           else TxnError tid txerror arg) w2 = Some w4 ∧
             fulfilled w4 pc VUndefined ∧ conn w4 = ConnClosed ∧
             ∀ p, write_of os ps p → rejected w4 p (js_or txerror arg)).
Proof.
  intros Hr Hd Hf tid. pose proof (run_ready _ _ _ Hr) as Hw.
  pose proof (lookup_lt_Some _ _ _ (run_interval _ _ _ Hr)) as Hlt.
  destruct (decide (os = [])) as [->|Hos].
  - exists [], w, (length (promises w)), (shut [] [] t delay w), (shut [] [] t delay w).
    split; [reflexivity|]. split; [reflexivity|].
    split; [apply close_sets_closed|].
    split; [apply invoke_close_empty; [done|cbn [length] in Hf; lia]|].
    split; [unfold shut; cbn [intervals]; by apply list_lookup_insert_eq|].
    split; [reflexivity|]. split; [done|]. split; [reflexivity|]. split; [reflexivity|].
    split; [reflexivity|].
    split; [unfold fulfilled, state_of, shut; cbn [promises app]; by rewrite lookup_app_r, Nat.sub_diag by lia|].
    split; [exact Hd|]. split; [intros i o Ho; by rewrite lookup_nil in Ho|done].
  - rewrite !(match_cons os) by done.
    set (n := length (promises w)).
    exists (ids os n), (enqueued os w), (n + span os),
      (closing os Unserved [] [] t delay (database w)
         (mkTxn (request_of <$> acts os n) TxActive None (close_handlers os [] w)) w),
      (closed_down os (Served d) (Fulfilled VUndefined) [] [] t delay (Some (apply_ops os d))
         (mkTxn [] TxFinished (backup_after os d None) (close_handlers os [] w)) w).
    assert (deliver_all fuel (replicate (length os) (RequestSuccess tid))
              (closing os Unserved [] [] t delay (database w)
                 (mkTxn (request_of <$> acts os n) TxActive None (close_handlers os [] w)) w)
            = Some (closing os (Served d) [] [] t delay (Some (apply_ops os d))
                      (mkTxn [] TxActive (backup_after os d None) (close_handlers os [] w)) w))
      as Hserve by (rewrite Hd; apply closing_served; [done|lia]).
    split; [apply invoke_all_enqueue; [by apply ready_accepting|lia]|].
    split; [apply length_ids|].
    split; [apply close_sets_closed|].
    split; [apply invoke_close_batch; [done|done|lia]|].
    split; [unfold closing; cbn [intervals]; by apply list_lookup_insert_eq|].
    split; [reflexivity|].
    split.
    { intros _. split; [unfold pending; rewrite <- (Nat.add_0_r (n + span os)); apply (state_of_closing_close os Unserved [])|].
      split; [unfold closing; cbn [conn]; apply (rd_conn _ Hw)|].
      eexists. split; [exact Hserve|].
      split; [unfold pending; rewrite <- (Nat.add_0_r (n + span os)); apply (state_of_closing_close os (Served d) [])|].
      unfold closing; cbn [conn]; apply (rd_conn _ Hw). }
    split.
    { rewrite deliver_all_app, Hserve. cbn [mbind option_bind deliver_all].
      rewrite (close_batch_completes w t delay os) by (done || lia). reflexivity. }
    split; [reflexivity|]. split; [reflexivity|].
    split; [unfold fulfilled; rewrite <- (Nat.add_0_r (n + span os)); apply (state_of_closed_down_close os (Served d) _ [])|].
    split; [reflexivity|].
    split.
    { intros i o Ho. apply (ids_fulfilled os n i o); [done|].
      subst n. rewrite (state_of_closed_down_id _ _ _ _ _ _ _ _ _ _ i o Ho).
      by destruct o. }
    intros _ txerror arg abort. eexists.
    split; [apply (close_batch_fails w t delay os); [done|lia]|].
    split; [unfold fulfilled; rewrite <- (Nat.add_0_r (n + span os)); apply (state_of_closed_down_close os Unserved _ [])|].
    split; [reflexivity|].
    intros p (i & o & Ho & Hg & Hp).
    rewrite (write_lookup os i o n p Ho Hp). subst n.
    unfold rejected. rewrite (state_of_closed_down_id _ _ _ _ _ _ _ _ _ _ i o Ho).
    by destruct o.
Qed.

Lemma close_settles_pending_queue_witness :
  ∃ ps w1 pc w2 w3,
    invoke_all 5 (op_call <$> [OSet "a" (VNum 1); OGet "a"]) (opened "kv" None None)
    = Some (ps, w1) ∧
    invoke 5 CClose w1 = Some (pc, w2) ∧ pending w2 pc ∧
    deliver_all 5 [RequestSuccess 0; RequestSuccess 0; TxnComplete 0] w2 = Some w3 ∧
    fulfilled w3 pc VUndefined ∧
    (∃ p, ps !! 1 = Some p ∧ fulfilled w3 p (VNum 1)).
Proof.
  destruct (close_settles_pending_queue (opened "kv" None None) 0 10
              [OSet "a" (VNum 1); OGet "a"] ∅ 5)
    as (ps & w1 & pc & w2 & w3 & Ha & _ & _ & Hb & _ & _ & Hc & Hd & _ & _ & He & _ & Hf & _);
    [apply (running_opened "kv" None None)|reflexivity|cbn [length]; lia|].
  exists ps, w1, pc, w2, w3.
  exact (conj Ha (conj Hb (conj (proj1 (Hc ltac:(discriminate)))
          (conj Hd (conj He (Hf 1 (OGet "a") eq_refl)))))).
Defined.

(** C4, the counterexample: a [set] made before [close], both before the
    database has opened.  When it opens, the start-up [_commit] takes the [set]
    into its transaction; the final [_commit] of [close] then finds the queue
    empty and returns at once, so the promise of [close] is fulfilled while
    the promise of the [set] is still pending. *)
Lemma close_resolves_before_earlier_set :
  ∃ p w1 pc w2 w3,
    invoke 10 (CSet "a" (VNum 1)) (constructor "kv" None None) = Some (p, w1) ∧
    invoke 10 CClose w1 = Some (pc, w2) ∧
    pending w2 p ∧ pending w2 pc ∧
    deliver 10 OpenSuccess w2 = Some w3 ∧
    fulfilled w3 pc VUndefined ∧ pending w3 p ∧
    trace w3 = [TOpen "kv"; TCommit; TSetInterval 0 10; TTransaction 0;
                TClearInterval (VTimer 0); TCommit; TDbClose].
Proof.
  do 5 eexists.
  split; [vm_compute; reflexivity|].
  split; [vm_compute; reflexivity|].
  split; [vm_compute; reflexivity|].
  split; [vm_compute; reflexivity|].
  split; [vm_compute; reflexivity|].
  split; [vm_compute; reflexivity|].
  split; vm_compute; reflexivity.
Qed.

(** ** The request to delete the database *)

Lemma invoke_destroy_empty w t delay name fuel :
  running w t delay → fulfilled w (db (this w)) (VDatabase name) → 5 < fuel →
  invoke fuel CDestroy w
  = Some (length (promises w),
          erasing name (length (promises w))
            (shut [mkPromise None []]
               [JReact (RResume (KDestroyClose (length (promises w)))) (Fulfilled VUndefined)]
               t delay w)).
Proof.
  intros Hr Hd Hf. destruct (call_destroy_empty w t delay Hr) as [H1 H2].
  apply settled_lookup in Hd as [rd Hd].
  unfold invoke. destruct (call CDestroy w) as [p W]. cbn [fst snd] in *.
  subst p. erewrite (quiesce_exact (3 + 3)); [reflexivity| |reflexivity|lia].
  rewrite drain_add, H2.
  eapply (destroy_chain _ (promises w) [] _ _ name rd).
  - reflexivity.
  - reflexivity.
  - cbn [length]; lia.
  - by destruct_world_hyps w.
Qed.

Lemma invoke_destroy_batch w t delay os fuel :
  running w t delay → os ≠ [] → 2 < fuel →
  invoke fuel CDestroy (enqueued os w)
  = Some (length (promises w) + span os,
          closing os Unserved [mkPromise None []]
            [RResume (KDestroyClose (length (promises w) + span os))] t delay (database w)
            (mkTxn (request_of <$> acts os (length (promises w))) TxActive None
               (close_handlers os [mkPromise None []] w)) w).
Proof.
  intros Hr Hos Hf. destruct (call_destroy_batch w t delay os Hr Hos) as [H1 H2].
  unfold invoke. destruct (call CDestroy (enqueued os w)) as [p W]. cbn [fst snd] in *.
  subst p. erewrite (quiesce_exact 3); [reflexivity|exact H2|reflexivity|lia].
Qed.

(** The final commit of [destroy] completes: the batch is settled, the
    connection closed and the database asked to be deleted, in one turn. *)
Lemma destroy_batch_completes w t delay os g dat bk name fuel :
  running w t delay → fulfilled w (db (this w)) (VDatabase name) → length os + 5 < fuel →
  deliver fuel (TxnComplete (length (txns w)))
    (closing os g [mkPromise None []]
       [RResume (KDestroyClose (length (promises w) + span os))] t delay dat
       (mkTxn [] TxActive bk (close_handlers os [mkPromise None []] w)) w)
  = Some (erasing name (length (promises w) + span os)
            (closed_down os g (Fulfilled VUndefined) [mkPromise None []]
               [JReact (RResume (KDestroyClose (length (promises w) + span os)))
                  (Fulfilled VUndefined)] t delay dat
               (mkTxn [] TxFinished bk (close_handlers os [mkPromise None []] w)) w)).
Proof.
  intros [Hw Ht Hi] Hd Hf. apply settled_lookup in Hd as [rd Hd].
  pose proof (rd_batch _ Hw) as Hb.
  assert (db (this w) ≠ _batchPromise (this w)) as Hne.
  { intros Heq. rewrite Heq in Hd. by rewrite Hb in Hd. }
  pose proof (lookup_lt_Some _ _ _ Hd) as Hlt.
  unfold deliver. rewrite closing_complete. cbn [mbind option_bind].
  apply (quiesce_exact (length (adopters os (length (promises w))) + 1 + 2 + 3));
    [|reflexivity|pose proof (length_adopters_le os (length (promises w))); lia].
  rewrite drain_add.
  rewrite (closing_settles os g [mkPromise None []] _ t delay dat _ w _ _ rd Hb Hd).
  cbn [fmap list_fmap].
  eapply (destroy_chain _
           (<[_batchPromise (this w) := mkPromise (Some (Fulfilled VUndefined)) []]> (promises w)
            ++ segment g (Some (Fulfilled VUndefined)) os (length (promises w))) [] _ _ name rd).
  - reflexivity.
  - unfold closed_down. cbn [promises]. by rewrite <- app_assoc.
  - rewrite length_app, length_insert, length_segment. cbn [length]. lia.
  - destruct_world_hyps w. cbn [this db with_batch with_actions with_closed].
    rewrite lookup_app_l by (by rewrite length_insert).
    by rewrite list_lookup_insert_ne.
Qed.

(** The answers to the request to delete the database. *)
Lemma erase_succeeds W name pd fuel :
  conn W = ConnClosed → promises W !! pd = Some (mkPromise None []) → 0 < fuel →
  deliver fuel (DeleteSuccess (length (deletions W))) (erasing name pd W)
  = Some (set_promises (<[pd := mkPromise (Some (Fulfilled VUndefined)) []]> (promises W)
                        ++ [mkPromise (Some (Fulfilled VUndefined)) []])
            (set_database None
               (set_deletions (deletions W ++ [(length (promises W), false)])
                  (erasing name pd W)))).
Proof.
  intros Hc Hp Hf. unfold deliver, handle, erasing. destruct_world_hyps W. subst.
  cbn [set_jobs set_deletions set_promises emit deletions conn]. rewrite lookup_fresh.
  cbn [mbind option_bind]. rewrite insert_fresh.
  apply (quiesce_exact 1); [|reflexivity|lia].
  erewrite (settle_adopted _ w_ps pd); [reflexivity|reflexivity|reflexivity|exact Hp].
Qed.

Lemma erase_fails W name pd e fuel :
  promises W !! pd = Some (mkPromise None []) → 0 < fuel →
  deliver fuel (DeleteError (length (deletions W)) e) (erasing name pd W)
  = Some (set_promises (<[pd := mkPromise (Some (Rejected e)) []]> (promises W)
                        ++ [mkPromise (Some (Rejected e)) []])
            (set_deletions (deletions W ++ [(length (promises W), false)])
               (erasing name pd W))).
Proof.
  intros Hp Hf. unfold deliver, handle, erasing. destruct_world_hyps W. subst.
  cbn [set_jobs set_deletions set_promises emit deletions conn]. rewrite lookup_fresh.
  cbn [mbind option_bind]. rewrite insert_fresh.
  apply (quiesce_exact 1); [|reflexivity|lia].
  erewrite (settle_adopted _ w_ps pd); [reflexivity|reflexivity|reflexivity|exact Hp].
Qed.

Lemma this_then q r w : this (then_ q r w) = this w.
Proof.
  unfold then_. destruct_world w.
  destruct (w_ps !! q) as [[[o|] rs]|]; reflexivity.
Qed.

Lemma destroy_sets_closed w : closed (this (call CDestroy w).2) = true.
Proof.
  destruct_world w.
  cbn [call destroy close new_promise set_promises set_this with_closed this promises
       _batchTimer snd].
  unfold await. by rewrite !this_then.
Qed.

Lemma state_of_erasing W name pd p s :
  state_of W p = Some s → state_of (erasing name pd W) p = Some s.
Proof.
  unfold state_of, erasing. destruct_world W. intros Hs.
  destruct (w_ps !! p) as [c|] eqn:Hp; [|done].
  by rewrite (lookup_app_l_Some _ _ _ _ Hp).
Qed.

Lemma erasing_request W name pd :
  deletions (erasing name pd W) !! length (deletions W)
  = Some (length (promises (erasing name pd W)) - 1, true).
Proof.
  unfold erasing. destruct_world W.
  cbn [deletions promises set_jobs set_deletions set_promises emit].
  rewrite length_app. cbn [length]. rewrite Nat.add_sub. apply lookup_fresh.
Qed.

Lemma closed_down_destroy_cell os g o c mid js t delay dat tx w :
  promises (closed_down os g o (c :: mid) js t delay dat tx w) !! (length (promises w) + span os)
  = Some c.
Proof.
  unfold closed_down. cbn [promises]. rewrite app_assoc.
  replace (length (promises w) + span os)
    with (length (<[_batchPromise (this w) := mkPromise (Some o) []]> (promises w)
                  ++ segment g (Some o) os (length (promises w))))
    by (by rewrite length_app, length_insert, length_segment).
  apply lookup_at.
Qed.

Lemma shut_destroy_cell c mid js t delay w :
  promises (shut (c :: mid) js t delay w) !! length (promises w) = Some c.
Proof. unfold shut. cbn [promises]. apply lookup_at. Qed.

(** C9: [destroy] called on a running instance whose pending queue holds the
    calls [os], the database being [name].  It does what [close] does: the
    call sets [closed], the timer is stopped, the final [_commit] runs (with a
    transaction unless the queue is empty), the calls of [os] are settled and
    the connection is closed.  Only then is the database asked to be deleted,
    and the promise of [destroy] is pending until the answer: it is fulfilled
    when the deletion succeeds, the database then being gone, and rejected
    with the error of the deletion when it fails. *)
Theorem destroy_closes_then_erases w t delay name os d fuel :
  running w t delay → fulfilled w (db (this w)) (VDatabase name) →
  database w = Some d → length os + 5 < fuel →
  let tid := length (txns w) in
  let rid := length (deletions w) in
  ∃ ps w1 pd w2 w3,
    invoke_all fuel (op_call <$> os) w = Some (ps, w1) ∧ length ps = length os ∧
    closed (this (call CDestroy w1).2) = true ∧
    invoke fuel CDestroy w1 = Some (pd, w2) ∧
    intervals w2 !! t = Some (delay, false) ∧
    deliver_all fuel match os with
                     | [] => []
                     | _ :: _ => replicate (length os) (RequestSuccess tid) ++ [TxnComplete tid]
                     end w2 = Some w3 ∧
    trace w3 = trace w ++ [TClearInterval (VTimer t); TCommit]
                 ++ match os with [] => [] | _ :: _ => [TTransaction tid] end
                 ++ [TDbClose; TDeleteDatabase name] ∧
    conn w3 = ConnClosed ∧ pending w3 pd ∧ database w3 = Some (apply_ops os d) ∧
    deletions w3 !! rid = Some (length (promises w3) - 1, true) ∧
    (∀ i o, os !! i = Some o →
       ∃ p, ps !! i = Some p ∧
            fulfilled w3 p match o with
                           | OGet k => read (apply_ops (take i os) d) k
                           | _ => VUndefined
                           end) ∧
    (∃ w4, deliver fuel (DeleteSuccess rid) w3 = Some w4 ∧
           fulfilled w4 pd VUndefined ∧ database w4 = None ∧ trace w4 = trace w3) ∧
    (∀ e, ∃ w4, deliver fuel (DeleteError rid e) w3 = Some w4 ∧
                rejected w4 pd e ∧ database w4 = database w3 ∧ trace w4 = trace w3).
Proof.
  intros Hr Hdb Hd Hf tid rid. pose proof (run_ready _ _ _ Hr) as Hw.
  pose proof (lookup_lt_Some _ _ _ (run_interval _ _ _ Hr)) as Hlt.
  set (n := length (promises w)).
  assert (∀ W ps pd o, ps !! pd = Some (mkPromise None []) →
            state_of (set_promises (<[pd := mkPromise (Some o) []]> ps
                                    ++ [mkPromise (Some o) []]) W) pd = Some (Some o)) as Hfin.
  { intros W ps pd o Hp. pose proof (lookup_lt_Some _ _ _ Hp). unfold state_of.
    destruct_world W. cbn [promises set_promises].
    rewrite lookup_app_l by (by rewrite length_insert).
    by rewrite list_lookup_insert_eq. }
  destruct (decide (os = [])) as [->|Hos].
  - set (W := shut [mkPromise None []]
                [JReact (RResume (KDestroyClose n)) (Fulfilled VUndefined)] t delay w).
    assert (promises W !! n = Some (mkPromise None [])) as Hcell
      by apply shut_destroy_cell.
    exists [], w, n, (erasing name n W), (erasing name n W).
    split; [reflexivity|]. split; [reflexivity|].
    split; [apply destroy_sets_closed|].
    split; [apply invoke_destroy_empty; [done|done|lia]|].
    split; [unfold erasing, W, shut; cbn [intervals set_jobs set_deletions set_promises emit];
            by apply list_lookup_insert_eq|].
    split; [reflexivity|].
    split; [unfold erasing, W, shut; cbn [trace set_jobs set_deletions set_promises emit];
            by rewrite <- !app_assoc|].
    split; [reflexivity|].
    split; [apply state_of_erasing; unfold state_of; by rewrite Hcell|].
    split; [exact Hd|].
    split; [apply (erasing_request W)|].
    split; [intros i o Ho; by rewrite lookup_nil in Ho|].
    split.
    + eexists. split; [apply (erase_succeeds W); [reflexivity|exact Hcell|lia]|].
      split; [apply Hfin; exact Hcell|]. split; reflexivity.
    + intros e. eexists. split; [apply (erase_fails W); [exact Hcell|lia]|].
      split; [apply Hfin; exact Hcell|]. split; reflexivity.
  - rewrite !(match_cons os) by done.
    set (c0 := mkPromise None []).
    set (W := closed_down os (Served d) (Fulfilled VUndefined) [c0]
                [JReact (RResume (KDestroyClose (n + span os))) (Fulfilled VUndefined)]
                t delay (Some (apply_ops os d))
                (mkTxn [] TxFinished (backup_after os d None) (close_handlers os [c0] w)) w).
    assert (promises W !! (n + span os) = Some (mkPromise None [])) as Hcell
      by apply closed_down_destroy_cell.
    exists (ids os n), (enqueued os w), (n + span os),
      (closing os Unserved [c0] [RResume (KDestroyClose (n + span os))] t delay (database w)
         (mkTxn (request_of <$> acts os n) TxActive None (close_handlers os [c0] w)) w),
      (erasing name (n + span os) W).
    split; [apply invoke_all_enqueue; [by apply ready_accepting|lia]|].
    split; [apply length_ids|].
    split; [apply destroy_sets_closed|].
    split; [apply invoke_destroy_batch; [done|done|lia]|].
    split; [unfold closing; cbn [intervals]; by apply list_lookup_insert_eq|].
    split.
    { assert (deliver_all fuel (replicate (length os) (RequestSuccess tid))
                (closing os Unserved [c0] [RResume (KDestroyClose (n + span os))] t delay
                   (database w)
                   (mkTxn (request_of <$> acts os n) TxActive None (close_handlers os [c0] w)) w)
              = Some (closing os (Served d) [c0] [RResume (KDestroyClose (n + span os))] t delay
                        (Some (apply_ops os d))
                        (mkTxn [] TxActive (backup_after os d None) (close_handlers os [c0] w)) w))
        as Hserve by (rewrite Hd; apply closing_served; [done|lia]).
      rewrite deliver_all_app, Hserve.
      cbn [mbind option_bind deliver_all].
      rewrite (destroy_batch_completes w t delay os _ _ _ name) by (done || lia).
      reflexivity. }
    split; [unfold erasing, W, closed_down; cbn [trace set_jobs set_deletions set_promises emit];
            by rewrite <- !app_assoc|].
    split; [reflexivity|].
    split; [apply state_of_erasing; unfold state_of; by rewrite Hcell|].
    split; [reflexivity|].
    split; [apply (erasing_request W)|].
    split.
    { intros i o Ho. apply (ids_fulfilled os n i o); [done|].
      apply state_of_erasing. subst n W.
      rewrite (state_of_closed_down_id _ _ _ _ _ _ _ _ _ _ i o Ho).
      by destruct o. }
    split.
    + eexists. split; [apply (erase_succeeds W); [reflexivity|exact Hcell|lia]|].
      split; [apply Hfin; exact Hcell|]. split; reflexivity.
    + intros e. eexists. split; [apply (erase_fails W); [exact Hcell|lia]|].
      split; [apply Hfin; exact Hcell|]. split; reflexivity.
Qed.

Lemma destroy_closes_then_erases_witness :
  ∃ ps w1 pd w2 w3 w4,
    invoke_all 8 (op_call <$> [OSet "a" (VNum 1)]) (opened "kv" None None) = Some (ps, w1) ∧
    invoke 8 CDestroy w1 = Some (pd, w2) ∧
    deliver_all 8 [RequestSuccess 0; TxnComplete 0] w2 = Some w3 ∧
    conn w3 = ConnClosed ∧ pending w3 pd ∧
    deliver 8 (DeleteSuccess 0) w3 = Some w4 ∧
    fulfilled w4 pd VUndefined ∧ database w4 = None.
Proof.
  destruct (destroy_closes_then_erases (opened "kv" None None) 0 10 "kv"
              [OSet "a" (VNum 1)] ∅ 8)
    as (ps & w1 & pd & w2 & w3 & Ha & _ & _ & Hb & _ & Hc & _ & Hd & He & _ & _ & _
        & (w4 & Hf & Hg & Hh & _) & _);
    [apply (running_opened "kv" None None)|reflexivity|reflexivity|cbn [length]; lia|].
  exists ps, w1, pd, w2, w3, w4.
  exact (conj Ha (conj Hb (conj Hc (conj Hd (conj He (conj Hf (conj Hg Hh))))))).
Defined.

(** ** The scheduler *)

Lemma lookup_snoc3 {A} (l : list A) a b c : (l ++ [a; b; c]) !! length (l ++ [a; b]) = Some c.
Proof. by rewrite (lookup_app_r l), length_app, Nat.add_comm, Nat.add_sub by (rewrite length_app; lia). Qed.

Lemma alter_snoc3 {A} (f : A → A) (l : list A) a b c :
  alter f (length (l ++ [a; b])) (l ++ [a; b; c]) = l ++ [a; b; f c].
Proof.
  by rewrite (alter_app_r_alt f l), length_app, Nat.add_comm, Nat.add_sub
    by (rewrite length_app; lia).
Qed.

(** [_startBatchTimer] resumed after [await this.db], with calls waiting in
    the queue: the first commit takes them into a transaction, and the timer
    is set before that transaction is opened. *)
Lemma start_chain_batch W pt dv dv' rs r a q :
  jobs W = [JReact (RResume (KStartBatchTimer pt)) (Fulfilled dv)] →
  promises W !! pt = Some (mkPromise None []) →
  promises W !! db (this W) = Some (mkPromise (Some (Fulfilled dv')) rs) →
  conn W = Open → _actions (this W) = Some r → arrays W !! r = Some (a :: q) →
  drain 3 W
  = set_jobs []
      (set_txns (txns W ++ [mkTxn (request_of <$> (a :: q)) TxActive None
                             (Some (mkHandlers (_resolveBatch (this W)) (_rejectBatch (this W))
                                      (length (promises W) + 2)))])
         (set_promises (<[pt := mkPromise (Some (Fulfilled (VTimer (length (intervals W))))) []]>
                          (promises W)
                        ++ [mkPromise None []; mkPromise None [];
                            mkPromise None [RAdopt (length (promises W))]])
            (set_this (with_batch (length (promises W) + 1) (length (promises W) + 1)
                         (length (promises W) + 1))
               (set_this (with_actions (Some (length (arrays W))))
                  (set_arrays (arrays W ++ [[]])
                     (set_intervals (intervals W ++ [(batchInterval (this W), true)])
                        (emit (TTransaction (length (txns W)))
                           (emit (TSetInterval (length (intervals W)) (batchInterval (this W)))
                              (emit TCommit W))))))))).
Proof.
  intros Hj Hpt Hd Hc Ha Hq.
  pose proof (lookup_lt_Some _ _ _ Hd) as Hlt. pose proof (lookup_lt_Some _ _ _ Hpt) as Hlt2.
  pose proof (lookup_lt_Some _ _ _ Hq) as Hlt3.
  destruct_world_hyps W. subst.
  step_job. cbn [set_jobs run_job resume startBatchTimer_resume].
  unfold _commit. cbn [new_promise promises set_promises emit this _actions arrays].
  rewrite Hq.
  cbn [set_this set_arrays with_actions with_batch arrays this _resolveBatch _rejectBatch
       new_promise promises set_promises db].
  unfold await, then_. cbn [promises].
  rewrite !(lookup_app_l _ _ w_db), Hd by (rewrite ?length_app; cbn [length]; lia).
  cbn [set_jobs jobs app setInterval this batchInterval intervals set_intervals emit].
  erewrite settle_pending;
    [|cbn [promises]; rewrite !(lookup_app_l _ _ pt) by (rewrite ?length_app; cbn [length]; lia);
      exact Hpt].
  cbn [set_jobs set_promises jobs promises map app].
  rewrite !insert_app_l by (rewrite ?length_app; cbn [length]; lia).
  step_job. cbn [set_jobs run_job resume commit_resume conn txns emit new_promise promises
                 set_promises set_txns arrays].
  rewrite lookup_app_l, Hq by done. cbn [default from_option].
  unfold resolve_with_promise. cbn [promises].
  rewrite <- !app_assoc. cbn [app].
  rewrite <- (length_insert w_ps pt (mkPromise (Some (Fulfilled (VTimer (length w_ivs)))) [])).
  rewrite lookup_at. cbn [set_jobs jobs app].
  step_job. cbn [set_jobs run_job]. unfold then_. cbn [promises].
  rewrite lookup_snoc3, alter_snoc3.
  cbn [set_promises drain]. unfold id.
  rewrite !length_app, !length_insert. cbn [length].
  reflexivity.
Qed.

Lemma enqueued_constructor os name interval data :
  enqueued os (constructor name interval data)
  = mkWorld (mkIdbkv "idb-kv" (default 10%Z interval) 0 (Some 0) false 1 1 1 2)
      ([mkPromise None [RResume (KStartBatchTimer 2)]; mkPromise None (adopters os 3);
        mkPromise None []] ++ segment Unserved None os 3)
      [acts os 3] [] [] name Connecting data [] [] [TOpen name].
Proof. reflexivity. Qed.

(** The turn in which the database opens. *)
Lemma startup_turn name interval data os fuel :
  2 < fuel →
  deliver fuel OpenSuccess (enqueued os (constructor name interval data))
  = Some (started os name interval data).
Proof.
  intros Hf. unfold deliver, handle.
  destruct os as [|o os'].
  { cbn. by destruct fuel as [|[|[|fuel]]]; [lia..|]. }
  set (os := o :: os').
  destruct (acts os 3) as [|a q] eqn:Hacts.
  { apply (f_equal length) in Hacts. by rewrite length_acts in Hacts. }
  rewrite enqueued_constructor.
  cbn [conn mbind option_bind]. unfold open_onsuccess.
  cbn [set_conn set_database database dbName this db].
  erewrite settle_pending; [|reflexivity].
  cbn [set_jobs set_promises jobs promises map app insert list_insert].
  apply (quiesce_exact 3); [|reflexivity|lia].
  erewrite (start_chain_batch _ 2 _ (VDatabase name) [] 0 a q);
    [|reflexivity|reflexivity|reflexivity|reflexivity|reflexivity
     |cbn [arrays lookup list_lookup]; by rewrite Hacts].
  unfold started. subst os.
  cbn [set_jobs set_txns set_promises set_this set_arrays set_intervals emit with_batch
       with_actions this txns arrays intervals promises _resolveBatch _rejectBatch
       batchInterval length app insert list_insert].
  by rewrite length_segment, Hacts.
Qed.

(** A tick on an idle instance: [_commit] is entered and returns at once. *)
Lemma tick_idle w id delay fuel :
  jobs w = [] → queue w = Some [] → intervals w !! id = Some (delay, true) →
  deliver fuel (Tick id) w
  = Some (set_promises (promises w ++ [mkPromise (Some (Fulfilled VUndefined)) []])
            (emit TCommit w)).
Proof.
  intros Hj Hq Hi. unfold deliver, handle. rewrite Hi. cbn [mbind option_bind].
  unfold queue in Hq. destruct (_actions (this w)) as [r|] eqn:Ha; [simpl in Hq|done].
  unfold _commit. destruct_world_hyps w. subst.
  cbn [new_promise promises set_promises emit this _actions arrays]. rewrite Hq.
  cbn [snd]. erewrite settle_pending; [|cbn [promises]; apply lookup_fresh].
  cbn [set_jobs set_promises jobs promises map app]. rewrite insert_fresh.
  by destruct fuel.
Qed.

Lemma ticks_idle k : ∀ w id delay fuel,
  jobs w = [] → queue w = Some [] → intervals w !! id = Some (delay, true) →
  ∃ w', deliver_all fuel (replicate k (Tick id)) w = Some w' ∧
        trace w' = trace w ++ replicate k TCommit ∧ intervals w' = intervals w.
Proof.
  induction k as [|k IH]; intros w id delay fuel Hj Hq Hi.
  - exists w. by rewrite app_nil_r.
  - cbn [replicate deliver_all]. rewrite (tick_idle w id delay fuel Hj Hq Hi).
    cbn [mbind option_bind].
    edestruct (IH (set_promises (promises w ++ [mkPromise (Some (Fulfilled VUndefined)) []])
                     (emit TCommit w)) id delay fuel) as (w' & H1 & H2 & H3).
    + by destruct_world w.
    + by destruct_world w.
    + by destruct_world w.
    + exists w'. split; [exact H1|]. rewrite H2, H3. destruct_world w.
      by rewrite <- app_assoc.
Qed.

Lemma started_idle os name interval data :
  jobs (started os name interval data) = [] ∧
  queue (started os name interval data) = Some [] ∧
  intervals (started os name interval data) = [(default 10%Z interval, true)] ∧
  state_of (started os name interval data) (_batchTimer (this (started os name interval data)))
  = Some (Some (Fulfilled (VTimer 0))) ∧
  trace (started os name interval data)
  = [TOpen name; TCommit; TSetInterval 0 (default 10%Z interval)]
      ++ match os with [] => [] | _ :: _ => [TTransaction 0] end.
Proof. by destruct os. Qed.

(** C8: the scheduler.  The interval kept at construction is the option
    [batchInterval], 10 when it is left out.  While the database is opening,
    whatever calls [os] are made, no timer exists, no tick can come and
    [_commit] is not entered; if opening fails this stays so.  In the turn in
    which the database opens [_commit] is entered once, whether the queue is
    empty or not, and then the timer is set with the interval kept at
    construction; every tick of that timer enters [_commit] again and leaves
    the timer running. *)
Theorem scheduler_starts_after_open name interval data os fuel :
  length os + 2 < fuel →
  let delay := default 10%Z interval in
  let w0 := constructor name interval data in
  batchInterval (this w0) = delay ∧
  ∃ ps w1,
    invoke_all fuel (op_call <$> os) w0 = Some (ps, w1) ∧
    intervals w1 = [] ∧ trace w1 = [TOpen name] ∧ pending w1 (_batchTimer (this w1)) ∧
    (∀ id, deliver fuel (Tick id) w1 = None) ∧
    (∀ e, ∃ w2, deliver fuel (OpenError e) w1 = Some w2 ∧
                intervals w2 = [] ∧ trace w2 = [TOpen name] ∧
                rejected w2 (_batchTimer (this w2)) e) ∧
    ∃ w2, deliver fuel OpenSuccess w1 = Some w2 ∧
          trace w2 = [TOpen name; TCommit; TSetInterval 0 delay]
                       ++ match os with [] => [] | _ :: _ => [TTransaction 0] end ∧
          intervals w2 = [(delay, true)] ∧
          fulfilled w2 (_batchTimer (this w2)) (VTimer 0) ∧
          ∀ k, ∃ w3, deliver_all fuel (replicate k (Tick 0)) w2 = Some w3 ∧
                     trace w3 = trace w2 ++ replicate k TCommit ∧
                     intervals w3 = intervals w2.
Proof.
  intros Hf delay w0. split; [reflexivity|].
  exists (ids os 3), (enqueued os w0).
  split; [apply (invoke_all_enqueue os w0); [apply constructor_accepting|lia]|].
  subst w0. rewrite enqueued_constructor.
  split; [reflexivity|]. split; [reflexivity|]. split; [reflexivity|].
  split; [reflexivity|].
  split.
  { intros e. exists (failed e os name interval data).
    split; [rewrite <- enqueued_constructor; apply open_failure_turn; lia|].
    split; [reflexivity|]. split; reflexivity. }
  destruct (started_idle os name interval data) as (Hj & Hq & Hi & Ht & Htr).
  exists (started os name interval data).
  split; [rewrite <- enqueued_constructor; apply startup_turn; lia|].
  split; [exact Htr|]. split; [exact Hi|]. split; [exact Ht|].
  intros k. apply (ticks_idle k _ 0 delay fuel Hj Hq). by rewrite Hi.
Qed.

Lemma scheduler_starts_after_open_witness :
  ∃ ps w1 w2 w3,
    invoke_all 4 (op_call <$> [OSet "a" (VNum 1)]) (constructor "kv" None None)
    = Some (ps, w1) ∧
    intervals w1 = [] ∧
    deliver 4 OpenSuccess w1 = Some w2 ∧
    trace w2 = [TOpen "kv"; TCommit; TSetInterval 0 10; TTransaction 0] ∧
    deliver_all 4 [Tick 0; Tick 0] w2 = Some w3 ∧
    trace w3 = trace w2 ++ [TCommit; TCommit].
Proof.
  destruct (scheduler_starts_after_open "kv" None None [OSet "a" (VNum 1)] 4)
    as (_ & ps & w1 & Ha & Hb & _ & _ & _ & _ & w2 & Hc & Hd & _ & _ & Hk);
    [cbn [length]; lia|].
  destruct (Hk 2) as (w3 & He & Hg & _).
  exists ps, w1, w2, w3.
  exact (conj Ha (conj Hb (conj Hc (conj Hd (conj He Hg))))).
Defined.

(** ** Enqueueing *)

Lemma asks_acts os n : asks <$> acts os n = os.
Proof.
  revert n; induction os as [|o os IH]; intros n; [done|].
  cbn [acts fmap list_fmap]. rewrite IH. by destruct o.
Qed.

Lemma NoDup_ids os n : NoDup (ids os n).
Proof.
  revert n; induction os as [|o os IH]; intros n; cbn [ids]; constructor; [|apply IH].
  intros Hn%ids_bound. destruct o; simpl in Hn; lia.
Qed.

Lemma state_of_enqueued_id os w i o :
  os !! i = Some o →
  state_of (enqueued os w) (length (promises w) + span (take i os)) = Some None.
Proof.
  intros Ho. unfold state_of.
  set (pre := alter (add_reactions (adopters os (length (promises w))))
                (_batchPromise (this w)) (promises w)).
  assert (length pre = length (promises w)) as Hlen by apply length_alter.
  assert (promises (enqueued os w)
          = pre ++ segment Unserved None os (length (promises w)) ++ []) as ->
    by (rewrite app_nil_r; by destruct_world w).
  rewrite <- Hlen.
  rewrite (segment_lookup Unserved None os i o _ _ Ho).
  by destruct o.
Qed.

(** X1: [get], [set] and [delete] on an open instance only collect.  Each
    call returns a promise of its own, which is pending; the queue grows at
    its tail by one action per call, in the order of the calls and with the
    key and value of each call; nothing is asked of IndexedDB: no transaction
    is opened, the database is not read or written and no collaborator is
    called. *)
Theorem calls_only_enqueue w os q fuel :
  accepting w → queue w = Some q → 0 < fuel →
  ∃ ps w1 q',
    invoke_all fuel (op_call <$> os) w = Some (ps, w1) ∧
    length ps = length os ∧ NoDup ps ∧
    (∀ p, p ∈ ps → promises w !! p = None ∧ pending w1 p) ∧
    queue w1 = Some (q ++ q') ∧ asks <$> q' = os ∧
    _batchPromise (this w1) = _batchPromise (this w) ∧
    pending w1 (_batchPromise (this w1)) ∧ jobs w1 = [] ∧
    txns w1 = txns w ∧ database w1 = database w ∧ trace w1 = trace w ∧
    intervals w1 = intervals w ∧ conn w1 = conn w.
Proof.
  intros Hw Hq Hf.
  exists (ids os (length (promises w))), (enqueued os w), (acts os (length (promises w))).
  split; [by apply invoke_all_enqueue|].
  split; [apply length_ids|]. split; [apply NoDup_ids|].
  split.
  { intros p Hp. pose proof (ids_bound _ _ _ Hp) as Hb.
    split; [apply lookup_ge_None_2; lia|].
    apply list_elem_of_lookup in Hp as [i Hi].
    destruct (lookup_lt_is_Some_2 os i) as [o Ho].
    { apply lookup_lt_Some in Hi. by rewrite length_ids in Hi. }
    rewrite (ids_lookup os i o _ Ho) in Hi. injection Hi as <-.
    by apply (state_of_enqueued_id os w i o). }
  split; [by apply queue_enqueued|]. split; [apply asks_acts|].
  pose proof (accepting_enqueued os w Hw) as [Hj _ _ Hb].
  split; [by destruct_world w|]. split; [exact Hb|]. split; [exact Hj|].
  by destruct_world w.
Qed.

Lemma calls_only_enqueue_witness :
  ∃ ps w1 q',
    invoke_all 1 (op_call <$> [OGet "a"; OSet "a" (VNum 1); ODelete "b"])
      (constructor "kv" None None) = Some (ps, w1) ∧
    queue w1 = Some ([] ++ q') ∧ asks <$> q' = [OGet "a"; OSet "a" (VNum 1); ODelete "b"] ∧
    trace w1 = [TOpen "kv"].
Proof.
  destruct (calls_only_enqueue (constructor "kv" None None)
              [OGet "a"; OSet "a" (VNum 1); ODelete "b"] [] 1)
    as (ps & w1 & q' & H1 & _ & _ & _ & H2 & H3 & _ & _ & _ & _ & _ & H4 & _);
    [apply constructor_accepting|reflexivity|lia|].
  exists ps, w1, q'. exact (conj H1 (conj H2 (conj H3 H4))).
Defined.

(** ** Calls made while the database is opening *)

Lemma wanted_acts os n : wanted <$> (request_of <$> acts os n) = os.
Proof.
  revert n; induction os as [|o os IH]; intros n; [done|].
  cbn [acts fmap list_fmap]. rewrite IH. by destruct o.
Qed.

(** The start-up transaction is served and completes. *)
Lemma started_completes name interval data os fuel :
  os ≠ [] → length os < fuel →
  deliver_all fuel (replicate (length os) (RequestSuccess 0) ++ [TxnComplete 0])
    (started os name interval data)
  = Some (mkWorld (mkIdbkv "idb-kv" (default 10%Z interval) 0 (Some 1) false
                     (3 + span os + 1) (3 + span os + 1) (3 + span os + 1) 2)
            ([mkPromise (Some (Fulfilled (VDatabase name))) [];
              mkPromise (Some (Fulfilled VUndefined)) [];
              mkPromise (Some (Fulfilled (VTimer 0))) []]
             ++ segment (Served (default ∅ data)) (Some (Fulfilled VUndefined)) os 3
             ++ [mkPromise (Some (Fulfilled VUndefined)) []; mkPromise None [];
                 mkPromise (Some (Fulfilled VUndefined)) []])
            [acts os 3; []] [] [(default 10%Z interval, true)] name Open
            (Some (apply_ops os (default ∅ data)))
            [mkTxn [] TxFinished (Some (default ∅ data))
               (Some (mkHandlers 1 1 (3 + span os + 2)))] []
            [TOpen name; TCommit; TSetInterval 0 (default 10%Z interval); TTransaction 0]).
Proof.
  intros Hos Hf. rewrite deliver_all_app.
  set (d := default ∅ data).
  set (pre := [mkPromise (Some (Fulfilled (VDatabase name))) []; mkPromise None (adopters os 3);
               mkPromise (Some (Fulfilled (VTimer 0))) []]).
  assert (started os name interval data
          = mkWorld (mkIdbkv "idb-kv" (default 10%Z interval) 0 (Some 1) false
                       (3 + span os + 1) (3 + span os + 1) (3 + span os + 1) 2)
              (pre ++ segment Unserved None os (length pre)
               ++ [mkPromise None []; mkPromise None [];
                   mkPromise None [RAdopt (length pre + span os)]])
              [acts os 3; []] [] [(default 10%Z interval, true)] name Open (Some d)
              [mkTxn (request_of <$> acts os (length pre)) TxActive None
                 (Some (mkHandlers 1 1 (3 + span os + 2)))] []
              [TOpen name; TCommit; TSetInterval 0 (default 10%Z interval); TTransaction 0])
    as -> by (by destruct os).
  erewrite (serve_all os None pre _ _ d None _ 0 fuel);
    [|reflexivity|reflexivity|reflexivity|reflexivity|reflexivity|lia].
  cbn [mbind option_bind deliver_all set_promises set_database set_txns txns insert
       list_insert].
  unfold deliver, handle.
  cbn [txns lookup list_lookup set_txns insert list_insert mbind option_bind run_handlers
       txn_oncomplete h_resolveBatch h_resolve].
  replace (3 + span os + 2) with (S (S (length pre + span os))) by (unfold pre; cbn [length]; lia).
  erewrite (quiesce_exact (length (adopters os (length pre)) + 1));
    [|eapply (settle_batch_drain _ pre (Served d) os [] _ 1 (Fulfilled VUndefined));
      [reflexivity|reflexivity|reflexivity]
     |reflexivity
     |pose proof (length_adopters_le os (length pre)); lia].
  cbn [mbind option_bind set_jobs set_promises fmap list_fmap].
  assert (backup_after os d None = Some d) as -> by (by destruct os).
  reflexivity.
Qed.

(** X2: calls made before the database has opened are not lost.  They stay
    pending while it opens; in the turn in which it opens they are all taken
    into one transaction, one request per call in the order of the calls; once
    that transaction is served and completes, every [get] is fulfilled with
    what the database (as it was found, or empty when it was new) holds after
    the earlier calls, and every [set] and [delete] is fulfilled. *)
Theorem calls_before_open_are_committed name interval data os fuel :
  os ≠ [] → length os + 2 < fuel →
  let d := default ∅ data in
  ∃ ps w1 w2 w3 tx,
    invoke_all fuel (op_call <$> os) (constructor name interval data) = Some (ps, w1) ∧
    length ps = length os ∧ conn w1 = Connecting ∧ txns w1 = [] ∧
    (∀ p, p ∈ ps → pending w1 p) ∧
    deliver fuel OpenSuccess w1 = Some w2 ∧
    txns w2 = [tx] ∧ wanted <$> tx_requests tx = os ∧ tx_status tx = TxActive ∧
    queue w2 = Some [] ∧ (∀ p, p ∈ ps → pending w2 p) ∧
    deliver_all fuel (replicate (length os) (RequestSuccess 0) ++ [TxnComplete 0]) w2
    = Some w3 ∧
    database w3 = Some (apply_ops os d) ∧
    (∀ i o, os !! i = Some o →
       ∃ p, ps !! i = Some p ∧
            fulfilled w3 p match o with
                           | OGet k => read (apply_ops (take i os) d) k
                           | _ => VUndefined
                           end).
Proof.
  intros Hos Hf d.
  set (w0 := constructor name interval data).
  assert (accepting w0) as Hw by apply constructor_accepting.
  assert (∀ W pre post g b,
    promises W = pre ++ segment g b os 3 ++ post → length pre = 3 →
    ∀ i o, os !! i = Some o →
      state_of W (3 + span (take i os)) = pstate <$> cells (steps_reads (take i os) g) b o
                                                     (3 + span (take i os)) !! 0) as Hcell.
  { intros W pre post g b Hp Hl i o Ho. unfold state_of. rewrite Hp, <- Hl.
    by rewrite (segment_lookup g b os i o pre post Ho). }
  eexists (ids os 3), (enqueued os w0), (started os name interval data), _, _.
  split; [apply (invoke_all_enqueue os w0); [done|lia]|].
  split; [apply length_ids|]. split; [reflexivity|]. split; [reflexivity|].
  split.
  { intros p [i Hi]%list_elem_of_lookup.
    destruct (lookup_lt_is_Some_2 os i) as [o Ho].
    { apply lookup_lt_Some in Hi. by rewrite length_ids in Hi. }
    rewrite (ids_lookup os i o _ Ho) in Hi. injection Hi as <-.
    apply (state_of_enqueued_id os w0 i o Ho). }
  split; [apply startup_turn; lia|].
  split; [destruct os; [done|reflexivity]|].
  split; [destruct os; [done|]; apply (wanted_acts _ 3)|].
  split; [destruct os; [done|reflexivity]|].
  split; [destruct os; [done|reflexivity]|].
  split.
  { intros p [i Hi]%list_elem_of_lookup.
    destruct (lookup_lt_is_Some_2 os i) as [o Ho].
    { apply lookup_lt_Some in Hi. by rewrite length_ids in Hi. }
    rewrite (ids_lookup os i o _ Ho) in Hi. injection Hi as <-.
    unfold pending. change (S (S (S ?x))) with (3 + x).
    erewrite (Hcell (started os name interval data) _ _ Unserved None); [|by destruct os|reflexivity|exact Ho].
    by destruct o. }
  split; [apply started_completes; [done|lia]|].
  split; [reflexivity|].
  intros i o Ho. apply (ids_fulfilled os 3 i o); [exact Ho|].
  erewrite (Hcell _ _ _ (Served d) (Some (Fulfilled VUndefined))); [|reflexivity|reflexivity|exact Ho].
  by destruct o.
Qed.

Lemma calls_before_open_are_committed_witness :
  ∃ ps w1 w2 w3 p,
    invoke_all 5 (op_call <$> [OSet "a" (VNum 1); OGet "a"]) (constructor "kv" None None)
    = Some (ps, w1) ∧
    deliver 5 OpenSuccess w1 = Some w2 ∧
    deliver_all 5 (replicate 2 (RequestSuccess 0) ++ [TxnComplete 0]) w2 = Some w3 ∧
    ps !! 1 = Some p ∧ fulfilled w3 p (VNum 1).
Proof.
  destruct (calls_before_open_are_committed "kv" None None [OSet "a" (VNum 1); OGet "a"] 5)
    as (ps & w1 & w2 & w3 & tx & H1 & _ & _ & _ & _ & H2 & _ & _ & _ & _ & _ & H3 & _ & H4);
    [discriminate|cbn [length]; lia|].
  destruct (H4 1 (OGet "a") eq_refl) as (p & Hp & Hv).
  exists ps, w1, w2, w3, p. exact (conj H1 (conj H2 (conj H3 (conj Hp Hv)))).
Defined.

(** ** From one batch to the next *)

Lemma read_after_delete os0 k mid d :
  Forall (λ o, writes_key k o = false) mid →
  read (apply_ops (os0 ++ ODelete k :: mid) d) k = VUndefined.
Proof.
  intros Hm. rewrite apply_ops_app. change (ODelete k :: mid) with ([ODelete k] ++ mid).
  rewrite apply_ops_app, read_untouched by done.
  unfold read, apply_ops; simpl. by rewrite lookup_delete_eq.
Qed.

(** X3: what one batch has written, a later batch reads.  Two batches are
    collected and committed one after the other by a ready instance, each
    transaction being served and completing.  A [get] of the second batch is
    fulfilled with what the database holds after all of the first batch and
    the earlier calls of the second: with [v] when the last write of its key
    was [set k v] in the first batch, and with [undefined] when it was
    [delete k]. *)
Theorem later_batch_reads_earlier_batch w os1 os2 d fuel :
  ready w → database w = Some d → os1 ≠ [] → os2 ≠ [] →
  length os1 < fuel → length os2 < fuel →
  let tid := length (txns w) in
  ∃ ps1 w1 pc1 w2 w3 ps2 w4 pc2 w5 w6,
    invoke_all fuel (op_call <$> os1) w = Some (ps1, w1) ∧
    invoke fuel CCommit w1 = Some (pc1, w2) ∧
    deliver_all fuel (replicate (length os1) (RequestSuccess tid) ++ [TxnComplete tid]) w2
    = Some w3 ∧
    invoke_all fuel (op_call <$> os2) w3 = Some (ps2, w4) ∧ length ps2 = length os2 ∧
    invoke fuel CCommit w4 = Some (pc2, w5) ∧
    deliver_all fuel (replicate (length os2) (RequestSuccess (S tid)) ++ [TxnComplete (S tid)])
      w5 = Some w6 ∧
    database w6 = Some (apply_ops (os1 ++ os2) d) ∧
    (∀ i k p, os2 !! i = Some (OGet k) → ps2 !! i = Some p →
       fulfilled w6 p (read (apply_ops (os1 ++ take i os2) d) k) ∧
       (∀ os0 v mid, os1 = os0 ++ OSet k v :: mid →
          Forall (λ o, writes_key k o = false) (mid ++ take i os2) → fulfilled w6 p v) ∧
       (∀ os0 mid, os1 = os0 ++ ODelete k :: mid →
          Forall (λ o, writes_key k o = false) (mid ++ take i os2) →
          fulfilled w6 p VUndefined)).
Proof.
  intros Hw Hd Hos1 Hos2 Hf1 Hf2 tid.
  assert (1 < fuel) as Hf by (destruct os1; [done|simpl in Hf1; lia]).
  set (W := settled_batch os1 (Served d) (Fulfilled VUndefined) (Some (apply_ops os1 d))
              (mkTxn [] TxFinished (Some d) (batch_handlers os1 w)) w).
  assert (ready W) as HW by (by apply ready_settled_batch).
  assert (length (txns W) = S tid) as Htid.
  { unfold W, settled_batch. cbn [txns]. rewrite length_app. cbn [length]. lia. }
  assert (database W = Some (apply_ops os1 d)) as HdW by reflexivity.
  set (W2 := settled_batch os2 (Served (apply_ops os1 d)) (Fulfilled VUndefined)
               (Some (apply_ops os2 (apply_ops os1 d)))
               (mkTxn [] TxFinished (Some (apply_ops os1 d)) (batch_handlers os2 W)) W).
  assert (∀ i k p, os2 !! i = Some (OGet k) → ids os2 (length (promises W)) !! i = Some p →
            fulfilled W2 p (read (apply_ops (os1 ++ take i os2) d) k)) as Hread.
  { intros i k p Ho Hp. rewrite (write_lookup _ _ _ _ _ Ho Hp).
    unfold fulfilled, W2.
    rewrite (state_of_settled_batch_id _ _ _ _ _ _ i (OGet k))
      by (exact Ho || apply batch_allocated, ready_accepting, HW).
    by rewrite apply_ops_app. }
  exists (ids os1 (length (promises w))), (enqueued os1 w),
    (length (promises w) + span os1), (committed (enqueued os1 w)), W,
    (ids os2 (length (promises W))), (enqueued os2 W),
    (length (promises W) + span os2), (committed (enqueued os2 W)), W2.
  split; [apply invoke_all_enqueue; [by apply ready_accepting|lia]|].
  split; [by apply invoke_commit|].
  split; [by apply batch_completes|].
  split; [apply invoke_all_enqueue; [by apply ready_accepting|lia]|].
  split; [apply length_ids|].
  split; [by apply invoke_commit|].
  split; [rewrite <- Htid; by apply batch_completes|].
  split; [unfold W2, settled_batch; cbn [database]; by rewrite apply_ops_app|].
  intros i k p Ho Hp. specialize (Hread i k p Ho Hp).
  split; [exact Hread|]. split.
  - intros os0 v mid -> Hm.
    by rewrite <- app_assoc, <- app_comm_cons, read_after_set in Hread.
  - intros os0 mid -> Hm.
    by rewrite <- app_assoc, <- app_comm_cons, read_after_delete in Hread.
Qed.

Lemma later_batch_reads_earlier_batch_witness :
  ∃ ps1 w1 pc1 w2 w3 ps2 w4 pc2 w5 w6 p,
    invoke_all 3 (op_call <$> [OSet "a" (VNum 1); ODelete "b"]) (opened "kv" None None)
    = Some (ps1, w1) ∧
    invoke 3 CCommit w1 = Some (pc1, w2) ∧
    deliver_all 3 (replicate 2 (RequestSuccess 0) ++ [TxnComplete 0]) w2 = Some w3 ∧
    invoke_all 3 (op_call <$> [OGet "a"]) w3 = Some (ps2, w4) ∧
    invoke 3 CCommit w4 = Some (pc2, w5) ∧
    deliver_all 3 (replicate 1 (RequestSuccess 1) ++ [TxnComplete 1]) w5 = Some w6 ∧
    ps2 !! 0 = Some p ∧ fulfilled w6 p (VNum 1).
Proof.
  destruct (later_batch_reads_earlier_batch (opened "kv" None None)
              [OSet "a" (VNum 1); ODelete "b"] [OGet "a"] ∅ 3)
    as (ps1 & w1 & pc1 & w2 & w3 & ps2 & w4 & pc2 & w5 & w6
        & H1 & H2 & H3 & H4 & Hl & H5 & H6 & _ & H7);
    [apply ready_opened|reflexivity|discriminate|discriminate
    |cbn [length]; lia|cbn [length]; lia|].
  destruct (lookup_lt_is_Some_2 ps2 0) as [p Hp]; [rewrite Hl; cbn [length]; lia|].
  exists ps1, w1, pc1, w2, w3, ps2, w4, pc2, w5, w6, p.
  refine (conj H1 (conj H2 (conj H3 (conj H4 (conj H5 (conj H6 (conj Hp _))))))).
  destruct (H7 0 "a" p eq_refl Hp) as (_ & Hs & _).
  apply (Hs [] (VNum 1) [ODelete "b"]); [reflexivity|].
  repeat constructor.
Defined.

(** ** Failures inside a transaction *)

(** The request of a [get] at the head of a transaction fails. *)
Lemma get_request_fails W pre post k rest st bk h tid e fuel :
  jobs W = [] →
  promises W = pre ++ [mkPromise None []; mkPromise None [RAdopt (length pre)]] ++ post →
  txns W !! tid = Some (mkTxn (RqGet k (S (length pre)) (S (length pre)) :: rest) st bk h) →
  st ≠ TxFinished → 0 < fuel →
  deliver fuel (RequestError tid e) W
  = Some (set_promises (pre ++ [mkPromise (Some (Rejected e)) [];
                                mkPromise (Some (Rejected e)) []] ++ post)
            (set_txns (<[tid := mkTxn rest st bk h]> (txns W)) W)).
Proof.
  intros Hj Hp Ht Hst Hf. unfold deliver, handle. rewrite Ht.
  rewrite bool_decide_false by done. cbn [mbind option_bind].
  apply (quiesce_exact 1); [|by destruct_world W|lia].
  destruct_world_hyps W. subst.
  erewrite settle_pending;
    [|cbn [set_txns promises]; rewrite lookup_app_r by lia;
      by replace (S (length pre) - length pre) with 1 by lia].
  cbn [set_txns set_jobs set_promises jobs promises map app].
  step_job. cbn [set_jobs run_job].
  rewrite insert_app_r_alt by lia. replace (S (length pre) - length pre) with 1 by lia.
  cbn [insert list_insert].
  erewrite settle_pending; [|cbn [promises]; apply lookup_at].
  cbn [set_jobs set_promises jobs promises map app drain].
  by rewrite insert_at.
Qed.

(** X4: the request of a [get] fails.  The promise of that [get] is rejected
    with the error of the request, in the turn of the request's [error]
    event, and nothing else is settled by it: the batch outcome promise, the
    promise of the [_commit] call and the promises of the other calls of the
    batch are still pending, and the transaction keeps its other requests.
    When the transaction fails afterwards, the writes of the batch are
    rejected with the error of the transaction and the [_commit] call is
    fulfilled, while the [get] keeps the error of its own request. *)
Theorem get_request_error_rejects_that_get w k os e fuel :
  ready w → length os + 1 < fuel →
  let tid := length (txns w) in
  ∃ ps w1 pc w2 w3 p,
    invoke_all fuel (op_call <$> OGet k :: os) w = Some (ps, w1) ∧
    length ps = S (length os) ∧
    invoke fuel CCommit w1 = Some (pc, w2) ∧ ps !! 0 = Some p ∧
    deliver fuel (RequestError tid e) w2 = Some w3 ∧
    rejected w3 p e ∧
    pending w3 (_batchPromise (this w)) ∧ pending w3 pc ∧
    (∀ i q, ps !! S i = Some q → pending w3 q) ∧
    (∃ tx, txns w3 !! tid = Some tx ∧ tx_status tx = TxActive ∧
           wanted <$> tx_requests tx = os) ∧
    database w3 = database w ∧
    (∀ txerror arg (abort : bool),
       ∃ w4, deliver fuel (if abort then TxnAbort tid txerror arg
                           else TxnError tid txerror arg) w3 = Some w4 ∧
             rejected w4 p e ∧ fulfilled w4 pc VUndefined ∧
             (∀ q, write_of (OGet k :: os) ps q → rejected w4 q (js_or txerror arg))).
Proof.
  intros Hw Hf tid.
  set (os0 := OGet k :: os).
  assert (os0 ≠ []) as Hos0 by done.
  destruct (committed_enqueued_shape os0 w Hw Hos0) as (Hj2 & Hp2 & Hb2 & Ht2 & Hd2).
  set (n := length (promises w)) in *.
  set (pre := alter (add_reactions (adopters os0 n)) (_batchPromise (this w)) (promises w)) in *.
  assert (length pre = n) as Hlen by apply length_alter.
  pose proof (batch_allocated w (ready_accepting w Hw)) as Hlt. fold n in Hlt.
  set (w2 := committed (enqueued os0 w)) in *.
  set (rej := mkPromise (Some (Rejected e)) []).
  set (pre' := pre ++ [rej; rej]).
  assert (length pre' = n + 2) as Hlen' by (unfold pre'; rewrite length_app; cbn [length]; lia).
  set (cs := [mkPromise None []; mkPromise None []; mkPromise None [RAdopt (length pre' + span os)]]).
  assert (promises w2 = pre ++ [mkPromise None []; mkPromise None [RAdopt (length pre)]]
                          ++ segment Unserved None os (length pre') ++ cs) as Hp2'.
  { rewrite Hp2. unfold os0, cs. cbn [segment cells step_reads width span].
    replace (length pre') with (length pre + 2) by lia.
    by rewrite Nat.add_assoc, <- !app_assoc. }
  set (hs := Some (mkHandlers (_batchPromise (this w)) (_batchPromise (this w))
                     (S (S (length pre' + span os))))).
  assert (batch_handlers os0 w = hs) as Hhs.
  { unfold batch_handlers, hs. fold n. do 3 f_equal.
    rewrite Hlen'. unfold os0. cbn [span width]. lia. }
  assert (txns w2 !! tid
          = Some (mkTxn (RqGet k (S (length pre)) (S (length pre))
                           :: (request_of <$> acts os (length pre')))
                    TxActive None hs)) as Ht2'.
  { rewrite Ht2, Hhs. unfold tid. rewrite lookup_fresh. unfold os0.
    cbn [acts action_of fmap list_fmap request_of width].
    by replace (length pre') with (length pre + 2) by lia. }
  set (tx := mkTxn (request_of <$> acts os (length pre')) TxActive None hs).
  set (w3 := set_promises (pre ++ [rej; rej] ++ segment Unserved None os (length pre') ++ cs)
               (set_txns (<[tid := tx]> (txns w2)) w2)).
  assert (promises w3 = pre' ++ segment Unserved None os (length pre') ++ cs) as Hp3.
  { unfold w3, pre'. destruct_world_hyps w2. cbn [set_promises set_txns promises].
    by rewrite <- app_assoc. }
  assert (jobs w3 = []) as Hj3 by (unfold w3; destruct_world_hyps w2; by simpl in *).
  assert (txns w3 !! tid = Some tx) as Ht3.
  { pose proof (lookup_lt_Some _ _ _ Ht2') as Hlt3.
    unfold w3. destruct_world_hyps w2. cbn [set_promises set_txns txns].
    by apply list_lookup_insert_eq. }
  assert (pre' !! _batchPromise (this w) = Some (mkPromise None (adopters os (length pre'))))
    as Hb3.
  { unfold pre' at 1. rewrite lookup_app_l by lia. rewrite Hb2. unfold os0.
    cbn [adopters adopter app width].
    by replace (length pre') with (length pre + 2) by lia. }
  assert (∀ b, (<[_batchPromise (this w) := b]> pre') !! n = Some rej) as Hp0.
  { intros b. rewrite list_lookup_insert_ne by lia. unfold pre'.
    rewrite <- Hlen. apply lookup_at. }
  exists (ids os0 n), (enqueued os0 w), (n + span os0), w2, w3, n.
  split; [apply invoke_all_enqueue; [by apply ready_accepting|lia]|].
  split; [unfold os0; by rewrite length_ids|].
  split; [apply invoke_commit; [done|done|lia]|].
  split; [reflexivity|].
  split; [apply (get_request_fails w2 pre _ k _ TxActive None _ tid e fuel);
          [exact Hj2|exact Hp2'|exact Ht2'|done|lia]|].
  split; [unfold rejected, state_of; rewrite Hp3; unfold pre';
          rewrite <- app_assoc, <- Hlen; cbn [app]; by rewrite lookup_at|].
  split; [unfold pending, state_of; rewrite Hp3, lookup_app_l by lia; by rewrite Hb3|].
  split.
  { unfold pending, state_of. rewrite Hp3.
    replace (n + span os0) with (length pre' + length (segment Unserved None os (length pre')))
      by (rewrite length_segment, Hlen'; unfold os0; cbn [span width]; lia).
    unfold cs. by rewrite lookup_at2. }
  split.
  { intros i q Hq. unfold os0 in Hq. cbn [ids lookup list_lookup width] in Hq.
    destruct (lookup_lt_is_Some_2 os i) as [o Ho].
    { apply lookup_lt_Some in Hq. by rewrite length_ids in Hq. }
    rewrite (ids_lookup os i o _ Ho) in Hq. injection Hq as <-.
    unfold pending, state_of. rewrite Hp3, <- Hlen'.
    rewrite (segment_lookup Unserved None os i o _ _ Ho). by destruct o. }
  split; [exists tx; split; [exact Ht3|]; split; [reflexivity|apply wanted_acts]|].
  split; [unfold w3; rewrite <- Hd2; by destruct_world_hyps w2|].
  intros txerror arg abort.
  set (o := Rejected (js_or txerror arg)).
  set (tx' := mkTxn (request_of <$> acts os (length pre'))
                (if abort then TxFinished else TxErred) None hs).
  set (w4 := set_txns (<[tid := tx']> (txns w3)) w3).
  assert (promises w4 = promises w3) as Hp4 by (unfold w4; by destruct_world_hyps w3).
  assert (jobs w4 = []) as Hj4 by (unfold w4; destruct_world_hyps w3; by simpl in * ).
  assert (quiesce fuel (txn_onfail (mkHandlers (_batchPromise (this w)) (_batchPromise (this w))
                                      (S (S (length pre' + span os)))) txerror arg w4)
          = Some (set_jobs []
                    (set_promises
                       (<[_batchPromise (this w) := mkPromise (Some o) []]> pre'
                        ++ segment Unserved (Some o) os (length pre')
                        ++ [mkPromise (Some (Fulfilled VUndefined)) []; mkPromise None [];
                            mkPromise (Some (Fulfilled VUndefined)) []]) w4))) as Hq.
  { unfold txn_onfail. cbn [h_rejectBatch h_resolve].
    apply (quiesce_exact (length (adopters os (length pre')) + 1)).
    - apply (settle_batch_drain w4 pre' Unserved os [] _ _ o);
        [by rewrite Hp4, Hp3|exact Hb3|done].
    - by destruct_world_hyps w4.
    - pose proof (length_adopters_le os (length pre')). lia. }
  eexists. split.
  { unfold deliver, handle. destruct abort; rewrite Ht3; unfold tx;
      cbn [bool_decide decide_rel mbind option_bind tx_status];
      rewrite ?bool_decide_false by done; cbn [mbind option_bind];
      exact Hq. }
  split.
  { unfold rejected, state_of. destruct_world_hyps w4. cbn [set_jobs set_promises promises].
    rewrite lookup_app_l by (rewrite length_insert; lia). by rewrite Hp0. }
  split.
  { unfold fulfilled, state_of. destruct_world_hyps w4. cbn [set_jobs set_promises promises].
    replace (n + span os0)
      with (length (<[_batchPromise (this w) := mkPromise (Some o) []]> pre')
            + length (segment Unserved (Some o) os (length pre')))
      by (rewrite length_segment, length_insert, Hlen'; unfold os0; cbn [span width]; lia).
    by rewrite lookup_at2. }
  intros q (i & op & Ho & Hg & Hi).
  destruct i as [|i]; [unfold os0 in Ho; cbn in Ho; injection Ho as <-; done|].
  unfold os0 in Ho, Hi. cbn [ids lookup list_lookup width] in Ho, Hi.
  rewrite (ids_lookup os i op _ Ho) in Hi. injection Hi as <-.
  unfold rejected, state_of. destruct_world_hyps w4. cbn [set_jobs set_promises promises].
  rewrite <- Hlen', <- (length_insert pre' (_batchPromise (this w)) (mkPromise (Some o) [])).
  rewrite (segment_lookup Unserved (Some o) os i op _ _ Ho). by destruct op.
Qed.

Lemma get_request_error_rejects_that_get_witness :
  ∃ ps w1 pc w2 w3 p,
    invoke_all 3 (op_call <$> [OGet "a"; OSet "a" (VNum 1)]) (opened "kv" None None)
    = Some (ps, w1) ∧
    invoke 3 CCommit w1 = Some (pc, w2) ∧ ps !! 0 = Some p ∧
    deliver 3 (RequestError (length (txns (opened "kv" None None)))
                 (VDOMException "UnknownError")) w2 = Some w3 ∧
    rejected w3 p (VDOMException "UnknownError") ∧ pending w3 pc.
Proof.
  destruct (get_request_error_rejects_that_get (opened "kv" None None) "a"
              [OSet "a" (VNum 1)] (VDOMException "UnknownError") 3)
    as (ps & w1 & pc & w2 & w3 & p & H1 & _ & H2 & H3 & H4 & H5 & _ & H6 & _);
    [apply ready_opened|cbn [length]; lia|].
  exists ps, w1, pc, w2, w3, p.
  exact (conj H1 (conj H2 (conj H3 (conj H4 (conj H5 H6))))).
Defined.

(** ** Closing again *)

(** [close] on an instance with nothing to commit whose timer promise is
    fulfilled, whether or not the timer still runs. *)
Lemma invoke_close_idle W t delay active r d rd rt fuel :
  jobs W = [] →
  promises W !! _batchTimer (this W) = Some (mkPromise (Some (Fulfilled (VTimer t))) rt) →
  intervals W !! t = Some (delay, active) →
  _actions (this W) = Some r → arrays W !! r = Some [] →
  promises W !! db (this W) = Some (mkPromise (Some (Fulfilled d)) rd) →
  2 < fuel →
  invoke fuel CClose W = Some (length (promises W), shut [] [] t delay W).
Proof.
  intros Hj Ht Hi Ha Hq Hd Hf.
  pose proof (lookup_lt_Some _ _ _ Ht) as Hlt2.
  unfold invoke. destruct_world_hyps W. subst.
  cbn [call close new_promise set_promises set_this with_closed promises this _batchTimer].
  unfold await, then_. cbn [promises].
  rewrite lookup_app_l, Ht by done.
  cbn [set_jobs jobs app].
  erewrite (quiesce_exact 3); [reflexivity| |reflexivity|lia].
  erewrite (close_chain_empty _ w_ps [] [] _ t delay active r d rd);
    [|reflexivity|reflexivity|cbn [length]; lia|exact Hi|reflexivity|exact Hq|exact Hd].
  unfold shut. simpl. by rewrite <- !app_assoc.
Qed.

(** X6: [close] may be called again.  On a running instance with an empty
    queue the first [close] is fulfilled in its own turn; a second [close] is
    fulfilled as well, with a promise of its own: it clears the timer and
    closes the connection once more, enters [_commit] without opening a
    transaction, and leaves the instance closed and the database as it was. *)
Theorem close_twice w t delay fuel :
  running w t delay → 2 < fuel →
  ∃ pc1 w1 pc2 w2,
    invoke fuel CClose w = Some (pc1, w1) ∧ fulfilled w1 pc1 VUndefined ∧
    conn w1 = ConnClosed ∧
    invoke fuel CClose w1 = Some (pc2, w2) ∧ pc2 ≠ pc1 ∧
    fulfilled w2 pc2 VUndefined ∧ fulfilled w2 pc1 VUndefined ∧
    closed (this w2) = true ∧ conn w2 = ConnClosed ∧
    txns w2 = txns w ∧ database w2 = database w ∧ intervals w2 = intervals w1 ∧
    trace w2 = trace w1 ++ [TClearInterval (VTimer t); TCommit; TDbClose].
Proof.
  intros Hr Hf. pose proof Hr as [[Hj Hc Hq Hb Hres Hrej Hcn [d Hd] Hdat Htx] Ht Hi].
  apply settled_lookup in Ht as [rt Ht]. apply settled_lookup in Hd as [rd Hd].
  unfold queue in Hq. destruct (_actions (this w)) as [r|] eqn:Ha; [simpl in Hq|done].
  pose proof (lookup_lt_Some _ _ _ Ht) as Hlt. pose proof (lookup_lt_Some _ _ _ Hd) as Hlt2.
  pose proof (lookup_lt_Some _ _ _ Hi) as Hlt3.
  set (w1 := shut [] [] t delay w).
  assert (length (promises w1) = length (promises w) + 2) as Hlen.
  { unfold w1, shut. cbn [promises app]. rewrite length_app. cbn [length]. lia. }
  exists (length (promises w)), w1, (length (promises w1)), (shut [] [] t delay w1).
  split; [by apply invoke_close_empty|].
  split; [unfold fulfilled, state_of, w1, shut; cbn [promises app]; by rewrite lookup_at|].
  split; [reflexivity|].
  split.
  { apply (invoke_close_idle w1 t delay false r d rd rt); [reflexivity| | | | | |exact Hf].
    - unfold w1, shut. destruct_world_hyps w. cbn [promises this _batchTimer with_closed].
      by rewrite lookup_app_l.
    - unfold w1, shut. cbn [intervals]. by apply list_lookup_insert_eq.
    - unfold w1, shut. by destruct_world_hyps w.
    - exact Hq.
    - unfold w1, shut. destruct_world_hyps w. cbn [promises this db with_closed].
      by rewrite lookup_app_l. }
  split; [lia|].
  split; [unfold fulfilled, state_of, shut; cbn [promises app]; by rewrite lookup_at|].
  split.
  { unfold fulfilled, state_of, shut. cbn [promises app].
    rewrite lookup_app_l by lia. unfold w1, shut. cbn [promises app]. by rewrite lookup_at. }
  split; [unfold shut; by destruct_world_hyps w|].
  split; [reflexivity|]. split; [reflexivity|]. split; [reflexivity|].
  split; [|reflexivity].
  unfold shut. cbn [intervals]. apply list_insert_id. unfold w1, shut. cbn [intervals].
  by apply list_lookup_insert_eq.
Qed.

Lemma close_twice_witness :
  ∃ pc1 w1 pc2 w2,
    invoke 3 CClose (opened "kv" None None) = Some (pc1, w1) ∧
    invoke 3 CClose w1 = Some (pc2, w2) ∧
    fulfilled w2 pc2 VUndefined ∧ txns w2 = txns (opened "kv" None None).
Proof.
  destruct (close_twice (opened "kv" None None) 0 10 3)
    as (pc1 & w1 & pc2 & w2 & H1 & _ & _ & H2 & _ & H3 & _ & _ & _ & H4 & _);
    [apply (running_opened "kv" None None)|lia|].
  exists pc1, w1, pc2, w2. exact (conj H1 (conj H2 (conj H3 H4))).
Defined.

(** ** Committing after a failed open request *)

Lemma invoke_commit_null W fuel :
  jobs W = [] → _actions (this W) = None →
  invoke fuel CCommit W
  = Some (length (promises W),
          set_promises (promises W ++ [mkPromise (Some (Rejected null_error)) []])
            (emit TCommit W)).
Proof.
  intros Hj Ha. unfold invoke. cbn [call]. unfold _commit.
  destruct_world_hyps W. subst.
  cbn [new_promise promises set_promises emit this _actions].
  erewrite settle_pending; [|cbn [promises]; apply lookup_fresh].
  cbn [set_jobs set_promises jobs promises map app]. rewrite insert_fresh.
  by destruct fuel.
Qed.

(** X7: after a failed open request the queue is [null], and [_commit] fails
    on it: the promise of a [_commit] call is rejected with the TypeError of
    reading [length] of [null]; no transaction is opened, and the promises
    already rejected with the open error keep it. *)
Theorem commit_after_failed_open_throws name interval data os e fuel :
  length os < fuel →
  ∃ ps w1 w2 pc w3,
    invoke_all fuel (op_call <$> os) (constructor name interval data) = Some (ps, w1) ∧
    deliver fuel (OpenError e) w1 = Some w2 ∧ queue w2 = None ∧
    invoke fuel CCommit w2 = Some (pc, w3) ∧
    rejected w3 pc null_error ∧ (∀ p, p ∈ ps → rejected w3 p e) ∧
    txns w3 = [] ∧ trace w3 = [TOpen name; TCommit] ∧ queue w3 = None ∧
    database w3 = data.
Proof.
  intros Hf.
  set (w2 := failed e os name interval data).
  exists (ids os 3), (enqueued os (constructor name interval data)), w2,
    (length (promises w2)),
    (set_promises (promises w2 ++ [mkPromise (Some (Rejected null_error)) []])
       (emit TCommit w2)).
  split; [apply (invoke_all_enqueue os (constructor name interval data));
          [apply constructor_accepting|lia]|].
  split; [by apply open_failure_turn|].
  split; [reflexivity|].
  assert (length (promises w2) = 3 + span os) as Hlen
    by (unfold w2, failed; cbn [promises]; rewrite length_app, length_segment; by cbn [length]).
  assert (∀ ps p, promises (set_promises ps (emit TCommit w2)) !! p = ps !! p) as Hps
    by (intros; by destruct_world_hyps w2).
  split; [apply invoke_commit_null; reflexivity|].
  split; [unfold rejected, state_of; by rewrite Hps, lookup_fresh|].
  split.
  { intros p Hp%ids_bound. unfold rejected, state_of.
    rewrite Hps, lookup_app_l by lia. apply failed_rejected. lia. }
  done.
Qed.

Lemma commit_after_failed_open_throws_witness :
  ∃ ps w1 w2 pc w3,
    invoke_all 2 (op_call <$> [OSet "a" (VNum 1)]) (constructor "kv" None None)
    = Some (ps, w1) ∧
    deliver 2 (OpenError (VDOMException "UnknownError")) w1 = Some w2 ∧
    invoke 2 CCommit w2 = Some (pc, w3) ∧ rejected w3 pc null_error ∧ txns w3 = [].
Proof.
  destruct (commit_after_failed_open_throws "kv" None None [OSet "a" (VNum 1)]
              (VDOMException "UnknownError") 2)
    as (ps & w1 & w2 & pc & w3 & H1 & H2 & _ & H3 & H4 & _ & H5 & _);
    [cbn [length]; lia|].
  exists ps, w1, w2, pc, w3. exact (conj H1 (conj H2 (conj H3 (conj H4 H5)))).
Defined.

(** ** Closing while the database is opening *)

Lemma lookup_beyond {A} (P k : list A) pt x i :
  (<[pt := x]> P ++ k) !! (length P + i) = k !! i.
Proof.
  rewrite lookup_app_r by (rewrite length_insert; lia).
  f_equal. rewrite length_insert. lia.
Qed.

Lemma alter_beyond {A} (f : A → A) (P k : list A) pt x i :
  alter f (length P + i) (<[pt := x]> P ++ k) = <[pt := x]> P ++ alter f i k.
Proof.
  rewrite alter_app_r_alt by (rewrite length_insert; lia).
  do 2 f_equal. rewrite length_insert. lia.
Qed.

Lemma insert_beyond {A} (P k : list A) pt x i y :
  <[length P + i := y]> (<[pt := x]> P ++ k) = <[pt := x]> P ++ <[i := y]> k.
Proof.
  rewrite insert_app_r_alt by (rewrite length_insert; lia).
  do 2 f_equal. rewrite length_insert. lia.
Qed.

Lemma lookup_beyond_0 {A} (P k : list A) pt x :
  (<[pt := x]> P ++ k) !! length P = k !! 0.
Proof. by rewrite <- (Nat.add_0_r (length P)), lookup_beyond. Qed.

Lemma insert_beyond_0 {A} (P k : list A) pt x y :
  <[length P := y]> (<[pt := x]> P ++ k) = <[pt := x]> P ++ <[0 := y]> k.
Proof. by rewrite <- (Nat.add_0_r (length P)) at 1; rewrite insert_beyond. Qed.

Ltac on_cells :=
  repeat match goal with
  | |- context [(?x :: ?l) !! ?i] =>
      let v := eval cbn [lookup list_lookup] in ((x :: l) !! i) in
      change ((x :: l) !! i) with v
  | |- context [alter ?f ?i (?x :: ?l)] =>
      let v := eval cbn [alter list_alter] in (alter f i (x :: l)) in
      change (alter f i (x :: l)) with v
  | |- context [<[?i := ?y]> (?x :: ?l)] =>
      let v := eval cbn [insert list_insert] in (<[i := y]> (x :: l)) in
      change (<[i := y]> (x :: l)) with v
  end.

(** The database opens on an instance whose [close] is already waiting for
    the timer, with calls in the queue: the start-up commit takes the queue
    into a transaction and the timer is set; then [close] goes on at once,
    clears the timer, finds the queue empty and closes the connection. *)
Lemma open_close_chain_batch W P pt dv dv' rs r a q :
  jobs W = [JReact (RResume (KStartBatchTimer pt)) (Fulfilled dv)] →
  promises W = P ++ [mkPromise None []] →
  P !! pt = Some (mkPromise None [RResume (KCloseTimer (length P))]) →
  P !! db (this W) = Some (mkPromise (Some (Fulfilled dv')) rs) →
  conn W = Open → _actions (this W) = Some r → arrays W !! r = Some (a :: q) →
  drain 6 W
  = set_jobs []
      (set_conn ConnClosed
         (set_txns (txns W ++ [mkTxn (request_of <$> (a :: q)) TxActive None
                                 (Some (mkHandlers (_resolveBatch (this W))
                                          (_rejectBatch (this W)) (length P + 3)))])
            (set_promises
               (<[pt := mkPromise (Some (Fulfilled (VTimer (length (intervals W))))) []]> P
                ++ [mkPromise (Some (Fulfilled VUndefined)) []; mkPromise None [];
                    mkPromise None []; mkPromise None [RAdopt (length P + 1)];
                    mkPromise (Some (Fulfilled VUndefined)) []])
               (set_this (with_batch (length P + 2) (length P + 2) (length P + 2))
                  (set_this (with_actions (Some (length (arrays W))))
                     (set_arrays (arrays W ++ [[]])
                        (set_intervals (intervals W ++ [(batchInterval (this W), false)])
                           (emit TDbClose (emit TCommit
                              (emit (TClearInterval (VTimer (length (intervals W))))
                                 (emit (TTransaction (length (txns W)))
                                    (emit (TSetInterval (length (intervals W))
                                             (batchInterval (this W)))
                                       (emit TCommit W))))))))))))).
Proof.
  intros Hj Hp Hpt Hd Hc Ha Hq.
  pose proof (lookup_lt_Some _ _ _ Hd) as Hlt. pose proof (lookup_lt_Some _ _ _ Hpt) as Hlt2.
  pose proof (lookup_lt_Some _ _ _ Hq) as Hlt3.
  assert (pt ≠ db (this W)) as Hne by (intros ->; by rewrite Hd in Hpt).
  destruct_world_hyps W. subst.
  (* _startBatchTimer goes on *)
  step_job. cbn [set_jobs run_job resume startBatchTimer_resume].
  unfold _commit. cbn [new_promise promises set_promises emit this _actions arrays].
  rewrite Hq.
  cbn [set_this set_arrays with_actions with_batch arrays this _resolveBatch _rejectBatch
       new_promise promises set_promises db].
  unfold await, then_. cbn [promises].
  rewrite !(lookup_app_l _ _ w_db), Hd by (rewrite ?length_app; cbn [length]; lia).
  cbn [set_jobs jobs app setInterval this batchInterval intervals set_intervals emit].
  erewrite settle_pending;
    [|cbn [promises]; rewrite !(lookup_app_l _ _ pt) by (rewrite ?length_app; cbn [length]; lia);
      exact Hpt].
  cbn [set_jobs set_promises jobs promises map app].
  rewrite !insert_app_l by (rewrite ?length_app; cbn [length]; lia).
  rewrite <- !app_assoc. cbn [app].
  (* _commit goes on: the transaction *)
  step_job. cbn [set_jobs run_job resume commit_resume conn txns emit new_promise promises
                 set_promises set_txns arrays].
  rewrite lookup_app_l, Hq by done. cbn [default from_option id].
  unfold resolve_with_promise. cbn [promises].
  rewrite <- !app_assoc. cbn [app].
  rewrite !length_app, ?length_insert. cbn [length].
  rewrite lookup_beyond. on_cells. cbn [set_jobs jobs app].
  (* close goes on *)
  step_job. cbn [set_jobs run_job resume close_resume_timer clearInterval emit intervals].
  rewrite lookup_fresh. cbn [set_intervals]. rewrite insert_fresh.
  unfold _commit. cbn [new_promise promises set_promises emit this _actions arrays].
  rewrite lookup_fresh.
  erewrite settle_pending; [|cbn [promises]; apply lookup_fresh].
  cbn [set_jobs set_promises jobs promises map app]. rewrite insert_fresh.
  unfold await, then_. cbn [promises]. rewrite lookup_fresh. cbn [set_jobs jobs app].
  rewrite <- !app_assoc. cbn [app].
  (* the promise of the start-up commit takes up the promise of line 139 *)
  step_job. cbn [set_jobs run_job]. unfold then_. cbn [promises].
  rewrite lookup_beyond. on_cells. cbn [set_promises].
  rewrite alter_beyond. on_cells.
  (* close: await this.db, then db.close() *)
  step_job. cbn [set_jobs run_job resume close_resume_commit this db].
  unfold await, then_. cbn [promises].
  rewrite lookup_app_l by (by rewrite length_insert).
  rewrite list_lookup_insert_ne, Hd by done. cbn [set_jobs jobs app].
  step_job. cbn [set_jobs run_job resume close_resume_db set_conn emit].
  erewrite settle_pending;
    [|cbn [promises]; rewrite lookup_beyond_0; reflexivity].
  cbn [set_jobs set_promises jobs promises map app drain].
  rewrite insert_beyond_0. on_cells.
  unfold add_reactions. cbn [pstate reactions app].
  cbn [set_jobs set_conn set_txns set_promises set_this set_arrays set_intervals emit
       with_batch with_actions this txns arrays intervals trace].
  by rewrite <- !app_assoc.
Qed.

Lemma invoke_close_connecting name interval data os fuel :
  invoke fuel CClose (enqueued os (constructor name interval data))
  = Some (3 + span os, waiting_close os name interval data).
Proof.
  rewrite enqueued_constructor. unfold invoke.
  cbn [call close new_promise set_promises set_this with_closed promises this _batchTimer].
  unfold await, then_. cbn [promises app]. on_cells.
  cbn [set_promises quiesce]. on_cells.
  cbn [length]. rewrite length_segment.
  unfold quiesce. rewrite drain_quiet by reflexivity.
  cbn [jobs mbind option_bind]. unfold waiting_close, add_reactions.
  cbn [pstate reactions app]. reflexivity.
Qed.

(** The turn in which the database opens, [close] waiting. *)
Lemma close_at_open_turn name interval data os fuel :
  5 < fuel →
  deliver fuel OpenSuccess (waiting_close os name interval data)
  = Some (closed_at_open os name interval data).
Proof.
  intros Hf. unfold deliver, handle.
  destruct os as [|o os'].
  { cbn. by destruct fuel as [|[|[|[|[|fuel]]]]]; [lia..|]. }
  set (os := o :: os').
  destruct (acts os 3) as [|a q] eqn:Hacts.
  { apply (f_equal length) in Hacts. by rewrite length_acts in Hacts. }
  unfold waiting_close.
  cbn [conn mbind option_bind]. unfold open_onsuccess.
  cbn [set_conn set_database database dbName this db].
  erewrite settle_pending; [|reflexivity].
  cbn [set_jobs set_promises jobs promises map app insert list_insert].
  apply (quiesce_exact 6); [|reflexivity|lia].
  set (P := mkPromise (Some (Fulfilled (VDatabase name))) []
            :: mkPromise None (adopters os 3)
            :: mkPromise None [RResume (KCloseTimer (3 + span os))]
            :: segment Unserved None os 3).
  assert (length P = 3 + span os) as Hlen
    by (unfold P; cbn [length]; by rewrite length_segment).
  erewrite (open_close_chain_batch _ P 2 _ (VDatabase name) [] 0 a q);
    [|reflexivity|cbn [promises]; unfold P; reflexivity|by rewrite Hlen|reflexivity
     |reflexivity|reflexivity|cbn [arrays lookup list_lookup]; by rewrite Hacts].
  unfold closed_at_open. subst os.
  cbn [set_jobs set_conn set_txns set_promises set_this set_arrays set_intervals emit
       with_batch with_actions this txns arrays intervals promises _resolveBatch
       _rejectBatch batchInterval length app].
  rewrite Hlen, Hacts. unfold P. cbn [insert list_insert app]. 
  reflexivity.
Qed.

(** The handlers of a transaction, when promises were made both between the
    batch and its commit ([mid]) and after the commit ([tail]). *)
Lemma settle_batch_drain_tail w pre g os mid tail rc cb pb o c :
  promises w = pre ++ segment g None os (length pre) ++ mid
                   ++ mkPromise None rc :: cb :: mkPromise None [RAdopt c] :: tail →
  c = length pre + span os + length mid →
  pre !! pb = Some (mkPromise None (adopters os (length pre))) →
  jobs w = [] →
  drain (length (adopters os (length pre)) + 1)
    (settle (c + 2) (Fulfilled VUndefined) (settle pb o w))
  = set_jobs ((λ r, JReact r (Fulfilled VUndefined)) <$> rc)
      (set_promises (<[pb := mkPromise (Some o) []]> pre ++ segment g (Some o) os (length pre)
                     ++ mid ++ mkPromise (Some (Fulfilled VUndefined)) [] :: cb
                               :: mkPromise (Some (Fulfilled VUndefined)) [] :: tail) w).
Proof.
  intros Hp -> Hb Hj. pose proof (lookup_lt_Some _ _ _ Hb) as Hlt.
  rewrite drain_add.
  destruct_world_hyps w. subst.
  erewrite (settle_pending _ pb); [|cbn [promises]; by rewrite lookup_app_l].
  cbn [set_promises set_jobs jobs promises app].
  rewrite insert_app_l by done.
  set (pre' := <[pb := mkPromise (Some o) []]> pre).
  assert (length pre' = length pre) as Hlen by apply length_insert.
  rewrite <- Hlen.
  assert (∀ b, length pre' + span os = length (pre' ++ segment g b os (length pre'))) as Hix
    by (intros; rewrite length_app, length_segment; lia).
  rewrite (Hix None), (app_assoc pre').
  erewrite settle_pending; [|cbn [promises]; apply lookup_past_2].
  cbn [set_promises set_jobs jobs promises app map]. rewrite insert_past_2.
  rewrite <- (app_assoc pre').
  erewrite drain_adopters; [|reflexivity|reflexivity].
  cbn [set_promises set_jobs]. step_job. cbn [set_jobs run_job].
  rewrite length_app, length_segment, (Hix (Some o)), (app_assoc pre').
  erewrite settle_pending; [|cbn [promises]; apply lookup_at2].
  cbn [set_promises set_jobs jobs promises app map drain].
  by rewrite insert_at2, <- (app_assoc pre').
Qed.

(** The start-up transaction is served and completes after the connection
    has been closed. *)
Lemma closed_at_open_completes name interval data os fuel :
  os ≠ [] → length os < fuel →
  deliver_all fuel (replicate (length os) (RequestSuccess 0) ++ [TxnComplete 0])
    (closed_at_open os name interval data)
  = Some (mkWorld (mkIdbkv "idb-kv" (default 10%Z interval) 0 (Some 1) true
                     (3 + span os + 2) (3 + span os + 2) (3 + span os + 2) 2)
            ([mkPromise (Some (Fulfilled (VDatabase name))) [];
              mkPromise (Some (Fulfilled VUndefined)) [];
              mkPromise (Some (Fulfilled (VTimer 0))) []]
             ++ segment (Served (default ∅ data)) (Some (Fulfilled VUndefined)) os 3
             ++ [mkPromise (Some (Fulfilled VUndefined)) [];
                 mkPromise (Some (Fulfilled VUndefined)) []; mkPromise None [];
                 mkPromise (Some (Fulfilled VUndefined)) [];
                 mkPromise (Some (Fulfilled VUndefined)) []])
            [acts os 3; []] [] [(default 10%Z interval, false)] name ConnClosed
            (Some (apply_ops os (default ∅ data)))
            [mkTxn [] TxFinished (Some (default ∅ data))
               (Some (mkHandlers 1 1 (3 + span os + 3)))] []
            [TOpen name; TCommit; TSetInterval 0 (default 10%Z interval); TTransaction 0;
             TClearInterval (VTimer 0); TCommit; TDbClose]).
Proof.
  intros Hos Hf. rewrite deliver_all_app.
  set (d := default ∅ data).
  set (pre := [mkPromise (Some (Fulfilled (VDatabase name))) []; mkPromise None (adopters os 3);
               mkPromise (Some (Fulfilled (VTimer 0))) []]).
  set (fu := mkPromise (Some (Fulfilled VUndefined)) []).
  assert (closed_at_open os name interval data
          = mkWorld (mkIdbkv "idb-kv" (default 10%Z interval) 0 (Some 1) true
                       (3 + span os + 2) (3 + span os + 2) (3 + span os + 2) 2)
              (pre ++ segment Unserved None os (length pre)
               ++ [fu] ++ mkPromise None [] :: mkPromise None []
                          :: mkPromise None [RAdopt (3 + span os + 1)] :: [fu])
              [acts os 3; []] [] [(default 10%Z interval, false)] name ConnClosed (Some d)
              [mkTxn (request_of <$> acts os (length pre)) TxActive None
                 (Some (mkHandlers 1 1 (3 + span os + 3)))] []
              [TOpen name; TCommit; TSetInterval 0 (default 10%Z interval); TTransaction 0;
               TClearInterval (VTimer 0); TCommit; TDbClose])
    as -> by (by destruct os).
  erewrite (serve_all os None pre _ _ d None _ 0 fuel);
    [|reflexivity|reflexivity|reflexivity|reflexivity|reflexivity|lia].
  cbn [mbind option_bind deliver_all set_promises set_database set_txns txns insert
       list_insert].
  unfold deliver, handle.
  cbn [txns lookup list_lookup set_txns insert list_insert mbind option_bind run_handlers
       txn_oncomplete h_resolveBatch h_resolve].
  replace (3 + span os + 3) with (3 + span os + 1 + 2) at 1 by lia.
  erewrite (quiesce_exact (length (adopters os (length pre)) + 1));
    [|eapply (settle_batch_drain_tail _ pre (Served d) os [fu] [fu] [] _ 1
                (Fulfilled VUndefined));
      [reflexivity|reflexivity|reflexivity|reflexivity]
     |reflexivity
     |pose proof (length_adopters_le os (length pre)); lia].
  cbn [mbind option_bind set_jobs set_promises fmap list_fmap].
  assert (backup_after os d None = Some d) as -> by (by destruct os).
  reflexivity.
Qed.

(** X8: [close] called while the database is still opening, after the calls
    [os].  The call sets [closed] and waits; nothing is asked of IndexedDB.
    In the turn in which the database opens, the start-up [_commit] takes the
    calls into a transaction (none when there were no calls), the timer is set
    and cleared again, so that no tick can come, the connection is closed and
    the promise of [close] is fulfilled, all in that one turn, while the
    promises of the calls are still pending.  The calls are not lost: once
    their transaction is served and completes they are fulfilled. *)
Theorem close_while_connecting name interval data os fuel :
  length os + 5 < fuel →
  let delay := default 10%Z interval in
  let d := default ∅ data in
  ∃ ps w1 pc w2 w3,
    invoke_all fuel (op_call <$> os) (constructor name interval data) = Some (ps, w1) ∧
    length ps = length os ∧
    invoke fuel CClose w1 = Some (pc, w2) ∧
    closed (this w2) = true ∧ pending w2 pc ∧ trace w2 = [TOpen name] ∧
    deliver fuel OpenSuccess w2 = Some w3 ∧
    trace w3 = [TOpen name; TCommit; TSetInterval 0 delay]
                 ++ match os with [] => [] | _ :: _ => [TTransaction 0] end
                 ++ [TClearInterval (VTimer 0); TCommit; TDbClose] ∧
    intervals w3 = [(delay, false)] ∧ (∀ id, deliver fuel (Tick id) w3 = None) ∧
    conn w3 = ConnClosed ∧ fulfilled w3 pc VUndefined ∧
    (∀ p, p ∈ ps → pending w3 p) ∧
    (os ≠ [] →
       ∃ w4, deliver_all fuel (replicate (length os) (RequestSuccess 0) ++ [TxnComplete 0]) w3
             = Some w4 ∧
             database w4 = Some (apply_ops os d) ∧
             ∀ i o, os !! i = Some o →
               ∃ p, ps !! i = Some p ∧
                    fulfilled w4 p match o with
                                   | OGet k => read (apply_ops (take i os) d) k
                                   | _ => VUndefined
                                   end).
Proof.
  intros Hf delay d.
  set (w0 := constructor name interval data).
  assert (∀ W pre post g b,
    promises W = pre ++ segment g b os 3 ++ post → length pre = 3 →
    ∀ i o, os !! i = Some o →
      state_of W (3 + span (take i os)) = pstate <$> cells (steps_reads (take i os) g) b o
                                                     (3 + span (take i os)) !! 0) as Hcell.
  { intros W pre post g b Hp Hl i o Ho. unfold state_of. rewrite Hp, <- Hl.
    by rewrite (segment_lookup g b os i o pre post Ho). }
  assert (∀ W pre post, promises W = pre ++ segment Unserved None os 3 ++ post →
            length pre = 3 → state_of W (3 + span os) = pstate <$> post !! 0) as Hpc.
  { intros W pre post Hp Hl. unfold state_of. rewrite Hp, <- Hl.
    rewrite <- (length_segment Unserved None os (length pre)) at 1.
    rewrite lookup_app_r, lookup_app_r by lia. do 2 f_equal. lia. }
  exists (ids os 3), (enqueued os w0), (3 + span os), (waiting_close os name interval data),
    (closed_at_open os name interval data).
  split; [apply (invoke_all_enqueue os w0); [apply constructor_accepting|lia]|].
  split; [apply length_ids|].
  split; [apply invoke_close_connecting|].
  split; [reflexivity|].
  split; [unfold pending;
          erewrite (Hpc (waiting_close os name interval data)); [|reflexivity|reflexivity];
          reflexivity|].
  split; [reflexivity|].
  split; [apply close_at_open_turn; lia|].
  split; [by destruct os|]. split; [by destruct os|].
  split; [intros [|id]; by destruct os|].
  split; [by destruct os|].
  split.
  { unfold fulfilled. destruct os as [|o os']; [reflexivity|].
    erewrite (Hpc (closed_at_open (o :: os') name interval data)); [|reflexivity|reflexivity].
    reflexivity. }
  split.
  { intros p [i Hi]%list_elem_of_lookup.
    destruct (lookup_lt_is_Some_2 os i) as [o Ho].
    { apply lookup_lt_Some in Hi. by rewrite length_ids in Hi. }
    rewrite (ids_lookup os i o _ Ho) in Hi. injection Hi as <-.
    unfold pending. change (S (S (S ?x))) with (3 + x).
    erewrite (Hcell (closed_at_open os name interval data) _ _ Unserved None);
      [|by destruct os|reflexivity|exact Ho].
    by destruct o. }
  intros Hos. eexists.
  split; [apply closed_at_open_completes; [done|lia]|].
  split; [reflexivity|].
  intros i o Ho. apply (ids_fulfilled os 3 i o); [exact Ho|].
  erewrite (Hcell _ _ _ (Served d) (Some (Fulfilled VUndefined)));
    [|reflexivity|reflexivity|exact Ho].
  by destruct o.
Qed.

Lemma close_while_connecting_witness :
  ∃ ps w1 pc w2 w3 p,
    invoke_all 7 (op_call <$> [OSet "a" (VNum 1)]) (constructor "kv" None None)
    = Some (ps, w1) ∧
    invoke 7 CClose w1 = Some (pc, w2) ∧
    deliver 7 OpenSuccess w2 = Some w3 ∧
    fulfilled w3 pc VUndefined ∧ conn w3 = ConnClosed ∧
    ps !! 0 = Some p ∧ pending w3 p.
Proof.
  destruct (close_while_connecting "kv" None None [OSet "a" (VNum 1)] 7)
    as (ps & w1 & pc & w2 & w3 & H1 & Hl & H2 & _ & _ & _ & H3 & _ & _ & _ & H4 & H5 & H6 & _);
    [cbn [length]; lia|].
  destruct (lookup_lt_is_Some_2 ps 0) as [p Hp]; [rewrite Hl; cbn [length]; lia|].
  exists ps, w1, pc, w2, w3, p.
  refine (conj H1 (conj H2 (conj H3 (conj H5 (conj H4 (conj Hp _)))))).
  apply H6. by apply list_elem_of_lookup_2 in Hp.
Defined.

(** ** Reads are answered before the transaction is decided *)

Lemma state_of_segment W pre post g b os i o :
  promises W = pre ++ segment g b os (length pre) ++ post → os !! i = Some o →
  state_of W (length pre + span (take i os))
  = pstate <$> cells (steps_reads (take i os) g) b o (length pre + span (take i os)) !! 0.
Proof.
  intros Hp Ho. unfold state_of. rewrite Hp.
  by rewrite (segment_lookup g b os i o pre post Ho).
Qed.

(** X9: a [get] is settled by its own request, before the transaction is
    decided.  Once the requests of a committed batch are answered, every
    [get] of the batch is fulfilled with the value read, which includes the
    earlier writes of the same batch, while the writes, the batch outcome
    promise and the [_commit] call are still pending.  When the transaction
    is aborted afterwards the writes are rejected and the database is as it
    was before the batch, but the [get]s keep the values they were given. *)
Theorem gets_settle_before_transaction w os d fuel :
  ready w → database w = Some d → os ≠ [] → length os < fuel →
  let tid := length (txns w) in
  ∃ ps w1 pc w2 w3,
    invoke_all fuel (op_call <$> os) w = Some (ps, w1) ∧ length ps = length os ∧
    invoke fuel CCommit w1 = Some (pc, w2) ∧
    deliver_all fuel (replicate (length os) (RequestSuccess tid)) w2 = Some w3 ∧
    (∀ i k p, os !! i = Some (OGet k) → ps !! i = Some p →
       fulfilled w3 p (read (apply_ops (take i os) d) k)) ∧
    (∀ p, write_of os ps p → pending w3 p) ∧
    pending w3 pc ∧ pending w3 (_batchPromise (this w)) ∧
    database w3 = Some (apply_ops os d) ∧
    (∀ txerror arg,
       ∃ w4, deliver fuel (TxnAbort tid txerror arg) w3 = Some w4 ∧
             database w4 = Some d ∧
             (∀ i k p, os !! i = Some (OGet k) → ps !! i = Some p →
                fulfilled w4 p (read (apply_ops (take i os) d) k)) ∧
             (∀ p, write_of os ps p → rejected w4 p (js_or txerror arg)) ∧
             fulfilled w4 pc VUndefined).
Proof.
  intros Hw Hd Hos Hf tid.
  assert (1 < fuel) as Hf2 by (destruct os; [done|simpl in Hf; lia]).
  destruct (committed_enqueued_shape os w Hw Hos) as (Hj2 & Hp2 & Hb2 & Ht2 & Hd2).
  set (n := length (promises w)) in *.
  set (pre := alter (add_reactions (adopters os n)) (_batchPromise (this w)) (promises w)) in *.
  assert (length pre = n) as Hlen by apply length_alter.
  pose proof (batch_allocated w (ready_accepting w Hw)) as Hlt. fold n in Hlt.
  set (w2 := committed (enqueued os w)) in *.
  set (cs := [mkPromise None []; mkPromise None [];
              mkPromise None [RAdopt (length pre + span os)]]) in *.
  set (h := batch_handlers os w) in *.
  set (w3 := set_promises (pre ++ segment (Served d) None os (length pre) ++ cs)
               (set_database (Some (apply_ops os d))
                  (set_txns (<[tid := mkTxn [] TxActive (backup_after os d None) h]> (txns w2))
                     w2))).
  assert (deliver_all fuel (replicate (length os) (RequestSuccess tid)) w2 = Some w3) as Hserve.
  { apply (serve_all os None pre cs w2 d None h tid fuel); [done|done| | |by rewrite Hd2|lia].
    - rewrite Ht2. unfold tid. by rewrite lookup_fresh.
    - unfold tid. pose proof (earlier_finished_snoc w
        (mkTxn (request_of <$> acts os (length pre)) TxActive None h) (rd_txns _ Hw)) as He.
      unfold earlier_finished in *. rewrite Ht2. by destruct_world w. }
  assert (promises w3 = pre ++ segment (Served d) None os (length pre) ++ cs) as Hp3
    by (unfold w3; by destruct_world_hyps w2).
  assert (jobs w3 = []) as Hj3 by (unfold w3; by destruct_world_hyps w2).
  assert (txns w3 !! tid = Some (mkTxn [] TxActive (Some d) h)) as Ht3.
  { assert (tid < length (txns w2)) as Hlt3
      by (rewrite Ht2, length_app; cbn [length]; unfold tid; lia).
    assert (backup_after os d None = Some d) as Hbk by (by destruct os).
    unfold w3. rewrite Hbk. destruct_world_hyps w2. cbn [set_promises set_database set_txns txns].
    by apply list_lookup_insert_eq. }
  assert (∀ W g b post i o p,
            promises W = pre ++ segment g b os (length pre) ++ post →
            os !! i = Some o → ids os n !! i = Some p →
            state_of W p = pstate <$> cells (steps_reads (take i os) g) b o p !! 0) as Hcell.
  { intros W g b post i o p HpW Ho Hp. rewrite (write_lookup _ _ _ _ _ Ho Hp), <- Hlen.
    by apply (state_of_segment W pre post g b os i o). }
  exists (ids os n), (enqueued os w), (n + span os), w2, w3.
  split; [apply invoke_all_enqueue; [by apply ready_accepting|lia]|].
  split; [apply length_ids|].
  split; [by apply invoke_commit|].
  split; [exact Hserve|].
  split.
  { intros i k p Ho Hp. unfold fulfilled. by rewrite (Hcell w3 _ _ _ i _ p Hp3 Ho Hp). }
  split.
  { intros p (i & o & Ho & Hg & Hp). unfold pending.
    rewrite (Hcell w3 _ _ _ i _ p Hp3 Ho Hp). by destruct o. }
  split.
  { unfold pending, state_of. rewrite Hp3, <- Hlen.
    rewrite <- (length_segment (Served d) None os (length pre)) at 1.
    unfold cs. by rewrite lookup_at2. }
  split; [unfold pending, state_of; rewrite Hp3, lookup_app_l by lia; by rewrite Hb2|].
  split; [unfold w3; by destruct_world_hyps w2|].
  intros txerror arg.
  set (o := Rejected (js_or txerror arg)).
  set (w4 := set_database (Some d)
               (set_txns (<[tid := mkTxn [] TxFinished (Some d) h]> (txns w3)) w3)).
  assert (promises w4 = promises w3) as Hp4 by (unfold w4; by destruct_world_hyps w3).
  assert (jobs w4 = []) as Hj4.
  { unfold w4. clear Hp4. destruct_world_hyps w3. by subst. }
  set (w5 := set_jobs []
               (set_promises
                  (<[_batchPromise (this w) := mkPromise (Some o) []]> pre
                   ++ segment (Served d) (Some o) os (length pre)
                   ++ [mkPromise (Some (Fulfilled VUndefined)) []; mkPromise None [];
                       mkPromise (Some (Fulfilled VUndefined)) []]) w4)).
  assert (promises w5 = <[_batchPromise (this w) := mkPromise (Some o) []]> pre
                        ++ segment (Served d) (Some o) os
                             (length (<[_batchPromise (this w) := mkPromise (Some o) []]> pre))
                        ++ [mkPromise (Some (Fulfilled VUndefined)) []; mkPromise None [];
                            mkPromise (Some (Fulfilled VUndefined)) []]) as Hp5
    by (unfold w5; rewrite length_insert; by destruct_world_hyps w4).
  exists w5. split.
  { unfold deliver, handle. rewrite Ht3. rewrite bool_decide_false by done.
    cbn [mbind option_bind]. fold w4. unfold h, batch_handlers, run_handlers, txn_onfail.
    cbn [h_rejectBatch h_resolve]. fold n. rewrite <- Hlen.
    apply (quiesce_exact (length (adopters os (length pre)) + 1)).
    - apply (settle_batch_drain w4 pre (Served d) os [] _ _ o);
        [by rewrite Hp4, Hp3|exact Hb2|done].
    - reflexivity.
    - pose proof (length_adopters_le os (length pre)). lia. }
  split; [unfold w5, w4; by destruct_world_hyps w3|].
  assert (∀ i o' p, os !! i = Some o' → ids os n !! i = Some p →
            state_of w5 p = pstate <$> cells (steps_reads (take i os) (Served d)) (Some o) o' p
                                         !! 0) as Hcell5.
  { intros i o' p Ho Hp. rewrite (write_lookup _ _ _ _ _ Ho Hp), <- Hlen.
    rewrite <- (length_insert pre (_batchPromise (this w)) (mkPromise (Some o) [])).
    exact (state_of_segment w5 _ _ _ _ os i o' Hp5 Ho). }
  split.
  { intros i k p Ho Hp. unfold fulfilled. by rewrite (Hcell5 i _ p Ho Hp). }
  split.
  { intros p (i & o' & Ho & Hg & Hp). unfold rejected.
    rewrite (Hcell5 i _ p Ho Hp). by destruct o'. }
  unfold fulfilled, state_of. rewrite Hp5.
  set (X := <[_batchPromise (this w) := mkPromise (Some o) []]> pre).
  replace (n + span os) with (length X + length (segment (Served d) (Some o) os (length X)))
    by (rewrite length_segment; unfold X; rewrite length_insert; lia).
  by rewrite lookup_at2.
Qed.

Lemma gets_settle_before_transaction_witness :
  ∃ ps w1 pc w2 w3 w4 p,
    invoke_all 3 (op_call <$> [OSet "a" (VNum 1); OGet "a"]) (opened "kv" None None)
    = Some (ps, w1) ∧
    invoke 3 CCommit w1 = Some (pc, w2) ∧
    deliver_all 3 (replicate 2 (RequestSuccess (length (txns (opened "kv" None None))))) w2
    = Some w3 ∧
    ps !! 1 = Some p ∧ fulfilled w3 p (VNum 1) ∧ pending w3 pc ∧
    deliver 3 (TxnAbort (length (txns (opened "kv" None None))) VNull (VEvent "abort")) w3
    = Some w4 ∧
    database w4 = Some ∅ ∧ fulfilled w4 p (VNum 1).
Proof.
  destruct (gets_settle_before_transaction (opened "kv" None None)
              [OSet "a" (VNum 1); OGet "a"] ∅ 3)
    as (ps & w1 & pc & w2 & w3 & H1 & Hl & H2 & H3 & H4 & _ & H5 & _ & _ & H6);
    [apply ready_opened|reflexivity|discriminate|cbn [length]; lia|].
  destruct (H6 VNull (VEvent "abort")) as (w4 & H7 & H8 & H9 & _).
  destruct (lookup_lt_is_Some_2 ps 1) as [p Hp]; [rewrite Hl; cbn [length]; lia|].
  exists ps, w1, pc, w2, w3, w4, p.
  exact (conj H1 (conj H2 (conj H3 (conj Hp (conj (H4 1 "a" p eq_refl Hp)
          (conj H5 (conj H7 (conj H8 (H9 1 "a" p eq_refl Hp))))))))).
Defined.

(** ** A transaction aborted with its requests unanswered *)

(** The request at the head of a transaction fails: a [get] is rejected with
    the error of its request; the request of a write has no handler. *)
Lemma refuse_one o os b pre post w st bk h tid e fuel :
  jobs w = [] →
  promises w = pre ++ segment Unserved b (o :: os) (length pre) ++ post →
  txns w !! tid = Some (mkTxn (request_of <$> acts (o :: os) (length pre)) st bk h) →
  st ≠ TxFinished → 0 < fuel →
  deliver fuel (RequestError tid e) w
  = Some (set_promises ((pre ++ cells (Refused e) b o (length pre))
                        ++ segment Unserved b os (length pre + width o) ++ post)
            (set_txns (<[tid := mkTxn (request_of <$> acts os (length pre + width o))
                                     st bk h]> (txns w)) w)).
Proof.
  intros Hj Hp Ht Hst Hf.
  destruct o as [k|k v|k].
  - cbn [acts fmap list_fmap request_of action_of] in Ht.
    cbn [segment cells step_reads width] in Hp. rewrite <- app_assoc in Hp.
    rewrite (get_request_fails w pre _ k _ st bk h tid e fuel Hj Hp Ht Hst Hf).
    cbn [cells width]. by rewrite <- !app_assoc.
  - unfold deliver, handle. rewrite Ht. cbn [acts fmap list_fmap request_of action_of].
    rewrite bool_decide_false by done. cbn [mbind option_bind].
    apply (quiesce_exact 0); [|by destruct_world w|lia].
    destruct_world_hyps w. subst. cbn [drain set_txns set_promises segment cells step_reads width].
    by rewrite <- !app_assoc.
  - unfold deliver, handle. rewrite Ht. cbn [acts fmap list_fmap request_of action_of].
    rewrite bool_decide_false by done. cbn [mbind option_bind].
    apply (quiesce_exact 0); [|by destruct_world w|lia].
    destruct_world_hyps w. subst. cbn [drain set_txns set_promises segment cells step_reads width].
    by rewrite <- !app_assoc.
Qed.

(** Every request of a transaction fails, in order. *)
Lemma refuse_all e os : ∀ b pre post w st bk h tid fuel,
  jobs w = [] →
  promises w = pre ++ segment Unserved b os (length pre) ++ post →
  txns w !! tid = Some (mkTxn (request_of <$> acts os (length pre)) st bk h) →
  st ≠ TxFinished → 0 < fuel →
  deliver_all fuel (replicate (length os) (RequestError tid e)) w
  = Some (set_promises (pre ++ segment (Refused e) b os (length pre) ++ post)
            (set_txns (<[tid := mkTxn [] st bk h]> (txns w)) w)).
Proof.
  induction os as [|o os IH]; intros b pre post w st bk h tid fuel Hj Hp Ht Hst Hf.
  - destruct_world w. subst. by rewrite list_insert_id.
  - cbn [length replicate deliver_all]. erewrite refuse_one by done. cbn [mbind option_bind].
    pose proof (lookup_lt_Some _ _ _ Ht) as Hlt.
    erewrite (IH b (pre ++ cells (Refused e) b o (length pre)) post _ st bk h tid fuel).
    + destruct_world w. subst. rewrite list_insert_insert_eq.
      by rewrite length_app, length_cells, <- !app_assoc.
    + by destruct_world w.
    + destruct_world w. by rewrite length_app, length_cells.
    + destruct_world w. by rewrite list_lookup_insert_eq, length_app, length_cells.
    + done.
    + done.
Qed.

Lemma settle_settled w p o o' rs :
  promises w !! p = Some (mkPromise (Some o') rs) → settle p o w = w.
Proof. intros Hp. unfold settle. by rewrite Hp. Qed.

(** The handler of the transaction runs after the request at the head has
    failed: the writes of the whole batch take up the outcome [x]. *)
Lemma first_error_settles W pre o os rc cb pb x e :
  jobs W = [] →
  promises W = pre ++ cells (Refused e) None o (length pre)
                   ++ segment Unserved None os (length pre + width o)
                   ++ [mkPromise None rc; cb;
                       mkPromise None [RAdopt (length pre + span (o :: os))]] →
  pre !! pb = Some (mkPromise None (adopters (o :: os) (length pre))) →
  drain (length (adopters (o :: os) (length pre)) + 1)
    (settle (S (S (length pre + span (o :: os)))) (Fulfilled VUndefined) (settle pb x W))
  = set_jobs ((λ r, JReact r (Fulfilled VUndefined)) <$> rc)
      (set_promises (<[pb := mkPromise (Some x) []]> pre
                     ++ cells (Refused e) (Some x) o (length pre)
                     ++ segment Unserved (Some x) os (length pre + width o)
                     ++ [mkPromise (Some (Fulfilled VUndefined)) []; cb;
                         mkPromise (Some (Fulfilled VUndefined)) []]) W).
Proof.
  intros Hj Hp Hb. pose proof (lookup_lt_Some _ _ _ Hb) as Hlt.
  destruct o as [k|k v|k].
  - cbn [cells width span adopters adopter app] in *.
    set (rej := mkPromise (Some (Rejected e)) []) in *.
    set (pre' := pre ++ [rej; rej]).
    assert (length pre' = length pre + 2) as Hlen
      by (unfold pre'; rewrite length_app; by cbn [length]).
    rewrite <- Hlen in *.
    replace (length pre + (2 + span os)) with (length pre' + span os) in * by lia.
    rewrite (settle_batch_drain W pre' Unserved os rc cb pb x);
      [|rewrite Hp; unfold pre'; by rewrite <- app_assoc
       |unfold pre'; by rewrite lookup_app_l|done].
    unfold pre'. rewrite insert_app_l by done. by rewrite <- app_assoc.
  - cbn [cells width] in *.
    apply (settle_batch_drain W pre Unserved (OSet k v :: os) rc cb pb x); [|done|done].
    rewrite Hp. cbn [segment cells step_reads width]. by rewrite <- app_assoc.
  - cbn [cells width] in *.
    apply (settle_batch_drain W pre Unserved (ODelete k :: os) rc cb pb x); [|done|done].
    rewrite Hp. cbn [segment cells step_reads width]. by rewrite <- app_assoc.
Qed.

(** X5: a transaction aborted with its requests unanswered, in the order of
    events IndexedDB has: an [error] event at each unanswered request, the
    first of which reaches the handler of the transaction, and then the
    [abort] event.  At the first of them the batch outcome promise is
    rejected, with it every [set] and [delete] of the batch, and the [_commit]
    call is fulfilled, while the later [get]s of the batch are still pending.
    Every [get] is rejected by the handler of its own request, with the error
    of that request.  In the end every call of the batch is rejected; the
    actions are not put back into the queue and no second transaction is
    opened. *)
Theorem aborted_transaction_rejects_every_call w o os e txerror arg txerror' arg' fuel :
  ready w → length os + 1 < fuel →
  let tid := length (txns w) in
  let x := js_or txerror arg in
  ∃ ps w1 pc w2 w3 w4,
    invoke_all fuel (op_call <$> o :: os) w = Some (ps, w1) ∧
    length ps = S (length os) ∧
    invoke fuel CCommit w1 = Some (pc, w2) ∧
    deliver_all fuel [RequestError tid e; TxnError tid txerror arg] w2 = Some w3 ∧
    fulfilled w3 pc VUndefined ∧ rejected w3 (_batchPromise (this w)) x ∧
    (∀ p, write_of (o :: os) ps p → rejected w3 p x) ∧
    (∀ i k p, os !! i = Some (OGet k) → ps !! S i = Some p → pending w3 p) ∧
    deliver_all fuel (replicate (length os) (RequestError tid e)
                      ++ [TxnAbort tid txerror' arg']) w3 = Some w4 ∧
    (∀ i k p, (o :: os) !! i = Some (OGet k) → ps !! i = Some p → rejected w4 p e) ∧
    (∀ p, write_of (o :: os) ps p → rejected w4 p x) ∧
    fulfilled w4 pc VUndefined ∧ rejected w4 (_batchPromise (this w)) x ∧
    database w4 = database w ∧ queue w4 = Some [] ∧ jobs w4 = [] ∧
    length (txns w4) = S tid.
Proof.
  intros Hw Hf tid x.
  set (os0 := o :: os).
  assert (os0 ≠ []) as Hos0 by done.
  destruct (committed_enqueued_shape os0 w Hw Hos0) as (Hj2 & Hp2 & Hb2 & Ht2 & Hd2).
  assert (queue (committed (enqueued os0 w)) = Some []) as Hq2.
  { pose proof (rd_queue _ Hw) as Hq. unfold queue in Hq.
    destruct (_actions (this w)) as [r|] eqn:Ha; [simpl in Hq|done].
    clear Hj2 Hp2 Hb2 Ht2 Hd2. destruct_world w. unfold queue; simpl.
    rewrite lookup_app_r by (by rewrite length_alter).
    by rewrite length_alter, Nat.sub_diag. }
  set (n := length (promises w)) in *.
  set (pb := _batchPromise (this w)) in *.
  set (pre := alter (add_reactions (adopters os0 n)) pb (promises w)) in *.
  assert (length pre = n) as Hlen by apply length_alter.
  pose proof (batch_allocated w (ready_accepting w Hw)) as Hlt. fold n pb in Hlt.
  set (w2 := committed (enqueued os0 w)) in *.
  set (h := batch_handlers os0 w) in *.
  set (fu := mkPromise (Some (Fulfilled VUndefined)) []).
  set (cs := [mkPromise None []; mkPromise None [];
              mkPromise None [RAdopt (length pre + span os0)]]) in *.
  set (cs' := [fu; mkPromise None []; fu]).
  set (rq := request_of <$> acts os (length pre + width o)).
  assert (tid < length (txns w2)) as Hlt2
    by (rewrite Ht2, length_app; cbn [length]; unfold tid; lia).
  (* the first request fails *)
  set (wa := set_promises ((pre ++ cells (Refused e) None o (length pre))
                           ++ segment Unserved None os (length pre + width o) ++ cs)
               (set_txns (<[tid := mkTxn rq TxActive None h]> (txns w2)) w2)).
  assert (deliver fuel (RequestError tid e) w2 = Some wa) as Ha.
  { apply (refuse_one o os None pre cs w2 TxActive None h tid e fuel);
      [done|done| |done|lia].
    rewrite Ht2. unfold tid. by rewrite lookup_fresh. }
  (* its error event reaches the handler of the transaction *)
  set (wb := set_txns (<[tid := mkTxn rq TxErred None h]> (txns wa)) wa).
  set (pre2 := <[pb := mkPromise (Some (Rejected x)) []]> pre
               ++ cells (Refused e) (Some (Rejected x)) o (length pre)).
  assert (length pre2 = length pre + width o) as Hlen2
    by (unfold pre2; by rewrite length_app, length_insert, length_cells).
  set (wc := set_jobs []
               (set_promises (pre2 ++ segment Unserved (Some (Rejected x)) os (length pre2)
                              ++ cs') wb)).
  assert (txns wa !! tid = Some (mkTxn rq TxActive None h)) as Hta.
  { unfold wa. destruct_world_hyps w2. cbn [set_promises set_txns txns].
    by apply list_lookup_insert_eq. }
  assert (promises wb = pre ++ cells (Refused e) None o (length pre)
                          ++ segment Unserved None os (length pre + width o) ++ cs) as Hpb.
  { unfold wb, wa. destruct_world_hyps w2. cbn [set_promises set_txns promises].
    by rewrite <- app_assoc. }
  assert (jobs wb = []) as Hjb by (unfold wb, wa; by destruct_world_hyps w2).
  assert (deliver fuel (TxnError tid txerror arg) wa = Some wc) as Hb.
  { unfold deliver, handle. rewrite Hta. cbn [mbind option_bind]. fold wb.
    unfold h, batch_handlers, run_handlers, txn_onfail. cbn [h_rejectBatch h_resolve].
    fold n pb x. rewrite <- Hlen.
    apply (quiesce_exact (length (adopters os0 (length pre)) + 1)).
    - unfold os0.
      rewrite (first_error_settles wb pre o os [] (mkPromise None []) pb (Rejected x) e Hjb Hpb Hb2).
      unfold wc. rewrite Hlen2. unfold pre2. rewrite <- !app_assoc. reflexivity.
    - reflexivity.
    - pose proof (length_adopters_le os0 (length pre)). unfold os0 in *.
      cbn [length] in *. lia. }
  assert (promises wc = pre2 ++ segment Unserved (Some (Rejected x)) os (length pre2) ++ cs')
    as Hpc by (unfold wc, wb, wa; by destruct_world_hyps w2).
  assert (txns wc !! tid = Some (mkTxn (request_of <$> acts os (length pre2)) TxErred None h))
    as Htc.
  { unfold wc, wb, wa. rewrite Hlen2. fold rq. destruct_world_hyps w2.
    cbn [set_jobs set_promises set_txns txns].
    apply list_lookup_insert_eq. by rewrite length_insert. }
  assert (jobs wc = []) as Hjc by reflexivity.
  (* the other requests fail *)
  set (wd := set_promises (pre2 ++ segment (Refused e) (Some (Rejected x)) os (length pre2)
                           ++ cs')
               (set_txns (<[tid := mkTxn [] TxErred None h]> (txns wc)) wc)).
  assert (deliver_all fuel (replicate (length os) (RequestError tid e)) wc = Some wd) as Hc
    by (apply (refuse_all e os (Some (Rejected x)) pre2 cs' wc TxErred None h tid fuel);
        [done|done|done|done|lia]).
  (* the abort event *)
  set (we := set_txns (<[tid := mkTxn [] TxFinished None h]> (txns wd)) wd).
  assert (promises wd = <[pb := mkPromise (Some (Rejected x)) []]> pre
                        ++ segment (Refused e) (Some (Rejected x)) os0
                             (length (<[pb := mkPromise (Some (Rejected x)) []]> pre))
                        ++ cs') as Hpd.
  { unfold wd, wc, wb, wa. destruct_world_hyps w2. cbn [set_jobs set_promises set_txns promises].
    rewrite Hlen2. unfold pre2, os0. cbn [segment step_reads]. rewrite length_insert.
    by rewrite <- !app_assoc. }
  assert (promises we = promises wd) as Hpe by (unfold we; by destruct_world_hyps wd).
  assert (txns wd !! tid = Some (mkTxn [] TxErred None h)) as Htd.
  { unfold wd, wc, wb, wa. destruct_world_hyps w2. cbn [set_jobs set_promises set_txns txns].
    apply list_lookup_insert_eq. by rewrite !length_insert. }
  assert (deliver fuel (TxnAbort tid txerror' arg') wd = Some we) as Hd.
  { unfold deliver, handle. rewrite Htd. rewrite bool_decide_false by done.
    cbn [mbind option_bind]. fold we.
    unfold h, batch_handlers, run_handlers, txn_onfail. cbn [h_rejectBatch h_resolve].
    fold n pb.
    erewrite (settle_settled we pb);
      [|rewrite Hpe, Hpd, lookup_app_l by (by rewrite length_insert, Hlen);
        apply list_lookup_insert_eq; by rewrite Hlen].
    erewrite (settle_settled we);
      [|rewrite Hpe, Hpd;
        replace (S (S (n + span os0)))
          with (length (<[pb := mkPromise (Some (Rejected x)) []]> pre)
                + length (segment (Refused e) (Some (Rejected x)) os0
                            (length (<[pb := mkPromise (Some (Rejected x)) []]> pre))) + 2)
          by (rewrite length_segment, length_insert, Hlen; lia);
        unfold cs'; apply lookup_past_2].
    apply (quiesce_exact 0); [reflexivity| |lia].
    unfold we, wd. by destruct_world_hyps wc. }
  (* the promises *)
  assert (∀ W g b post i o' p,
            promises W = <[pb := mkPromise (Some (Rejected x)) []]> pre
                         ++ segment g b os0 (length (<[pb := mkPromise (Some (Rejected x)) []]> pre))
                         ++ post →
            os0 !! i = Some o' → ids os0 n !! i = Some p →
            state_of W p = pstate <$> cells (steps_reads (take i os0) g) b o' p !! 0) as Hcell.
  { intros W g b post i o' p HpW Ho Hp. rewrite (write_lookup _ _ _ _ _ Ho Hp), <- Hlen.
    rewrite <- (length_insert pre pb (mkPromise (Some (Rejected x)) [])).
    exact (state_of_segment W _ post g b os0 i o' HpW Ho). }
  assert (∀ W g post,
            promises W = <[pb := mkPromise (Some (Rejected x)) []]> pre
                         ++ segment g (Some (Rejected x)) os0
                              (length (<[pb := mkPromise (Some (Rejected x)) []]> pre))
                         ++ fu :: post →
            state_of W (n + span os0) = Some (Some (Fulfilled VUndefined))
            ∧ state_of W pb = Some (Some (Rejected x))) as Hends.
  { intros W g post HpW. unfold state_of. rewrite HpW. split.
    - replace (n + span os0)
        with (length (<[pb := mkPromise (Some (Rejected x)) []]> pre)
              + length (segment g (Some (Rejected x)) os0
                          (length (<[pb := mkPromise (Some (Rejected x)) []]> pre))))
        by (rewrite length_segment, length_insert, Hlen; lia).
      by rewrite lookup_at2.
    - rewrite lookup_app_l by (by rewrite length_insert, Hlen).
      by rewrite list_lookup_insert_eq by (by rewrite Hlen). }
  exists (ids os0 n), (enqueued os0 w), (n + span os0), w2, wc, we.
  split; [apply invoke_all_enqueue; [by apply ready_accepting|lia]|].
  split; [unfold os0; by rewrite length_ids|].
  split; [apply invoke_commit; [done|done|lia]|].
  split; [cbn [deliver_all]; rewrite Ha; cbn [mbind option_bind]; by rewrite Hb|].
  assert (state_of wc (n + span os0) = Some (Some (Fulfilled VUndefined))
          ∧ state_of wc pb = Some (Some (Rejected x))) as [Hc1 Hc2].
  { unfold state_of. rewrite Hpc. split.
    - replace (n + span os0)
        with (length pre2 + length (segment Unserved (Some (Rejected x)) os (length pre2)))
        by (rewrite length_segment, Hlen2, Hlen; unfold os0; cbn [span]; lia).
      unfold cs'. by rewrite lookup_at2.
    - rewrite lookup_app_l by lia. unfold pre2.
      rewrite lookup_app_l by (by rewrite length_insert, Hlen).
      by rewrite list_lookup_insert_eq by (by rewrite Hlen). }
  split; [exact Hc1|]. split; [exact Hc2|].
  assert (∀ i o' p, os !! i = Some o' → ids os0 n !! S i = Some p →
            state_of wc p = pstate <$> cells Unserved (Some (Rejected x)) o' p !! 0) as Hlater.
  { intros i o' p Ho Hp. unfold os0 in Hp. cbn [ids lookup list_lookup] in Hp.
    rewrite (ids_lookup os i o' _ Ho) in Hp. injection Hp as <-.
    replace (n + width o) with (length pre2) by lia.
    exact (state_of_segment wc pre2 cs' Unserved _ os i o' Hpc Ho). }
  split.
  { intros p (i & o' & Ho & Hg & Hp). unfold rejected. destruct i as [|i].
    - unfold os0 in Ho, Hp. cbn in Ho, Hp. injection Ho as ->. injection Hp as <-.
      unfold state_of. rewrite Hpc. unfold pre2. rewrite <- !app_assoc.
      rewrite lookup_app_r by (by rewrite length_insert, Hlen).
      rewrite length_insert, Hlen, Nat.sub_diag. by destruct o'.
    - unfold os0 in Ho. cbn in Ho. rewrite (Hlater i o' p Ho Hp). by destruct o'. }
  split.
  { intros i k p Ho Hp. unfold pending. by rewrite (Hlater i _ p Ho Hp). }
  split; [rewrite deliver_all_app, Hc; cbn [mbind option_bind deliver_all]; by rewrite Hd|].
  rewrite <- Hpe in Hpd.
  split.
  { intros i k p Ho Hp. unfold rejected. by rewrite (Hcell we _ _ _ i _ p Hpd Ho Hp). }
  split.
  { intros p (i & o' & Ho & Hg & Hp). unfold rejected.
    rewrite (Hcell we _ _ _ i _ p Hpd Ho Hp). by destruct o'. }
  destruct (Hends we _ _ Hpd) as [He1 He2].
  split; [exact He1|]. split; [exact He2|].
  split; [rewrite <- Hd2; unfold we, wd, wc, wb, wa; by destruct_world_hyps w2|].
  split.
  { rewrite <- Hq2. unfold we, wd, wc, wb, wa, queue. by destruct_world_hyps w2. }
  split; [unfold we, wd, wc, wb, wa; by destruct_world_hyps w2|].
  transitivity (length (txns w2)).
  { unfold we, wd, wc, wb, wa. destruct_world_hyps w2.
    cbn [set_jobs set_promises set_txns txns]. by rewrite !length_insert. }
  rewrite Ht2, length_app. cbn [length]. unfold tid. lia.
Qed.

Lemma aborted_transaction_rejects_every_call_witness :
  ∃ ps w1 pc w2 w3 w4 p q,
    invoke_all 3 (op_call <$> [OSet "a" (VNum 1); OGet "a"]) (opened "kv" None None)
    = Some (ps, w1) ∧
    invoke 3 CCommit w1 = Some (pc, w2) ∧
    deliver_all 3 [RequestError (length (txns (opened "kv" None None)))
                     (VDOMException "AbortError");
                   TxnError (length (txns (opened "kv" None None)))
                     (VDOMException "QuotaExceededError") (VEvent "error")] w2 = Some w3 ∧
    ps !! 0 = Some p ∧ ps !! 1 = Some q ∧
    fulfilled w3 pc VUndefined ∧ pending w3 q ∧
    deliver_all 3 (replicate 1 (RequestError (length (txns (opened "kv" None None)))
                                  (VDOMException "AbortError"))
                   ++ [TxnAbort (length (txns (opened "kv" None None)))
                         (VDOMException "QuotaExceededError") (VEvent "abort")]) w3
    = Some w4 ∧
    rejected w4 q (VDOMException "AbortError") ∧
    rejected w4 p (VDOMException "QuotaExceededError").
Proof.
  destruct (aborted_transaction_rejects_every_call (opened "kv" None None)
              (OSet "a" (VNum 1)) [OGet "a"] (VDOMException "AbortError")
              (VDOMException "QuotaExceededError") (VEvent "error")
              (VDOMException "QuotaExceededError") (VEvent "abort") 3)
    as (ps & w1 & pc & w2 & w3 & w4 & H1 & Hl & H2 & H3 & H4 & _ & _ & H5 & H6 & H7 & H8 & _);
    [apply ready_opened|cbn [length]; lia|].
  destruct (lookup_lt_is_Some_2 ps 0) as [p Hp]; [rewrite Hl; cbn [length]; lia|].
  destruct (lookup_lt_is_Some_2 ps 1) as [q Hq]; [rewrite Hl; cbn [length]; lia|].
  exists ps, w1, pc, w2, w3, w4, p, q.
  refine (conj H1 (conj H2 (conj H3 (conj Hp (conj Hq (conj H4
            (conj (H5 0 "a" q eq_refl Hq) (conj H6 (conj (H7 1 "a" q eq_refl Hq) _))))))))).
  apply H8. exists 0, (OSet "a" (VNum 1)). exact (conj eq_refl (conj eq_refl Hp)).
Defined.
